(** * Truss_stem_solved.py: the truss geometry model, its importer and its report

    A shallow embedding of [Position], [Material], [Node], [Link],
    [TrussModel], [TrussController] and, of [TrussView], [displayReport],
    [drawLinks] and [drawAGrid].

    Python is duck typed: [Position] works over whatever numbers it is given.
    The embedding is therefore written once over an interface of scalar
    operations ([Scalar], and [Libm] for the calls into the math library) and
    instantiated twice:
    - [binary64_with], IEEE double precision, which is what Python's [float]
      is: [+ - * /] and the comparisons are the kernel's primitive
      operations, and [**] is left open ([binary64] fixes it for the
      examples);
    - [Rscalar] and [Rlibm], exact real arithmetic.

    Exceptions are values: [py A] is a result or a raised exception, and the
    stateful methods of the controller run in a state-and-exception monad. *)

From Stdlib Require Import ZArith List String Ascii Bool Lia.
From Stdlib Require Import Uint63 PrimFloat SpecFloat FloatOps FloatAxioms.
From Stdlib Require Import Reals Lra.
Import ListNotations.

Set Implicit Arguments.

(** ** Python results *)

(** The exceptions the modelled code can raise. *)
Inductive exn : Type :=
| ValueError
| IndexError
| TypeError
| AttributeError
| ZeroDivisionError
| OverflowError.

Inductive py (A : Type) : Type :=
| Ok (a : A)
| Raise (e : exn).

Arguments Ok {A} a.
Arguments Raise {A} e.

Definition py_bind {A B : Type} (c : py A) (k : A -> py B) : py B :=
  match c with
  | Ok a => k a
  | Raise e => Raise e
  end.

Declare Scope py_scope.
Delimit Scope py_scope with py.
Notation "x <- c ;; k" := (py_bind c (fun x => k))
  (at level 100, c at next level, right associativity) : py_scope.

(** ** Numbers *)

(** The operators on numbers that the source applies to coordinates.
    [truediv] is Python's [/], which raises [ZeroDivisionError] on a zero
    divisor instead of producing an infinity.  [pow2] and [root] are the
    two uses of [**]: [x ** 2], which raises [OverflowError] when the
    square is out of range, and [s ** 0.5] on a sum of squares. *)
Record Scalar : Type := {
  num :> Type;
  of_Z : Z -> num;                  (* a literal such as 0.0, 2.0, 180.0 *)
  add : num -> num -> num;          (* a + b *)
  sub : num -> num -> num;          (* a - b *)
  mul : num -> num -> num;          (* a * b *)
  truediv : num -> num -> py num;   (* a / b *)
  pow2 : num -> py num;             (* x ** 2 *)
  root : num -> py num;             (* s ** 0.5 *)
  eqb : num -> num -> bool;         (* a == b *)
  leb : num -> num -> bool;         (* a <= b *)
  geb : num -> num -> bool;         (* a >= b *)
  gtb : num -> num -> bool          (* a > b *)
}.

(** The [math] module: [math.acos], which raises [ValueError] outside
    [-1, 1], and the constant [math.pi]. *)
Record Libm (S : Scalar) : Type := {
  acos : S -> py S;                 (* math.acos(t) *)
  pi : S                            (* math.pi *)
}.

(** *** Python's float: IEEE binary64 *)

Definition float_of_Z (z : Z) : float :=
  match z with
  | Z0 => PrimFloat.zero
  | Zpos _ => PrimFloat.of_uint63 (Uint63.of_Z z)
  | Zneg _ => PrimFloat.opp (PrimFloat.of_uint63 (Uint63.of_Z (Z.opp z)))
  end.

Definition float_truediv (a b : float) : py float :=
  if PrimFloat.eqb b PrimFloat.zero then Raise ZeroDivisionError
  else Ok (PrimFloat.div a b).

(** Python floats.  [+ - * /] and the comparisons are the IEEE operations;
    the two uses of [**] end in C's [pow], whose last digit the language
    does not fix, so they are parameters [pw] and [rt]. *)
Definition binary64_with (pw rt : float -> py float) : Scalar := {|
  num := float;
  of_Z := float_of_Z;
  add := PrimFloat.add;
  sub := PrimFloat.sub;
  mul := PrimFloat.mul;
  truediv := float_truediv;
  pow2 := pw;
  root := rt;
  eqb := PrimFloat.eqb;
  leb := PrimFloat.leb;
  geb := fun a b => PrimFloat.leb b a;
  gtb := fun a b => PrimFloat.ltb b a
|}.

(** [x ** 2] and [s ** 0.5] as the correctly rounded square and square
    root.  [pow] can differ from these in the last place on some
    arguments; it agrees with them on the arguments evaluated in this file
    (0, small integers, powers of two).  A finite [x] whose square is out
    of range raises [OverflowError]; a NaN or an infinity goes through. *)
Definition float_pow2 (a : float) : py float :=
  let p := PrimFloat.mul a a in
  if PrimFloat.is_finite a && PrimFloat.is_infinity p then Raise OverflowError
  else Ok p.

Definition float_root (s : float) : py float := Ok (PrimFloat.sqrt s).

Definition binary64 : Scalar := binary64_with float_pow2 float_root.

(** *** Exact real arithmetic *)

Definition Req_bool (a b : R) : bool := if Req_dec_T a b then true else false.
Definition Rle_bool (a b : R) : bool := if Rle_dec a b then true else false.
Definition Rlt_bool (a b : R) : bool := if Rlt_dec a b then true else false.

Definition R_truediv (a b : R) : py R :=
  if Req_bool b 0%R then Raise ZeroDivisionError else Ok (a / b)%R.

Definition R_pow2 (a : R) : py R := Ok (a * a)%R.
Definition R_root (s : R) : py R := Ok (sqrt s).

Definition Rscalar : Scalar := {|
  num := R;
  of_Z := IZR;
  add := Rplus;
  sub := Rminus;
  mul := Rmult;
  truediv := R_truediv;
  pow2 := R_pow2;
  root := R_root;
  eqb := Req_bool;
  leb := Rle_bool;
  geb := fun a b => Rle_bool b a;
  gtb := fun a b => Rlt_bool b a
|}.

Definition R_acos (t : R) : py R :=
  if Rle_bool (-1) t && Rle_bool t 1 then Ok (Ratan.acos t) else Raise ValueError.

Definition Rlibm : Libm Rscalar := @Build_Libm Rscalar R_acos PI.

(** ** class Position *)

Section Position.

Variable S : Scalar.

Record Position : Type := mkPosition {
  x : S;
  y : S;
  z : S
}.

(** [Position.__init__(pos, x, y, z)]: the defaults are 0.0, a tuple [pos]
    overrides them, and each keyword that is given overrides its component. *)
Definition Position_init (pos : option (S * S * S)) (ox oy oz : option S) : Position :=
  let d :=
    match pos with
    | Some (px, py, pz) => mkPosition px py pz
    | None => mkPosition (of_Z S 0) (of_Z S 0) (of_Z S 0)
    end in
  mkPosition
    (match ox with Some v => v | None => x d end)
    (match oy with Some v => v | None => y d end)
    (match oz with Some v => v | None => z d end).

Definition Position_of_tuple (t : S * S * S) : Position :=
  Position_init (Some t) None None None.

(** [__eq__]: three [!=] tests in turn. *)
Definition Position_eq (a b : Position) : bool :=
  if negb (eqb S (x a) (x b)) then false
  else if negb (eqb S (y a) (y b)) then false
  else if negb (eqb S (z a) (z b)) then false
  else true.

(** [__add__] and [__sub__] *)
Definition Position_add (a b : Position) : Position :=
  Position_of_tuple (add S (x a) (x b), add S (y a) (y b), add S (z a) (z b)).

Definition Position_sub (a b : Position) : Position :=
  Position_of_tuple (sub S (x a) (x b), sub S (y a) (y b), sub S (z a) (z b)).

(** [__mul__]: by a number, or component by component with a Position. *)
Definition Position_mul_scalar (a : Position) (s : S) : Position :=
  Position_of_tuple (mul S (x a) s, mul S (y a) s, mul S (z a) s).

Definition Position_mul (a b : Position) : Position :=
  Position_of_tuple (mul S (x a) (x b), mul S (y a) (y b), mul S (z a) (z b)).

(** [__truediv__]: a new Position. *)
Definition Position_truediv (a : Position) (s : S) : py Position :=
  (qx <- truediv S (x a) s ;;
   qy <- truediv S (y a) s ;;
   qz <- truediv S (z a) s ;;
   Ok (Position_of_tuple (qx, qy, qz)))%py.

(** [__idiv__]: divides the components of [self] in place, one after the
    other; the result is the object after the three assignments. *)
Definition Position_idiv (a : Position) (s : S) : py Position :=
  (qx <- truediv S (x a) s ;;
   qy <- truediv S (y a) s ;;
   qz <- truediv S (z a) s ;;
   Ok (mkPosition qx qy qz))%py.

(** [mag]: [(self.x**2 + self.y**2 + self.z**2) ** 0.5] *)
Definition mag (p : Position) : py S :=
  (a <- pow2 S (x p) ;;
   b <- pow2 S (y p) ;;
   c <- pow2 S (z p) ;;
   root S (add S (add S a b) c))%py.

(** [normalize]: returns early, leaving [self] as it is, when the magnitude
    is not positive; otherwise divides in place.  The value is [self] after
    the call. *)
Definition normalize (p : Position) : py Position :=
  (l <- mag p ;;
   if leb S l (of_Z S 0) then Ok p
   else Position_idiv p l)%py.

(** [getTup] *)
Definition getTup (p : Position) : S * S * S := (x p, y p, z p).

(** *** The operators on an operand of any type *)

(** What an operator can receive as [other]: a number (a float or an
    int), a Position, or one of the classes [float] and [int]. *)
Inductive operand : Type :=
| Number (n : S)
| APosition (p : Position)
| FloatClass
| IntClass.

(** [other in (float, int)]: the members of the tuple are compared with
    [other], by identity and then with [==].  Each class is a member.  A
    number is not: [==] between a class and a number is False.  With a
    Position the comparison ends in [Position.__eq__(other, float)], which
    reads [float.x]. *)
Definition in_float_int (other : operand) : py bool :=
  match other with
  | Number _ => Ok false
  | APosition _ => Raise AttributeError
  | FloatClass | IntClass => Ok true
  end.

(** [type(other) in (float, int)]: the number, when [other] is one. *)
Definition type_in_float_int (other : operand) : option S :=
  match other with
  | Number n => Some n
  | _ => None
  end.

(** [type(other) == Position] and [type(other) is Position]: the
    Position, when [other] is one. *)
Definition type_is_Position (other : operand) : option Position :=
  match other with
  | APosition q => Some q
  | _ => None
  end.

(** [a + other] and [a - other] for a coordinate [a]: [TypeError] unless
    [other] is a number. *)
Definition plus (a : S) (other : operand) : py S :=
  match other with
  | Number n => Ok (add S a n)
  | _ => Raise TypeError
  end.

Definition minus (a : S) (other : operand) : py S :=
  match other with
  | Number n => Ok (sub S a n)
  | _ => Raise TypeError
  end.

(** Three assignments [self.x = f(self.x)], [self.y = f(self.y)],
    [self.z = f(self.z)] in turn, then [return self].  The first component
    is what the method returns ([None] is Python's None), the second is
    [self] after the call: an assignment that raises leaves the earlier
    ones done. *)
Definition in_place (f : S -> py S) (self : Position) : py (option Position) * Position :=
  match f (x self) with
  | Raise e => (Raise e, self)
  | Ok x1 =>
      match f (y self) with
      | Raise e => (Raise e, mkPosition x1 (y self) (z self))
      | Ok y1 =>
          match f (z self) with
          | Raise e => (Raise e, mkPosition x1 y1 (z self))
          | Ok z1 => (Ok (Some (mkPosition x1 y1 z1)), mkPosition x1 y1 z1)
          end
      end
  end.

(** [__iadd__] *)
Definition Position__iadd__ (self : Position) (other : operand)
  : py (option Position) * Position :=
  match in_float_int other with
  | Raise e => (Raise e, self)
  | Ok true => in_place (fun a => plus a other) self
  | Ok false =>
      match type_is_Position other with
      | Some o =>
          let r := mkPosition (add S (x self) (x o)) (add S (y self) (y o))
                     (add S (z self) (z o)) in
          (Ok (Some r), r)
      | None => (Ok None, self)
      end
  end.

(** [__isub__] *)
Definition Position__isub__ (self : Position) (other : operand)
  : py (option Position) * Position :=
  match in_float_int other with
  | Raise e => (Raise e, self)
  | Ok true => in_place (fun a => minus a other) self
  | Ok false =>
      match type_is_Position other with
      | Some o =>
          let r := mkPosition (sub S (x self) (x o)) (sub S (y self) (y o))
                     (sub S (z self) (z o)) in
          (Ok (Some r), r)
      | None => (Ok None, self)
      end
  end.

(** [__mul__]: [None] when [other] is neither a number nor a Position. *)
Definition Position__mul__ (self : Position) (other : operand) : option Position :=
  match type_in_float_int other with
  | Some s => Some (Position_mul_scalar self s)
  | None =>
      match type_is_Position other with
      | Some o => Some (Position_mul self o)
      | None => None
      end
  end.

(** [__rmul__]: [self * other] *)
Definition Position__rmul__ (self : Position) (other : operand) : option Position :=
  Position__mul__ self other.

(** [__imul__] *)
Definition Position__imul__ (self : Position) (other : operand)
  : py (option Position) * Position :=
  match type_in_float_int other with
  | Some s => in_place (fun a => Ok (mul S a s)) self
  | None => (Ok None, self)
  end.

(** [__truediv__] on any operand *)
Definition Position__truediv__ (self : Position) (other : operand) : py (option Position) :=
  match type_in_float_int other with
  | Some s => (q <- Position_truediv self s ;; Ok (Some q))%py
  | None => Ok None
  end.

(** [__idiv__] on any operand *)
Definition Position__idiv__ (self : Position) (other : operand)
  : py (option Position) * Position :=
  match type_in_float_int other with
  | Some s => in_place (fun a => truediv S a s) self
  | None => (Ok None, self)
  end.

Variable L : Libm S.

(** [getAngleRad] *)
Definition getAngleRad (p : Position) : py S :=
  (l <- mag p ;;
   if leb S l (of_Z S 0) then Ok (of_Z S 0)
   else if geb S (y p) (of_Z S 0) then
     (t <- truediv S (x p) l ;; acos L t)
   else
     (t <- truediv S (x p) l ;;
      a <- acos L t ;;
      Ok (sub S (mul S (of_Z S 2) (pi L)) a)))%py.

(** [getAngleDeg] *)
Definition getAngleDeg (p : Position) : py S :=
  (k <- truediv S (of_Z S 180) (pi L) ;;
   a <- getAngleRad p ;;
   Ok (mul S k a))%py.

End Position.

Arguments mkPosition {S} x y z.
Arguments Number {S} n.
Arguments APosition {S} p.
Arguments x {S} p.
Arguments y {S} p.
Arguments z {S} p.

(** ** Python string methods

    Text is modelled as strings of 8-bit characters; the methods below are
    the ones of [str] restricted to ASCII (a byte above 127 is neither
    white space nor a letter). *)

Local Open Scope string_scope.

(** [str.isspace] on one ASCII character: TAB to CR, FS to US, and space. *)
Definition is_space (c : ascii) : bool :=
  let n := nat_of_ascii c in
  ((9 <=? n) && (n <=? 13) || (28 <=? n) && (n <=? 32))%nat.

Fixpoint lstrip_by (p : ascii -> bool) (s : string) : string :=
  match s with
  | EmptyString => EmptyString
  | String c s' => if p c then lstrip_by p s' else s
  end.

Fixpoint rstrip_by (p : ascii -> bool) (s : string) : string :=
  match s with
  | EmptyString => EmptyString
  | String c s' =>
      match rstrip_by p s' with
      | EmptyString => if p c then EmptyString else String c EmptyString
      | r => String c r
      end
  end.

(** [s.strip()] *)
Definition strip (s : string) : string :=
  rstrip_by is_space (lstrip_by is_space s).

(** [s.strip("'")] *)
Definition strip_quote (s : string) : string :=
  let q := fun c => Ascii.eqb c "'"%char in
  rstrip_by q (lstrip_by q s).

(** [s.startswith('#')] *)
Definition startswith_hash (s : string) : bool :=
  match s with
  | String c _ => Ascii.eqb c "#"%char
  | EmptyString => false
  end.

(** [s.split(',')]: never the empty list. *)
Fixpoint split_comma (s : string) : list string :=
  match s with
  | EmptyString => [EmptyString]
  | String c s' =>
      if Ascii.eqb c ","%char then EmptyString :: split_comma s'
      else
        match split_comma s' with
        | h :: t => String c h :: t
        | [] => [String c EmptyString]
        end
  end.

Definition lower_ascii (c : ascii) : ascii :=
  let n := nat_of_ascii c in
  if ((65 <=? n) && (n <=? 90))%nat then ascii_of_nat (n + 32) else c.

(** [s.lower()] *)
Fixpoint lower (s : string) : string :=
  match s with
  | EmptyString => EmptyString
  | String c s' => String (lower_ascii c) (lower s')
  end.

(** [s.replace(c, '')] for a one-character [c] *)
Fixpoint remove_char (c : ascii) (s : string) : string :=
  match s with
  | EmptyString => EmptyString
  | String d s' => if Ascii.eqb d c then remove_char c s' else String d (remove_char c s')
  end.

(** [parts[i]]: [IndexError] past the end. *)
Definition index {A : Type} (l : list A) (i : nat) : py A :=
  match nth_error l i with
  | Some a => Ok a
  | None => Raise IndexError
  end.

(** ** The data model *)

Section Truss.

Variable S : Scalar.
Variable L : Libm S.

(** [float(s)] on a field of a line: [None] stands for [ValueError]. *)
Variable float_of_str : string -> option S.

Record Material : Type := mkMaterial {
  uts : option S;
  ys : option S;
  E : option S;
  staticFactor : option S
}.

(** [Material.__init__(uts, ys, modulus, staticFactor)] *)
Definition Material_init (uts ys modulus staticFactor : option S) : Material :=
  mkMaterial uts ys modulus staticFactor.

Record Node : Type := mkNode {
  Node_name : string;
  Node_position : Position S
}.

(** [Node.__init__(name, position)] *)
Definition Node_init (name : string) (position : option (Position S)) : Node :=
  mkNode name
    (match position with
     | Some p => p
     | None => Position_init S None None None None
     end).

Record Link : Type := mkLink {
  Link_name : string;
  node1_Name : string;
  node2_Name : string;
  length : option S;
  angleRad : option S
}.

(** [Link.__init__(name, node1, node2, length, angleRad)]: the body assigns
    the literal [""] to [self.name] and [None] to [self.length] and
    [self.angleRad]; only [node1] and [node2] are stored. *)
Definition Link_init (name node1 node2 : string) (length angleRad : option S) : Link :=
  mkLink "" node1 node2 None None.

Record TrussModel : Type := mkTrussModel {
  title : option string;
  links : list Link;
  nodes : list Node;
  material : Material
}.

(** [TrussModel.__init__] *)
Definition TrussModel_init : TrussModel :=
  mkTrussModel None [] [] (Material_init None None None None).

(** ** The view's report widgets *)

(** One line of the link table: name, node names, and the two numbers
    handed to the ['{:0.2f}'] format. *)
Record Row : Type := mkRow {
  row_name : string;
  row_node1 : string;
  row_node2 : string;
  row_length : S;
  row_angle : S
}.

(** The text [st] of [displayReport], kept as the values it is formatted
    from: the title (printed with ['{}'], so [None] is accepted), the four
    material numbers and the link table. *)
Record Report : Type := mkReport {
  rep_title : option string;
  rep_staticFactor : S;
  rep_uts : S;
  rep_ys : S;
  rep_E : S;
  rep_rows : list Row
}.

(** The widgets [displayReport] writes; [None] is a widget not written yet. *)
Record View : Type := mkView {
  te_Report : option Report;
  le_LongLinkName : option string;
  le_LongLinkNode1 : option string;
  le_LongLinkNode2 : option string;
  le_LongLinkLength : option S
}.

Definition View_init : View := mkView None None None None None.

(** ** The controller's state and its monad *)

(** What the controller prints. *)
Inductive Output : Type :=
| InvalidFilePath
| FailedToOpen
| ProcessingLine (line : string)
| NodeAdded (name : string)
| AddedNode (name : string)
| LinkAdded (name : string)
| AddedLink (name : string)
| DataFormattingError (line : string)
| BuildingScene.

Record TrussController : Type := mkController {
  truss : TrussModel;
  view : View;
  stdout : list Output
}.

(** [TrussController.__init__] *)
Definition TrussController_init : TrussController :=
  mkController TrussModel_init View_init [].

Definition M (A : Type) : Type := TrussController -> py A * TrussController.

Definition ret {A : Type} (a : A) : M A := fun s => (Ok a, s).

Definition bind {A B : Type} (c : M A) (k : A -> M B) : M B :=
  fun s =>
    match c s with
    | (Ok a, s') => k a s'
    | (Raise e, s') => (Raise e, s')
    end.

Definition lift {A : Type} (r : py A) : M A := fun s => (r, s).

Definition raise {A : Type} (e : exn) : M A := lift (Raise e).

Definition get_truss : M TrussModel := fun s => (Ok (truss s), s).

Definition set_truss (t : TrussModel) : M unit :=
  fun s => (Ok tt, mkController t (view s) (stdout s)).

Definition get_view : M View := fun s => (Ok (view s), s).

Definition set_view (v : View) : M unit :=
  fun s => (Ok tt, mkController (truss s) v (stdout s)).

Definition print (o : Output) : M unit :=
  fun s => (Ok tt, mkController (truss s) (view s) (stdout s ++ [o])).

(** [try: body except ValueError: handler] *)
Definition try_except_ValueError (body handler : M unit) : M unit :=
  fun s =>
    match body s with
    | (Raise ValueError, s') => handler s'
    | r => r
    end.

Declare Scope m_scope.
Delimit Scope m_scope with M.
Notation "x <- c ;; k" := (bind c (fun x => k))
  (at level 100, c at next level, right associativity) : m_scope.
Notation "c ;;; k" := (bind c (fun _ => k))
  (at level 100, right associativity) : m_scope.

(** [for a in l: f(a)] *)
Fixpoint for_each {A : Type} (f : A -> M unit) (l : list A) : M unit :=
  match l with
  | [] => ret tt
  | a :: l' => (f a ;;; for_each f l')%M
  end.

(** ** class TrussController *)

(** [hasNode] *)
Fixpoint hasNode_in (ns : list Node) (name : string) : bool :=
  match ns with
  | [] => false
  | n :: ns' => if String.eqb (Node_name n) name then true else hasNode_in ns' name
  end.

Definition hasNode (name : string) : M bool :=
  (t <- get_truss ;; ret (hasNode_in (nodes t) name))%M.

(** [getNode]: the first node of that name, [None] when the loop ends. *)
Fixpoint getNode_in (ns : list Node) (name : string) : option Node :=
  match ns with
  | [] => None
  | n :: ns' => if String.eqb (Node_name n) name then Some n else getNode_in ns' name
  end.

(** [addNode] *)
Definition addNode (node : Node) : M unit :=
  (t <- get_truss ;;
   set_truss (mkTrussModel (title t) (links t) (nodes t ++ [node]) (material t)) ;;;
   print (NodeAdded (Node_name node)))%M.

(** [addLink] *)
Definition addLink (link : Link) : M unit :=
  (t <- get_truss ;;
   set_truss (mkTrussModel (title t) (links t ++ [link]) (nodes t) (material t)) ;;;
   print (LinkAdded (Link_name link)))%M.

(** [a, b, c = map(float, fields)]: every way this can fail (a field that
    is not a number, too few or too many fields) is a [ValueError]. *)
Definition unpack3_floats (fields : list string) : py (S * S * S) :=
  match fields with
  | [a; b; c] =>
      match float_of_str a, float_of_str b, float_of_str c with
      | Some u, Some v, Some w => Ok (u, v, w)
      | _, _, _ => Raise ValueError
      end
  | _ => Raise ValueError
  end.

(** [x, y = map(float, fields)] *)
Definition unpack2_floats (fields : list string) : py (S * S) :=
  match fields with
  | [a; b] =>
      match float_of_str a, float_of_str b with
      | Some u, Some v => Ok (u, v)
      | _, _ => Raise ValueError
      end
  | _ => Raise ValueError
  end.

(** [float(s)] *)
Definition float (s : string) : py S :=
  match float_of_str s with
  | Some v => Ok v
  | None => Raise ValueError
  end.

(** The body of the [try] in [ImportFromFile]: the chain of [if]/[elif]
    on the keyword. *)
Definition directive (keyword : string) (parts : list string) : M unit :=
  if String.eqb keyword "title" then
    (p1 <- lift (index parts 1) ;;
     t <- get_truss ;;
     set_truss (mkTrussModel (Some (strip_quote (strip p1))) (links t) (nodes t) (material t)))%M
  else if String.eqb keyword "material" then
    (f <- lift (unpack3_floats (skipn 1 parts)) ;;
     let '(u, y, m) := f in
     t <- get_truss ;;
     set_truss (mkTrussModel (title t) (links t) (nodes t)
                  (Material_init (Some u) (Some y) (Some m) None)))%M
  else if String.eqb keyword "static_factor" then
    (p1 <- lift (index parts 1) ;;
     f <- lift (float p1) ;;
     t <- get_truss ;;
     set_truss (mkTrussModel (title t) (links t) (nodes t)
                  (mkMaterial (uts (material t)) (ys (material t)) (E (material t)) (Some f))))%M
  else if String.eqb keyword "node" then
    (p1 <- lift (index parts 1) ;;
     let name := strip p1 in
     xy <- lift (unpack2_floats (skipn 2 parts)) ;;
     let '(vx, vy) := xy in
     has <- hasNode name ;;
     if negb has then
       let node := Node_init name (Some (Position_init S None (Some vx) (Some vy) None)) in
       addNode node ;;;
       print (AddedNode (Node_name node))
     else ret tt)%M
  else if String.eqb keyword "link" then
    (name <- lift (index parts 1) ;;
     p2 <- lift (index parts 2) ;;
     p3 <- lift (index parts 3) ;;
     let link := Link_init name (strip p2) (strip p3) None None in
     addLink link ;;;
     print (AddedLink (Link_name link)))%M
  else ret tt.

(** One turn of the [for line in lines] loop. *)
Definition process_line (raw : string) : M unit :=
  let line := strip raw in
  if startswith_hash line || String.eqb line "" then ret tt
  else
    let parts := split_comma line in
    let keyword := lower (strip (hd "" parts)) in
    (print (ProcessingLine line) ;;;
     try_except_ValueError (directive keyword parts)
       (print (DataFormattingError line)))%M.

(** [calcLinkVals], on the list of links: each link whose two names are
    found gets its length, then its angle.  The second component is the
    exception that ended the loop, if one did; the links set before it stay
    set. *)
Fixpoint calcLinkVals_in (ns : list Node) (ls : list Link) : list Link * option exn :=
  match ls with
  | [] => ([], None)
  | l :: ls' =>
      let n1 := if hasNode_in ns (node1_Name l) then getNode_in ns (node1_Name l) else None in
      let n2 := if hasNode_in ns (node2_Name l) then getNode_in ns (node2_Name l) else None in
      match n1, n2 with
      | Some a, Some b =>
          let r := Position_sub (Node_position b) (Node_position a) in
          match mag r with
          | Raise e => (l :: ls', Some e)
          | Ok len =>
              let l1 := mkLink (Link_name l) (node1_Name l) (node2_Name l) (Some len) (angleRad l) in
              match getAngleRad L r with
              | Raise e => (l1 :: ls', Some e)
              | Ok ang =>
                  let l2 := mkLink (Link_name l) (node1_Name l) (node2_Name l) (Some len) (Some ang) in
                  let '(rest, e) := calcLinkVals_in ns ls' in
                  (l2 :: rest, e)
              end
          end
      | _, _ =>
          let '(rest, e) := calcLinkVals_in ns ls' in
          (l :: rest, e)
      end
  end.

Definition calcLinkVals : M unit :=
  (t <- get_truss ;;
   let '(ls, e) := calcLinkVals_in (nodes t) (links t) in
   set_truss (mkTrussModel (title t) ls (nodes t) (material t)) ;;;
   match e with
   | Some e => raise e
   | None => ret tt
   end)%M.

(** ** TrussView.displayReport *)

(** ['{:0.2f}'.format(v)]: [TypeError] when [v] is [None]. *)
Definition format_2f (v : option S) : py S :=
  match v with
  | Some a => Ok a
  | None => Raise TypeError
  end.

(** The loop over [truss.links]: [longest] and the rows written so far.
    [l.length > longest.length] raises [TypeError] when either is [None]. *)
Fixpoint report_loop (ls : list Link) (longest : option Link) (rows : list Row)
  : py (option Link * list Row) :=
  match ls with
  | [] => Ok (longest, rows)
  | l :: ls' =>
      (longest' <-
         match longest with
         | None => Ok (Some l)
         | Some lg =>
             match length l, length lg with
             | Some a, Some b => Ok (if gtb S a b then Some l else Some lg)
             | _, _ => Raise TypeError
             end
         end ;;
       len <- format_2f (length l) ;;
       ang <- format_2f (angleRad l) ;;
       report_loop ls' longest'
         (rows ++ [mkRow (Link_name l) (node1_Name l) (node2_Name l) len ang]))%py
  end.

Definition View_displayReport (t : TrussModel) : M unit :=
  (sf <- lift (format_2f (staticFactor (material t))) ;;
   u <- lift (format_2f (uts (material t))) ;;
   y <- lift (format_2f (ys (material t))) ;;
   e <- lift (format_2f (E (material t))) ;;
   r <- lift (report_loop (links t) None []) ;;
   let '(longest, rows) := r in
   v <- get_view ;;
   set_view (mkView (Some (mkReport (title t) sf u y e rows))
               (le_LongLinkName v) (le_LongLinkNode1 v) (le_LongLinkNode2 v)
               (le_LongLinkLength v)) ;;;
   lg <- match longest with
         | Some l => ret l
         | None => raise AttributeError
         end ;;
   v <- get_view ;;
   set_view (mkView (te_Report v) (Some (Link_name lg)) (le_LongLinkNode1 v)
               (le_LongLinkNode2 v) (le_LongLinkLength v)) ;;;
   len <- lift (format_2f (length lg)) ;;
   v <- get_view ;;
   set_view (mkView (te_Report v) (le_LongLinkName v) (le_LongLinkNode1 v)
               (le_LongLinkNode2 v) (Some len)) ;;;
   v <- get_view ;;
   set_view (mkView (te_Report v) (le_LongLinkName v) (Some (node1_Name lg))
               (le_LongLinkNode2 v) (le_LongLinkLength v)) ;;;
   v <- get_view ;;
   set_view (mkView (te_Report v) (le_LongLinkName v) (le_LongLinkNode1 v)
               (Some (node2_Name lg)) (le_LongLinkLength v)))%M.

(** [TrussController.displayReport] *)
Definition displayReport : M unit :=
  (t <- get_truss ;; View_displayReport t)%M.

(** [drawTruss]: prints, then builds the graphics scene inside a [try]
    that catches every exception; the scene is not part of this model. *)
Definition drawTruss : M unit := print BuildingScene.

(** What the file system answers for [filepath]. *)
Inductive FileAccess : Type :=
| NoSuchPath                        (* empty path, or os.path.exists is false *)
| OpenFails                         (* open raises IOError *)
| FileLines (lines : list string).  (* file.readlines() *)

(** [ImportFromFile] *)
Definition ImportFromFile (file : FileAccess) : M unit :=
  match file with
  | NoSuchPath => print InvalidFilePath
  | OpenFails => print FailedToOpen
  | FileLines lines =>
      (for_each process_line lines ;;;
       calcLinkVals ;;;
       displayReport ;;;
       drawTruss)%M
  end.

(** ** Position.set, the equalities, the lookups and the drawing of links *)

(** [Position.set(strXYZ, tupXYZ)]: the three numbers are computed before
    the first assignment, so the value is [self] after the call and an
    exception leaves [self] as it was.  [float] of a number of a tuple is
    that number. *)
Definition Position_set (self : Position S) (strXYZ : option string)
           (tupXYZ : option (S * S * S)) : py (Position S) :=
  match strXYZ with
  | Some str =>
      let cells := split_comma (strip (remove_char ")" (remove_char "(" str))) in
      (c0 <- index cells 0 ;;
       vx <- float c0 ;;
       c1 <- index cells 1 ;;
       vy <- float c1 ;;
       c2 <- index cells 2 ;;
       vz <- float c2 ;;
       Ok (mkPosition vx vy vz))%py
  | None =>
      match tupXYZ with
      | Some (vx, vy, vz) => Ok (mkPosition vx vy vz)
      | None => Ok self
      end
  end.

(** [Node.__eq__]; [!=] on Positions is the negation of [Position.__eq__]. *)
Definition Node_eq (a b : Node) : bool :=
  if negb (String.eqb (Node_name a) (Node_name b)) then false
  else if negb (Position_eq (Node_position a) (Node_position b)) then false
  else true.

(** [a != b] on a length or an angle: a number or None. *)
Definition opt_ne (a b : option S) : bool :=
  match a, b with
  | None, None => false
  | Some u, Some v => negb (eqb S u v)
  | _, _ => true
  end.

(** [Link.__eq__] *)
Definition Link_eq (a b : Link) : bool :=
  if negb (String.eqb (node1_Name a) (node1_Name b)) then false
  else if negb (String.eqb (node2_Name a) (node2_Name b)) then false
  else if opt_ne (length a) (length b) then false
  else if opt_ne (angleRad a) (angleRad b) then false
  else true.

(** [TrussModel.getNode] *)
Definition TrussModel_getNode (t : TrussModel) (name : string) : option Node :=
  getNode_in (nodes t) name.

(** [TrussController.getNode] *)
Definition getNode (name : string) : M (option Node) :=
  (t <- get_truss ;; ret (getNode_in (nodes t) name))%M.

(** A call [scene.addLine(x1, y1, x2, y2, pen)]. *)
Record Segment : Type := mkSegment {
  seg_x1 : S;
  seg_y1 : S;
  seg_x2 : S;
  seg_y2 : S
}.

(** [TrussView.drawLinks]: the calls of [scene.addLine], in order.  A
    node object is true and None is false; nothing in the body of the
    [try] raises. *)
Fixpoint drawLinks_in (t : TrussModel) (ls : list Link) : list Segment :=
  match ls with
  | [] => []
  | link :: ls' =>
      match TrussModel_getNode t (node1_Name link), TrussModel_getNode t (node2_Name link) with
      | Some node1, Some node2 =>
          mkSegment (x (Node_position node1)) (y (Node_position node1))
                    (x (Node_position node2)) (y (Node_position node2))
          :: drawLinks_in t ls'
      | _, _ => drawLinks_in t ls'
      end
  end.

Definition drawLinks (truss : option TrussModel) : list Segment :=
  match truss with
  | None => []
  | Some t => drawLinks_in t (links t)
  end.

End Truss.

Arguments mkSegment {S} seg_x1 seg_y1 seg_x2 seg_y2.

(** ** TrussView.drawAGrid *)

(** [range(start, stop, step)] as the list of its values: [ValueError]
    for a zero step. *)
Definition py_range (start stop step : Z) : py (list Z) :=
  if (step =? 0)%Z then Raise ValueError
  else
    let n :=
      if (0 <? step)%Z then Z.to_nat ((stop - start + step - 1) / step)
      else Z.to_nat ((start - stop - step - 1) / (- step)) in
    Ok (map (fun k => (start + Z.of_nat k * step)%Z) (seq 0 n)).

(** A grid line: the four integers of a call [scene.addLine]. *)
Record GridLine : Type := mkGridLine {
  gx1 : Z;
  gy1 : Z;
  gx2 : Z;
  gy2 : Z
}.

(** [drawAGrid], on integers: the lines added to the scene, and the
    exception that ended the method, if one did.  [//] is the floor
    division. *)
Definition drawAGrid (DeltaX DeltaY Height Width CenterX CenterY : Z)
  : list GridLine * option exn :=
  let startX := (CenterX - Width / 2)%Z in
  let endX := (CenterX + Width / 2)%Z in
  let startY := (CenterY - Height / 2)%Z in
  let endY := (CenterY + Height / 2)%Z in
  match py_range startX (endX + 1) DeltaX with
  | Raise e => ([], Some e)
  | Ok xs =>
      let vertical := map (fun gx => mkGridLine gx startY gx endY) xs in
      match py_range startY (endY + 1) DeltaY with
      | Raise e => (vertical, Some e)
      | Ok ys =>
          ((vertical ++ map (fun gy => mkGridLine startX gy endX gy) ys)%list, None)
      end
  end.

Arguments mkMaterial {S} uts ys E staticFactor.
Arguments mkNode {S} Node_name Node_position.
Arguments mkLink {S} Link_name node1_Name node2_Name length angleRad.
Arguments Link_init {S} name node1 node2 length angleRad.
Arguments mkTrussModel {S} title links nodes material.
Arguments mkRow {S} row_name row_node1 row_node2 row_length row_angle.
Arguments mkReport {S} rep_title rep_staticFactor rep_uts rep_ys rep_E rep_rows.
Arguments mkView {S} te_Report le_LongLinkName le_LongLinkNode1 le_LongLinkNode2 le_LongLinkLength.
Arguments mkController {S} truss view stdout.
Arguments Material_init {S} uts ys modulus staticFactor.
Arguments unpack3_floats [S] float_of_str fields.
Arguments unpack2_floats [S] float_of_str fields.
Arguments float [S] float_of_str s.
Arguments format_2f [S] v.

(** * The vocabulary of the statements *)

(** ** Numbers and example data *)

(** The sum of squares under the root of [mag]. *)
Definition sumsq (v : Position Rscalar) : R :=
  (x v * x v + y v * y v + z v * z v)%R.

(** A key whose lexicographic order is the order [SFcompare] decides on
    the numbers that are not NaN. *)
Definition SFkey (f : spec_float) : option (Z * Z * Z) :=
  match f with
  | S754_nan => None
  | S754_infinity true => Some (-2, 0, 0)%Z
  | S754_infinity false => Some (2, 0, 0)%Z
  | S754_zero _ => Some (0, 0, 0)%Z
  | S754_finite true m e => Some (-1, - e, - Zpos m)%Z
  | S754_finite false m e => Some (1, e, Zpos m)%Z
  end.

Definition key_lt (a b : Z * Z * Z) : Prop :=
  let '(a1, a2, a3) := a in
  let '(b1, b2, b3) := b in
  (a1 < b1 \/ (a1 = b1 /\ (a2 < b2 \/ (a2 = b2 /\ a3 < b3))))%Z.

(** The value of a string of decimal digits. *)
Fixpoint digits_value (s : string) (acc : Z) : option Z :=
  match s with
  | EmptyString => Some acc
  | String c s' =>
      let n := nat_of_ascii c in
      if ((48 <=? n) && (n <=? 57))%nat
      then digits_value s' (10 * acc + Z.of_nat (n - 48))
      else None
  end.

(** [float(s)] on the strings of the examples: white space around one to
    fifteen decimal digits is that integer (exact in binary64); any other
    string is answered [None].  Python's [float] agrees on strings of
    digits and on strings that hold no number, and the examples use no
    other string. *)
Definition float_of_digits (S : Scalar) (s : string) : option S :=
  let t := strip s in
  if ((1 <=? String.length t) && (String.length t <=? 15))%nat
  then option_map (of_Z S) (digits_value t 0)
  else None.

(** The point of the plane z = 0 at distance [r] from the origin in the
    direction [theta]. *)
Definition polar (r theta : R) : Position Rscalar :=
  @mkPosition Rscalar (r * cos theta)%R (r * sin theta)%R 0%R.

(** Three links of lengths 5, 5 and 3 in a model over Python floats. *)
Definition truss_5_5_3 : TrussModel binary64 :=
  @mkTrussModel binary64 (Some "T")
    [@mkLink binary64 "" "A" "B" (Some 5%float) (Some 0%float);
     @mkLink binary64 "" "B" "C" (Some 5%float) (Some 1%float);
     @mkLink binary64 "" "A" "C" (Some 3%float) (Some 2%float)]
    []
    (@mkMaterial binary64 (Some 100%float) (Some 50%float) (Some 200000%float)
       (Some 2%float)).

Definition controller_5_5_3 : TrussController binary64 :=
  @mkController binary64 truss_5_5_3 (View_init binary64) [].

(** The controller after the line [static_factor, 2]. *)
Definition after_static_factor : TrussController Rscalar :=
  snd (process_line (float_of_digits Rscalar) "static_factor, 2"
         (TrussController_init Rscalar)).

(** Two nodes, a link between them and a link to a node that does not
    exist. *)
Definition nodes_A_B : list (Node Rscalar) :=
  [@mkNode Rscalar "A" (@mkPosition Rscalar 0%R 0%R 0%R);
   @mkNode Rscalar "B" (@mkPosition Rscalar 3%R 4%R 0%R)].

Definition links_AB_AZ : list (Link Rscalar) :=
  [@mkLink Rscalar "" "A" "B" None None; @mkLink Rscalar "" "A" "Z" None None].

(** ** Lines, models and reports *)

Section Controller.

Variable S : Scalar.
Variable L : Libm S.
Variable float_of_str : string -> option S.

(** The keyword and the fields of a line that is neither blank nor a
    comment: what [process_line] dispatches on. *)
Definition directive_of (raw : string) : option (string * list string) :=
  let line := strip raw in
  if startswith_hash line || String.eqb line "" then None
  else
    let parts := split_comma line in
    Some (lower (strip (hd "" parts)), parts).

(** The state after the two prints of a line whose directive raised
    [ValueError]. *)
Definition diagnosed (line : string) (s : TrussController S) : TrussController S :=
  mkController (truss s) (view s)
    ((stdout s ++ [ProcessingLine line]) ++ [DataFormattingError line]).

Definition not_a_number (f : string) : bool :=
  match float_of_str f with
  | Some _ => false
  | None => true
  end.

(** The fields a directive hands to [float].  [material] reads every field
    after the keyword, [static_factor] the first one, [node] every field
    after the name; [title] and [link] read none. *)
Definition numeric_fields (kw : string) (parts : list string) : list string :=
  if String.eqb kw "material" then skipn 1 parts
  else if String.eqb kw "static_factor" then firstn 1 (skipn 1 parts)
  else if String.eqb kw "node" then skipn 2 parts
  else [].

(** A line with a recognized directive one of whose numeric fields is not
    a number. *)
Definition numeric_field_fails (raw : string) : bool :=
  match directive_of raw with
  | Some (kw, parts) => existsb not_a_number (numeric_fields kw parts)
  | None => false
  end.

(** Two controller states with the same model and the same view. *)
Definition same_model (s1 s2 : TrussController S) : Prop :=
  truss s1 = truss s2 /\ view s1 = view s2.

(** From such states [c] gives the same result and again such states. *)
Definition stdout_blind {A : Type} (c : M S A) : Prop :=
  forall s1 s2, same_model s1 s2 ->
    fst (c s1) = fst (c s2) /\ same_model (snd (c s1)) (snd (c s2)).

(** The state with another model. *)
Definition with_truss (s : TrussController S) (t : TrussModel S) : TrussController S :=
  mkController t (view s) (stdout s).

(** What one line can do to the model. *)
Inductive line_effect (t : TrussModel S) : TrussModel S -> Prop :=
| effect_none : line_effect t t
| effect_title (ti : string) :
    line_effect t (mkTrussModel (Some ti) (links t) (nodes t) (material t))
| effect_material (u v w : S) :
    line_effect t
      (mkTrussModel (title t) (links t) (nodes t) (Material_init (Some u) (Some v) (Some w) None))
| effect_static_factor (f : S) :
    line_effect t
      (mkTrussModel (title t) (links t) (nodes t)
         (mkMaterial (uts (material t)) (ys (material t)) (E (material t)) (Some f)))
| effect_node (name : string) (vx vy : S) :
    hasNode_in (nodes t) name = false ->
    line_effect t
      (mkTrussModel (title t) (links t)
         (nodes t ++ [mkNode name (mkPosition vx vy (of_Z S 0))]) (material t))
| effect_link (n1 n2 : string) :
    line_effect t
      (mkTrussModel (title t) (links t ++ [mkLink "" n1 n2 None None]) (nodes t) (material t)).

(** A well-formed [node] line: the keyword, a name, and exactly two more
    fields, both numbers.  Its name and coordinates. *)
Definition node_line (raw : string) : option (string * S * S) :=
  match directive_of raw with
  | Some (kw, parts) =>
      if String.eqb kw "node" then
        match nth_error parts 1, unpack2_floats float_of_str (skipn 2 parts) with
        | Some p1, Ok (vx, vy) => Some (strip p1, vx, vy)
        | _, _ => None
        end
      else None
  | None => None
  end.

(** The node list after a line, from the node list before it. *)
Definition nodes_step (raw : string) (ns : list (Node S)) : list (Node S) :=
  match node_line raw with
  | Some (name, vx, vy) =>
      if hasNode_in ns name then ns
      else ns ++ [mkNode name (mkPosition vx vy (of_Z S 0))]
  | None => ns
  end.

Definition preserves {A : Type} (P : TrussController S -> Prop) (c : M S A) : Prop :=
  forall s, P s -> P (snd (c s)).

(** A recognized directive cut short of a field it indexes: [title],
    [static_factor] and [node] read [parts[1]], [link] reads [parts[3]].
    These are the lines on which the body of the [try] raises
    [IndexError], which no [except] clause catches. *)
Definition truncated (raw : string) : bool :=
  match directive_of raw with
  | Some (kw, parts) =>
      if String.eqb kw "title" || String.eqb kw "static_factor" || String.eqb kw "node"
      then (List.length parts <? 2)%nat
      else if String.eqb kw "link" then (List.length parts <? 4)%nat
      else false
  | None => false
  end.

(** The names of the well-formed [node] lines of a file, in order. *)
Fixpoint node_names (lines : list string) : list string :=
  match lines with
  | [] => []
  | raw :: lines' =>
      match node_line raw with
      | Some (n, _, _) => n :: node_names lines'
      | None => node_names lines'
      end
  end.

Definition name_known (names : list string) (n : string) : bool :=
  existsb (fun m => String.eqb m n) names.

Definition insert_new (names : list string) (n : string) : list string :=
  if name_known names n then names else names ++ [n].

(** The number of distinct names in a list: the length of the list without
    its repetitions. *)
Definition count_distinct (l : list string) : nat :=
  List.length (nodup string_dec l).

(** A well-formed [material] line: the keyword and exactly three fields,
    all numbers. *)
Definition material_line (raw : string) : option (S * S * S) :=
  match directive_of raw with
  | Some (kw, parts) =>
      if String.eqb kw "material" then
        match unpack3_floats float_of_str (skipn 1 parts) with
        | Ok t => Some t
        | Raise _ => None
        end
      else None
  | None => None
  end.

(** A well-formed [static_factor] line: the keyword and a first field that
    is a number. *)
Definition static_factor_line (raw : string) : option S :=
  match directive_of raw with
  | Some (kw, parts) =>
      if String.eqb kw "static_factor" then
        match nth_error parts 1 with
        | Some p => float_of_str p
        | None => None
        end
      else None
  | None => None
  end.

(** Every link of the model and every row of the report shown has the
    empty name. *)
Definition names_empty (s : TrussController S) : Prop :=
  Forall (fun l => Link_name l = "") (links (truss s)) /\
  (forall rep, te_Report (view s) = Some rep ->
               Forall (fun r => row_name r = "") (rep_rows rep)).

(** Both node names of the link are names of nodes of the model. *)
Definition resolves (ns : list (Node S)) (l : Link S) : bool :=
  hasNode_in ns (node1_Name l) && hasNode_in ns (node2_Name l).

(** The vector from the first node named [n1] to the first node named
    [n2], when both exist. *)
Definition displacement (ns : list (Node S)) (l : Link S) : option (Position S) :=
  match getNode_in ns (node1_Name l), getNode_in ns (node2_Name l) with
  | Some a, Some b => Some (Position_sub (Node_position b) (Node_position a))
  | _, _ => None
  end.

(** What the pass has done to one link: the names stay; a link that
    resolves has the magnitude and the angle of its displacement; another
    link keeps the length and the angle it had. *)
Definition derived (ns : list (Node S)) (l l' : Link S) : Prop :=
  Link_name l' = Link_name l /\
  node1_Name l' = node1_Name l /\
  node2_Name l' = node2_Name l /\
  match displacement ns l with
  | Some r =>
      exists len ang,
        mag r = Ok len /\ getAngleRad L r = Ok ang /\
        length l' = Some len /\ angleRad l' = Some ang
  | None => length l' = length l /\ angleRad l' = angleRad l
  end.

(** The laws of [>] that the selection of the longest link rests on.  [==]
    is not assumed reflexive: for a float, [c == c] says that [c] is not
    a NaN, and the third law is asked of such numbers only. *)
Record OrderLaws : Prop := {
  gtb_irrefl : forall a : S, gtb S a a = false;
  gtb_trans : forall a b c : S,
      gtb S a b = true -> gtb S b c = true -> gtb S a c = true;
  gtb_cotrans : forall a b c : S,
      eqb S c c = true -> gtb S a b = true -> gtb S c b = false -> gtb S a c = true
}.

(** The link [lg] at position [i] of [ls] has the length [len], no link of
    [ls] is longer, and it is longer than every link before it whose
    length is a number equal to itself. *)
Definition first_longest (ls : list (Link S)) (i : nat) (lg : Link S) (len : S) : Prop :=
  nth_error ls i = Some lg /\
  length lg = Some len /\
  (forall lj, In lj ls -> exists a, length lj = Some a /\ gtb S a len = false) /\
  (forall j lj a, (j < i)%nat -> nth_error ls j = Some lj -> length lj = Some a ->
                  eqb S a a = true -> gtb S len a = true).

(** The character occurs in the string. *)
Fixpoint has_char (c : ascii) (s : string) : bool :=
  match s with
  | EmptyString => false
  | String d s' => Ascii.eqb d c || has_char c s'
  end.

Definition first_char (s : string) : option ascii :=
  match s with
  | EmptyString => None
  | String c _ => Some c
  end.

Fixpoint last_char (s : string) : option ascii :=
  match s with
  | EmptyString => None
  | String c EmptyString => Some c
  | String _ s' => last_char s'
  end.

(** A blank line or a comment: what the loop skips before it prints. *)
Definition blank_or_comment (raw : string) : bool :=
  startswith_hash (strip raw) || String.eqb (strip raw) "".

Definition recognized (kw : string) : bool :=
  String.eqb kw "title" || String.eqb kw "material" || String.eqb kw "static_factor"
  || String.eqb kw "node" || String.eqb kw "link".

(** A line whose keyword is none of the five directives. *)
Definition unrecognized (raw : string) : bool :=
  match directive_of raw with
  | Some (kw, _) => negb (recognized kw)
  | None => false
  end.

(** The state after a line has printed itself and done nothing else. *)
Definition echoed (line : string) (s : TrussController S) : TrussController S :=
  mkController (truss s) (view s) (stdout s ++ [ProcessingLine line]).

(** A [link] line with its three fields: the two node names it stores. *)
Definition link_line (raw : string) : option (string * string) :=
  match directive_of raw with
  | Some (kw, parts) =>
      if String.eqb kw "link" then
        match nth_error parts 1, nth_error parts 2, nth_error parts 3 with
        | Some _, Some p2, Some p3 => Some (strip p2, strip p3)
        | _, _, _ => None
        end
      else None
  | None => None
  end.

(** The links that the [link] lines of a file append, in order. *)
Fixpoint link_lines (lines : list string) : list (Link S) :=
  match lines with
  | [] => []
  | raw :: lines' =>
      match link_line raw with
      | Some (n1, n2) => mkLink "" n1 n2 None None :: link_lines lines'
      | None => link_lines lines'
      end
  end.

(** Every node lies in the plane z = 0. *)
Definition planar (s : TrussController S) : Prop :=
  Forall (fun n => z (Node_position n) = of_Z S 0) (nodes (truss s)).

(** The four numbers of the material are set. *)
Definition material_complete (m : Material S) : bool :=
  match staticFactor m, uts m, ys m, E m with
  | Some _, Some _, Some _, Some _ => true
  | _, _, _, _ => false
  end.

(** The link has a length and an angle. *)
Definition link_derived (l : Link S) : bool :=
  match length l, angleRad l with
  | Some _, Some _ => true
  | _, _ => false
  end.

Definition link_fields (l : Link S) : string * string * string * option S * option S :=
  (Link_name l, node1_Name l, node2_Name l, length l, angleRad l).

Definition row_fields (r : Row S) : string * string * string * option S * option S :=
  (row_name r, row_node1 r, row_node2 r, Some (row_length r), Some (row_angle r)).

Definition link_ends (l : Link S) : string * string * string :=
  (Link_name l, node1_Name l, node2_Name l).

(** The segment between two nodes, as [drawLinks] hands it to the scene. *)
Definition segment_between (n1 n2 : Node S) : Segment S :=
  mkSegment (x (Node_position n1)) (y (Node_position n1))
            (x (Node_position n2)) (y (Node_position n2)).

(** * Properties *)

(** ** The line loop *)

Lemma process_line_skipped (raw : string) :
  directive_of raw = None ->
  process_line float_of_str raw = ret tt.
Proof.
  unfold directive_of, process_line.
  destruct (startswith_hash (strip raw) || String.eqb (strip raw) ""); [reflexivity | discriminate].
Qed.

Lemma process_line_dispatch (raw kw : string) (parts : list string) :
  directive_of raw = Some (kw, parts) ->
  process_line float_of_str raw =
  bind (print (ProcessingLine (strip raw)))
       (fun _ => try_except_ValueError (directive float_of_str kw parts)
                   (print (DataFormattingError (strip raw)))).
Proof.
  unfold directive_of, process_line.
  destruct (startswith_hash (strip raw) || String.eqb (strip raw) ""); [discriminate |].
  intros H. injection H as <- <-. reflexivity.
Qed.

Lemma unpack3_floats_fails (fields : list string) :
  existsb not_a_number fields = true ->
  unpack3_floats float_of_str fields = Raise ValueError.
Proof.
  intros H. unfold unpack3_floats.
  destruct fields as [|a [|b [|c [|d fields]]]]; try reflexivity.
  simpl in H. unfold not_a_number in H.
  destruct (float_of_str a); [|reflexivity].
  destruct (float_of_str b); [|reflexivity].
  destruct (float_of_str c); [|reflexivity].
  discriminate.
Qed.

Lemma unpack2_floats_fails (fields : list string) :
  existsb not_a_number fields = true ->
  unpack2_floats float_of_str fields = Raise ValueError.
Proof.
  intros H. unfold unpack2_floats.
  destruct fields as [|a [|b [|c fields]]]; try reflexivity.
  simpl in H. unfold not_a_number in H.
  destruct (float_of_str a); [|reflexivity].
  destruct (float_of_str b); [|reflexivity].
  discriminate.
Qed.

Lemma unpack2_floats_raises (fields : list string) (e : exn) :
  unpack2_floats float_of_str fields = Raise e -> e = ValueError.
Proof.
  unfold unpack2_floats.
  destruct fields as [|a [|b [|c fields]]]; try (intros H; now injection H).
  destruct (float_of_str a), (float_of_str b); intros H; try discriminate; now injection H.
Qed.

Lemma unpack3_floats_raises (fields : list string) (e : exn) :
  unpack3_floats float_of_str fields = Raise e -> e = ValueError.
Proof.
  unfold unpack3_floats.
  destruct fields as [|a [|b [|c [|d fields]]]]; try (intros H; now injection H).
  destruct (float_of_str a), (float_of_str b), (float_of_str c);
    intros H; try discriminate; now injection H.
Qed.

(** A directive with a numeric field that is not a number raises
    [ValueError] before it touches the state. *)
Lemma directive_numeric_failure (kw : string) (parts : list string) (s : TrussController S) :
  existsb not_a_number (numeric_fields kw parts) = true ->
  directive float_of_str kw parts s = (Raise ValueError, s).
Proof.
  unfold numeric_fields, directive. intros H.
  destruct (String.eqb kw "title") eqn:Et.
  { apply String.eqb_eq in Et. subst kw. discriminate H. }
  destruct (String.eqb kw "material") eqn:Em.
  { unfold bind, lift. now rewrite (unpack3_floats_fails _ H). }
  destruct (String.eqb kw "static_factor") eqn:Es.
  { destruct parts as [|p0 [|p1 parts]]; try discriminate H.
    simpl in H. unfold not_a_number in H.
    unfold bind, lift, index, float. simpl.
    destruct (float_of_str p1); [discriminate | reflexivity]. }
  destruct (String.eqb kw "node") eqn:En; [| discriminate H].
  destruct parts as [|p0 [|p1 parts]]; try discriminate H.
  unfold bind, lift, index. simpl.
  simpl in H. now rewrite (unpack2_floats_fails _ H).
Qed.

(** Such a line only prints: the model and the view stay as they were. *)
Lemma process_line_numeric_failure (raw : string) (s : TrussController S) :
  numeric_field_fails raw = true ->
  process_line float_of_str raw s = (Ok tt, diagnosed (strip raw) s).
Proof.
  unfold numeric_field_fails. intros H.
  destruct (directive_of raw) as [[kw parts]|] eqn:E; [| discriminate].
  rewrite (process_line_dispatch _ E).
  unfold bind, print, try_except_ValueError at 1.
  rewrite directive_numeric_failure by exact H.
  reflexivity.
Qed.

(** ** Computations that do not read what was printed *)

Lemma same_model_refl (s : TrussController S) : same_model s s.
Proof. split; reflexivity. Qed.

Lemma same_model_diagnosed (line : string) (s : TrussController S) :
  same_model (diagnosed line s) s.
Proof. split; reflexivity. Qed.

Lemma blind_ret {A : Type} (a : A) : stdout_blind (ret (S:=S) a).
Proof. intros s1 s2 H. split; [reflexivity | exact H]. Qed.

Lemma blind_lift {A : Type} (r : py A) : stdout_blind (lift (S:=S) r).
Proof. intros s1 s2 H. split; [reflexivity | exact H]. Qed.

Lemma blind_raise {A : Type} (e : exn) : stdout_blind (raise (S:=S) (A:=A) e).
Proof. apply blind_lift. Qed.

Lemma blind_get_truss : stdout_blind (get_truss (S:=S)).
Proof. intros s1 s2 [Ht Hv]. simpl. split; [now rewrite Ht | now split]. Qed.

Lemma blind_get_view : stdout_blind (get_view (S:=S)).
Proof. intros s1 s2 [Ht Hv]. simpl. split; [now rewrite Hv | now split]. Qed.

Lemma blind_set_truss (t : TrussModel S) : stdout_blind (set_truss t).
Proof. intros s1 s2 [Ht Hv]. simpl. split; [reflexivity | now split]. Qed.

Lemma blind_set_view (v : View S) : stdout_blind (set_view v).
Proof. intros s1 s2 [Ht Hv]. simpl. split; [reflexivity | now split]. Qed.

Lemma blind_print (o : Output) : stdout_blind (print (S:=S) o).
Proof. intros s1 s2 [Ht Hv]. simpl. split; [reflexivity | now split]. Qed.

Lemma blind_bind {A B : Type} (c : M S A) (k : A -> M S B) :
  stdout_blind c -> (forall a, stdout_blind (k a)) -> stdout_blind (bind c k).
Proof.
  intros Hc Hk s1 s2 H. unfold bind.
  destruct (Hc s1 s2 H) as [Hr Hs].
  destruct (c s1) as [r1 s1'], (c s2) as [r2 s2']. simpl in Hr, Hs. subst r2.
  destruct r1 as [a|e].
  - exact (Hk a s1' s2' Hs).
  - split; [reflexivity | exact Hs].
Qed.

Lemma blind_try (body handler : M S unit) :
  stdout_blind body -> stdout_blind handler ->
  stdout_blind (try_except_ValueError body handler).
Proof.
  intros Hb Hh s1 s2 H. unfold try_except_ValueError.
  destruct (Hb s1 s2 H) as [Hr Hs].
  destruct (body s1) as [r1 s1'], (body s2) as [r2 s2']. simpl in Hr, Hs. subst r2.
  destruct r1 as [a|[]]; try (split; [reflexivity | exact Hs]).
  exact (Hh s1' s2' Hs).
Qed.

Lemma blind_for_each {A : Type} (f : A -> M S unit) (l : list A) :
  (forall a, stdout_blind (f a)) -> stdout_blind (for_each f l).
Proof.
  intros Hf. induction l as [|a l IH]; simpl.
  - apply blind_ret.
  - apply blind_bind; [apply Hf | intros _; exact IH].
Qed.

Ltac blind :=
  repeat first
    [ apply blind_ret | apply blind_lift | apply blind_raise
    | apply blind_get_truss | apply blind_get_view
    | apply blind_set_truss | apply blind_set_view | apply blind_print
    | apply blind_bind; [| intros ?]
    | match goal with
      | |- stdout_blind (let '(_, _) := ?p in _) => destruct p
      | |- stdout_blind (if ?b then _ else _) => destruct b
      | |- stdout_blind (match ?o with Some _ => _ | None => _ end) => destruct o
      end ].

Lemma blind_directive (kw : string) (parts : list string) :
  stdout_blind (directive float_of_str kw parts).
Proof. unfold directive, hasNode, addNode, addLink. blind. Qed.

Lemma blind_process_line (raw : string) : stdout_blind (process_line float_of_str raw).
Proof.
  unfold process_line.
  destruct (startswith_hash (strip raw) || String.eqb (strip raw) "").
  - apply blind_ret.
  - apply blind_bind; [apply blind_print | intros _].
    apply blind_try; [apply blind_directive | apply blind_print].
Qed.

Lemma blind_calcLinkVals : stdout_blind (calcLinkVals L).
Proof. unfold calcLinkVals. blind. Qed.

Lemma blind_displayReport : stdout_blind (displayReport (S:=S)).
Proof. unfold displayReport, View_displayReport. blind. Qed.

Lemma blind_ImportFromFile (file : FileAccess) :
  stdout_blind (ImportFromFile L float_of_str file).
Proof.
  destruct file as [| | lines]; simpl; try apply blind_print.
  apply blind_bind; [apply blind_for_each, blind_process_line | intros _].
  apply blind_bind; [apply blind_calcLinkVals | intros _].
  apply blind_bind; [apply blind_displayReport | intros _].
  apply blind_print.
Qed.

(** The loop over a concatenation. *)
Lemma for_each_app {A : Type} (f : A -> M S unit) (l1 l2 : list A) (s : TrussController S) :
  for_each f (l1 ++ l2) s =
  match for_each f l1 s with
  | (Ok _, s1) => for_each f l2 s1
  | (Raise e, s1) => (Raise e, s1)
  end.
Proof.
  revert s. induction l1 as [|a l1 IH]; intros s; simpl.
  - reflexivity.
  - unfold bind. destruct (f a s) as [[[]|e] s']; [apply IH | reflexivity].
Qed.

(** ** Import: a line with a malformed number *)

Lemma ImportFromFile_app (l1 l2 : list string) (s : TrussController S) :
  ImportFromFile L float_of_str (FileLines (l1 ++ l2)) s =
  match for_each (process_line float_of_str) l1 s with
  | (Ok _, s1) => ImportFromFile L float_of_str (FileLines l2) s1
  | (Raise e, s1) => (Raise e, s1)
  end.
Proof.
  simpl. unfold bind at 1. rewrite for_each_app.
  destruct (for_each (process_line float_of_str) l1 s) as [[[]|e] s1]; reflexivity.
Qed.

Lemma ImportFromFile_cons_failure (bad : string) (post : list string) (s : TrussController S) :
  numeric_field_fails bad = true ->
  ImportFromFile L float_of_str (FileLines (bad :: post)) s =
  ImportFromFile L float_of_str (FileLines post) (diagnosed (strip bad) s).
Proof.
  intros H. simpl. unfold bind at 1 2.
  now rewrite (process_line_numeric_failure _ s H).
Qed.


(** ** What each directive does *)

Ltac run :=
  repeat progress
    unfold bind, lift, ret, raise, get_truss, set_truss, get_view, set_view, print,
      hasNode, addNode, addLink, try_except_ValueError, index, float.

Ltac keyword := unfold directive; simpl (String.eqb _ _); cbv iota.

(** A directive that returns: the line has printed itself and nothing else
    is caught. *)
Lemma process_line_ok (raw kw : string) (parts : list string) (s s' : TrussController S) :
  directive_of raw = Some (kw, parts) ->
  directive float_of_str kw parts
    (mkController (truss s) (view s) (stdout s ++ [ProcessingLine (strip raw)])) = (Ok tt, s') ->
  process_line float_of_str raw s = (Ok tt, s').
Proof.
  intros E H. rewrite (process_line_dispatch _ E).
  unfold bind, print, try_except_ValueError. now rewrite H.
Qed.

Lemma directive_title (parts : list string) (s : TrussController S) :
  directive float_of_str "title" parts s =
  match nth_error parts 1 with
  | Some p1 =>
      (Ok tt,
       with_truss s
         (mkTrussModel (Some (strip_quote (strip p1))) (links (truss s)) (nodes (truss s))
            (material (truss s))))
  | None => (Raise IndexError, s)
  end.
Proof. keyword. run. destruct (nth_error parts 1); reflexivity. Qed.

Lemma directive_material (parts : list string) (s : TrussController S) :
  directive float_of_str "material" parts s =
  match unpack3_floats float_of_str (skipn 1 parts) with
  | Ok (u, v, w) =>
      (Ok tt,
       with_truss s
         (mkTrussModel (title (truss s)) (links (truss s)) (nodes (truss s))
            (Material_init (Some u) (Some v) (Some w) None)))
  | Raise e => (Raise e, s)
  end.
Proof.
  keyword. run.
  destruct (unpack3_floats float_of_str (skipn 1 parts)) as [[[u v] w]|e]; reflexivity.
Qed.

Lemma directive_static_factor (parts : list string) (s : TrussController S) :
  directive float_of_str "static_factor" parts s =
  match nth_error parts 1 with
  | Some p =>
      match float_of_str p with
      | Some f =>
          (Ok tt,
           with_truss s
             (mkTrussModel (title (truss s)) (links (truss s)) (nodes (truss s))
                (mkMaterial (uts (material (truss s))) (ys (material (truss s)))
                   (E (material (truss s))) (Some f))))
      | None => (Raise ValueError, s)
      end
  | None => (Raise IndexError, s)
  end.
Proof.
  keyword. run.
  destruct (nth_error parts 1) as [p|]; [| reflexivity].
  destruct (float_of_str p); reflexivity.
Qed.

Lemma directive_node (parts : list string) (s : TrussController S) :
  directive float_of_str "node" parts s =
  match nth_error parts 1 with
  | Some p1 =>
      match unpack2_floats float_of_str (skipn 2 parts) with
      | Ok (vx, vy) =>
          if hasNode_in (nodes (truss s)) (strip p1) then (Ok tt, s)
          else
            (Ok tt,
             mkController
               (mkTrussModel (title (truss s)) (links (truss s))
                  (nodes (truss s) ++ [mkNode (strip p1) (mkPosition vx vy (of_Z S 0))])
                  (material (truss s)))
               (view s) ((stdout s ++ [NodeAdded (strip p1)]) ++ [AddedNode (strip p1)]))
      | Raise e => (Raise e, s)
      end
  | None => (Raise IndexError, s)
  end.
Proof.
  keyword. run.
  destruct (nth_error parts 1) as [p1|]; [| reflexivity].
  destruct (unpack2_floats float_of_str (skipn 2 parts)) as [[vx vy]|e]; [| reflexivity].
  destruct (hasNode_in (nodes (truss s)) (strip p1)); reflexivity.
Qed.

Lemma directive_link (parts : list string) (s : TrussController S) :
  directive float_of_str "link" parts s =
  match nth_error parts 1, nth_error parts 2, nth_error parts 3 with
  | Some p1, Some p2, Some p3 =>
      (Ok tt,
       mkController
         (mkTrussModel (title (truss s))
            (links (truss s) ++ [mkLink "" (strip p2) (strip p3) None None])
            (nodes (truss s)) (material (truss s)))
         (view s) ((stdout s ++ [LinkAdded ""]) ++ [AddedLink ""]))
  | _, _, _ => (Raise IndexError, s)
  end.
Proof.
  keyword. run.
  destruct (nth_error parts 1) as [p1|]; [| reflexivity].
  destruct (nth_error parts 2) as [p2|]; [| reflexivity].
  destruct (nth_error parts 3) as [p3|]; reflexivity.
Qed.

Lemma directive_unknown (kw : string) (parts : list string) (s : TrussController S) :
  kw <> "title" -> kw <> "material" -> kw <> "static_factor" ->
  kw <> "node" -> kw <> "link" ->
  directive float_of_str kw parts s = (Ok tt, s).
Proof.
  intros H1 H2 H3 H4 H5. unfold directive.
  apply String.eqb_neq in H1, H2, H3, H4, H5.
  now rewrite H1, H2, H3, H4, H5.
Qed.

(** The five directives, or none of them. *)
Lemma keyword_cases (kw : string) :
  kw = "title" \/ kw = "material" \/ kw = "static_factor" \/ kw = "node" \/ kw = "link" \/
  (kw <> "title" /\ kw <> "material" /\ kw <> "static_factor" /\ kw <> "node" /\ kw <> "link").
Proof.
  destruct (String.eqb_spec kw "title"); [now left |].
  destruct (String.eqb_spec kw "material"); [now right; left |].
  destruct (String.eqb_spec kw "static_factor"); [now right; right; left |].
  destruct (String.eqb_spec kw "node"); [now right; right; right; left |].
  destruct (String.eqb_spec kw "link"); [now right; right; right; right; left |].
  now repeat right.
Qed.

(** [process_line] in terms of what the directive does after the line has
    been printed. *)
Lemma process_line_run (raw kw : string) (parts : list string) (s : TrussController S) :
  directive_of raw = Some (kw, parts) ->
  process_line float_of_str raw s =
  match directive float_of_str kw parts
          (mkController (truss s) (view s) (stdout s ++ [ProcessingLine (strip raw)])) with
  | (Raise ValueError, s') =>
      (Ok tt, mkController (truss s') (view s') (stdout s' ++ [DataFormattingError (strip raw)]))
  | r => r
  end.
Proof.
  intros E. rewrite (process_line_dispatch _ E).
  unfold bind, print, try_except_ValueError. reflexivity.
Qed.

Tactic Notation "line_cases" constr(raw) constr(s) "as" ident(Hd) :=
  let kw := fresh "kw" in
  let parts := fresh "parts" in
  destruct (directive_of raw) as [[kw parts]|] eqn:Hd;
  [ rewrite (@process_line_run raw kw parts s Hd);
    destruct (keyword_cases kw) as [?|[?|[?|[?|[?|(?&?&?&?&?)]]]]]; try subst kw;
    [ rewrite directive_title | rewrite directive_material
    | rewrite directive_static_factor | rewrite directive_node
    | rewrite directive_link | rewrite directive_unknown by assumption ]
  | rewrite (@process_line_skipped raw Hd) ].

Lemma process_line_effect (raw : string) (s : TrussController S) :
  view (snd (process_line float_of_str raw s)) = view s /\
  line_effect (truss s) (truss (snd (process_line float_of_str raw s))).
Proof.
  line_cases raw s as Hd.
  - destruct (nth_error parts 1); simpl; split; trivial; constructor.
  - destruct (unpack3_floats float_of_str (skipn 1 parts)) as [[[u v] w]|[]];
      simpl; split; trivial; constructor.
  - destruct (nth_error parts 1) as [p|]; [destruct (float_of_str p) |];
      simpl; split; trivial; constructor.
  - destruct (nth_error parts 1) as [p1|]; [| simpl; split; trivial; constructor].
    destruct (unpack2_floats float_of_str (skipn 2 parts)) as [[vx vy]|[]];
      try (simpl; split; trivial; constructor).
    simpl (truss _).
    destruct (hasNode_in (nodes (truss s)) (strip p1)) eqn:Hn; simpl; split; trivial.
    + constructor.
    + exact (effect_node (truss s) (strip p1) vx vy Hn).
  - destruct (nth_error parts 1), (nth_error parts 2), (nth_error parts 3);
      simpl; split; trivial; constructor.
  - simpl; split; trivial; constructor.
  - simpl; split; trivial; constructor.
Qed.

Lemma process_line_nodes (raw : string) (s : TrussController S) :
  nodes (truss (snd (process_line float_of_str raw s))) = nodes_step raw (nodes (truss s)).
Proof.
  unfold nodes_step, node_line.
  line_cases raw s as Hd.
  - destruct (nth_error parts 1); reflexivity.
  - destruct (unpack3_floats float_of_str (skipn 1 parts)) as [[[u v] w]|[]]; reflexivity.
  - destruct (nth_error parts 1) as [p|]; [destruct (float_of_str p) |]; reflexivity.
  - simpl (String.eqb _ _). cbv iota.
    destruct (nth_error parts 1) as [p1|]; [| reflexivity].
    destruct (unpack2_floats float_of_str (skipn 2 parts)) as [[vx vy]|[]]; try reflexivity.
    simpl (truss _).
    destruct (hasNode_in (nodes (truss s)) (strip p1)); reflexivity.
  - destruct (nth_error parts 1), (nth_error parts 2), (nth_error parts 3); reflexivity.
  - apply String.eqb_neq in H2. now rewrite H2.
  - reflexivity.
Qed.

(** ** State predicates kept by a computation *)

Lemma pres_ret {A : Type} P (a : A) : preserves P (ret a).
Proof. intros s H. exact H. Qed.

Lemma pres_lift {A : Type} P (r : py A) : preserves P (lift r).
Proof. intros s H. exact H. Qed.

Lemma pres_get_truss P : preserves P (get_truss (S:=S)).
Proof. intros s H. exact H. Qed.

Lemma pres_get_view P : preserves P (get_view (S:=S)).
Proof. intros s H. exact H. Qed.

Lemma pres_bind {A B : Type} P (c : M S A) (k : A -> M S B) :
  preserves P c -> (forall a, preserves P (k a)) -> preserves P (bind c k).
Proof.
  intros Hc Hk s H. unfold bind.
  specialize (Hc s H). destruct (c s) as [[a|e] s']; simpl in *.
  - exact (Hk a s' Hc).
  - exact Hc.
Qed.

Lemma pres_for_each {A : Type} P (f : A -> M S unit) (l : list A) :
  (forall a, preserves P (f a)) -> preserves P (for_each f l).
Proof.
  intros Hf. induction l as [|a l IH]; simpl.
  - apply pres_ret.
  - apply pres_bind; [apply Hf | intros _; exact IH].
Qed.

(** [View_displayReport] writes the view only. *)
Lemma View_displayReport_truss (t t0 : TrussModel S) :
  preserves (fun s => truss s = t0) (View_displayReport t).
Proof.
  assert (Hset : forall v, preserves (fun s => truss s = t0) (set_view v))
    by (intros v s H; exact H).
  unfold View_displayReport.
  repeat first
    [ apply pres_lift | apply pres_get_view | apply pres_ret | apply Hset
    | apply pres_bind; [| intros ?]
    | match goal with
      | |- preserves _ (let '(_, _) := ?p in _) => destruct p
      | |- preserves _ (match ?o with Some _ => _ | None => _ end) => destruct o
      end ].
Qed.

Lemma displayReport_truss (s : TrussController S) :
  truss (snd (displayReport s)) = truss s.
Proof.
  unfold displayReport, bind, get_truss.
  now apply View_displayReport_truss.
Qed.

Lemma calcLinkVals_nodes (s : TrussController S) :
  nodes (truss (snd (calcLinkVals L s))) = nodes (truss s).
Proof.
  unfold calcLinkVals, bind, get_truss, set_truss, raise, lift, ret.
  destruct (calcLinkVals_in L (nodes (truss s)) (links (truss s))) as [ls [e|]]; reflexivity.
Qed.

(** After the line loop nothing touches the nodes. *)
Lemma ImportFromFile_nodes (lines : list string) (s : TrussController S) :
  nodes (truss (snd (ImportFromFile L float_of_str (FileLines lines) s))) =
  nodes (truss (snd (for_each (process_line float_of_str) lines s))).
Proof.
  simpl. unfold bind at 1.
  destruct (for_each (process_line float_of_str) lines s) as [[[]|e] s1]; [| reflexivity].
  simpl. unfold bind at 1.
  pose proof (calcLinkVals_nodes s1) as Hc.
  destruct (calcLinkVals L s1) as [[[]|e] s2]; simpl in Hc; [| exact Hc].
  unfold bind at 1.
  pose proof (displayReport_truss s2) as Hd.
  destruct (displayReport s2) as [[[]|e] s3]; simpl in Hd; simpl; now rewrite Hd.
Qed.

(** The nodes after a loop that ran to its end: one [nodes_step] per line. *)
Lemma for_each_nodes (lines : list string) (s : TrussController S) :
  fst (for_each (process_line float_of_str) lines s) = Ok tt ->
  nodes (truss (snd (for_each (process_line float_of_str) lines s))) =
  fold_left (fun ns raw => nodes_step raw ns) lines (nodes (truss s)).
Proof.
  revert s. induction lines as [|raw lines IH]; intros s H; simpl in *.
  - reflexivity.
  - unfold bind in *.
    pose proof (process_line_nodes raw s) as Hn.
    destruct (process_line float_of_str raw s) as [[[]|e] s1]; simpl in *.
    + rewrite <- Hn. now apply IH.
    + discriminate.
Qed.

(** ** Lines that end the loop *)

Lemma nth_error_1_short (A : Type) (l : list A) :
  (List.length l <? 2)%nat = false -> exists a, nth_error l 1 = Some a.
Proof.
  intros H. apply Nat.ltb_ge in H.
  destruct l as [|a0 [|a1 l]]; simpl in H; try lia. now exists a1.
Qed.

Lemma process_line_returns (raw : string) (s : TrussController S) :
  truncated raw = false ->
  fst (process_line float_of_str raw s) = Ok tt.
Proof.
  unfold truncated.
  line_cases raw s as Hd; simpl (String.eqb _ _); simpl (_ || _); cbv iota; intros Ht.
  - destruct (nth_error_1_short _ Ht) as [p1 ->]. reflexivity.
  - destruct (unpack3_floats float_of_str (skipn 1 parts)) as [[[u v] w]|e] eqn:Hu.
    + reflexivity.
    + now rewrite (unpack3_floats_raises _ Hu).
  - destruct (nth_error_1_short _ Ht) as [p1 ->].
    destruct (float_of_str p1); reflexivity.
  - destruct (nth_error_1_short _ Ht) as [p1 ->].
    destruct (unpack2_floats float_of_str (skipn 2 parts)) as [[vx vy]|e] eqn:Hu.
    + simpl (truss _). destruct (hasNode_in (nodes (truss s)) (strip p1)); reflexivity.
    + now rewrite (unpack2_floats_raises _ Hu).
  - apply Nat.ltb_ge in Ht.
    destruct parts as [|p0 [|p1 [|p2 [|p3 parts]]]]; simpl in Ht; try lia. reflexivity.
  - reflexivity.
  - reflexivity.
Qed.

(** A file without such lines is processed to its last line. *)
Lemma for_each_returns (lines : list string) (s : TrussController S) :
  forallb (fun raw => negb (truncated raw)) lines = true ->
  fst (for_each (process_line float_of_str) lines s) = Ok tt.
Proof.
  revert s. induction lines as [|raw lines IH]; intros s H; simpl in *.
  - reflexivity.
  - apply andb_true_iff in H. destruct H as [Hr Hl].
    apply negb_true_iff in Hr.
    unfold bind. pose proof (process_line_returns raw s Hr) as Hp.
    destruct (process_line float_of_str raw s) as [[[]|e] s1]; simpl in Hp.
    + now apply IH.
    + discriminate.
Qed.

(** ** Node names *)

Lemma hasNode_in_names (ns : list (Node S)) (n : string) :
  hasNode_in ns n = name_known (map (@Node_name S) ns) n.
Proof.
  unfold name_known. induction ns as [|a ns IH]; simpl.
  - reflexivity.
  - rewrite IH. now destruct (String.eqb (Node_name a) n).
Qed.

Lemma name_known_In (names : list string) (n : string) :
  name_known names n = true <-> In n names.
Proof.
  unfold name_known. rewrite existsb_exists. split.
  - intros (m & Hm & He). apply String.eqb_eq in He. now subst.
  - intros H. exists n. split; [exact H | apply String.eqb_refl].
Qed.

Lemma nodes_step_names (raw : string) (ns : list (Node S)) :
  map (@Node_name S) (nodes_step raw ns) =
  match node_line raw with
  | Some (n, _, _) => insert_new (map (@Node_name S) ns) n
  | None => map (@Node_name S) ns
  end.
Proof.
  unfold nodes_step, insert_new.
  destruct (node_line raw) as [[[n vx] vy]|]; [| reflexivity].
  rewrite hasNode_in_names.
  destruct (name_known (map (@Node_name S) ns) n); [reflexivity |].
  now rewrite map_app.
Qed.

Lemma fold_nodes_step_names (lines : list string) (ns : list (Node S)) :
  map (@Node_name S) (fold_left (fun ns raw => nodes_step raw ns) lines ns) =
  fold_left insert_new (node_names lines) (map (@Node_name S) ns).
Proof.
  revert ns. induction lines as [|raw lines IH]; intros ns; simpl.
  - reflexivity.
  - rewrite IH, nodes_step_names.
    destruct (node_line raw) as [[[n vx] vy]|]; reflexivity.
Qed.

Lemma insert_new_NoDup (names : list string) (n : string) :
  NoDup names -> NoDup (insert_new names n).
Proof.
  intros H. unfold insert_new.
  destruct (name_known names n) eqn:Hk; [exact H |].
  apply NoDup_app; [exact H | repeat constructor; intros [] | ].
  intros a Ha [<-|[]].
  apply name_known_In in Ha. congruence.
Qed.

Lemma insert_new_In (names : list string) (n x : string) :
  In x (insert_new names n) <-> In x names \/ x = n.
Proof.
  unfold insert_new. destruct (name_known names n) eqn:Hk.
  - apply name_known_In in Hk. split; [now left | intros [H| ->]; assumption].
  - rewrite in_app_iff. simpl. intuition.
Qed.

Lemma fold_insert_new (l names : list string) :
  NoDup names ->
  NoDup (fold_left insert_new l names) /\
  (forall x, In x (fold_left insert_new l names) <-> In x names \/ In x l).
Proof.
  revert names. induction l as [|n l IH]; intros names H; simpl.
  - split; [exact H | intros x; tauto].
  - destruct (IH (insert_new names n) (insert_new_NoDup n H)) as [Hnd Hin].
    split; [exact Hnd |].
    intros x. rewrite Hin, insert_new_In. intuition.
Qed.

Lemma fold_insert_new_length (l : list string) :
  List.length (fold_left insert_new l []) = count_distinct l.
Proof.
  destruct (@fold_insert_new l [] (NoDup_nil _)) as [Hnd Hin].
  unfold count_distinct. apply Nat.le_antisymm.
  - apply NoDup_incl_length; [exact Hnd |].
    intros x Hx. apply nodup_In. apply Hin in Hx. destruct Hx as [[]|Hx]; exact Hx.
  - apply NoDup_incl_length; [apply NoDup_nodup |].
    intros x Hx. apply nodup_In in Hx. apply Hin. now right.
Qed.


(** ** The material *)

(** C5.  A well-formed [material] line puts in the model a Material made
    of the three numbers of the line and nothing else: its static factor
    is unset, whatever the model's material was before the line.  A
    well-formed [static_factor] line changes the static factor of the
    model's material and leaves its three other fields.  Neither line
    raises or touches the title, the links, the nodes or the view. *)
Theorem material_replaced_static_factor_set (raw : string) (s : TrussController S) :
  (forall u v w : S,
      material_line raw = Some (u, v, w) ->
      process_line float_of_str raw s =
      (Ok tt,
       mkController
         (mkTrussModel (title (truss s)) (links (truss s)) (nodes (truss s))
            (mkMaterial (Some u) (Some v) (Some w) None))
         (view s) (stdout s ++ [ProcessingLine (strip raw)]))) /\
  (forall f : S,
      static_factor_line raw = Some f ->
      process_line float_of_str raw s =
      (Ok tt,
       mkController
         (mkTrussModel (title (truss s)) (links (truss s)) (nodes (truss s))
            (mkMaterial (uts (material (truss s))) (ys (material (truss s)))
               (E (material (truss s))) (Some f)))
         (view s) (stdout s ++ [ProcessingLine (strip raw)]))).
Proof.
  unfold material_line, static_factor_line.
  split.
  - intros u v w H.
    destruct (directive_of raw) as [[kw parts]|] eqn:Hd; [| discriminate].
    destruct (String.eqb_spec kw "material") as [->|]; [| discriminate].
    rewrite (@process_line_run raw "material" parts s Hd), directive_material.
    destruct (unpack3_floats float_of_str (skipn 1 parts)) as [t|e]; [| discriminate].
    injection H as ->. reflexivity.
  - intros f H.
    destruct (directive_of raw) as [[kw parts]|] eqn:Hd; [| discriminate].
    destruct (String.eqb_spec kw "static_factor") as [->|]; [| discriminate].
    rewrite (@process_line_run raw "static_factor" parts s Hd), directive_static_factor.
    destruct (nth_error parts 1) as [p|]; [| discriminate].
    rewrite H. reflexivity.
Qed.

(** ** The report *)

Lemma report_loop_names (ls : list (Link S)) (lg lg' : option (Link S)) (rows rows' : list (Row S)) :
  report_loop ls lg rows = Ok (lg', rows') ->
  map (@row_name S) rows' = (map (@row_name S) rows ++ map (@Link_name S) ls)%list.
Proof.
  revert lg rows. induction ls as [|l ls IH]; intros lg rows H; simpl in H.
  - injection H as _ <-. now rewrite app_nil_r.
  - unfold py_bind in H.
    destruct (match lg with
              | Some lg0 =>
                  match length l, length lg0 with
                  | Some a, Some b => Ok (if gtb S a b then Some l else Some lg0)
                  | _, _ => Raise TypeError
                  end
              | None => Ok (Some l)
              end) as [lg1|e]; [| discriminate].
    destruct (format_2f (length l)) as [len|e]; [| discriminate].
    destruct (format_2f (angleRad l)) as [ang|e]; [| discriminate].
    rewrite (IH _ _ H), map_app. simpl. now rewrite <- app_assoc.
Qed.

(** [View_displayReport], case by case. *)
Lemma View_displayReport_run (t : TrussModel S) (s : TrussController S) :
  View_displayReport t s =
  match format_2f (staticFactor (material t)), format_2f (uts (material t)),
        format_2f (ys (material t)), format_2f (E (material t)) with
  | Ok sf, Ok u, Ok y, Ok e =>
      match report_loop (links t) None [] with
      | Ok (longest, rows) =>
          let rep := Some (mkReport (title t) sf u y e rows) in
          let v := view s in
          match longest with
          | Some lg =>
              match length lg with
              | Some len =>
                  (Ok tt,
                   mkController (truss s)
                     (mkView rep (Some (Link_name lg)) (Some (node1_Name lg))
                        (Some (node2_Name lg)) (Some len))
                     (stdout s))
              | None =>
                  (Raise TypeError,
                   mkController (truss s)
                     (mkView rep (Some (Link_name lg)) (le_LongLinkNode1 v)
                        (le_LongLinkNode2 v) (le_LongLinkLength v))
                     (stdout s))
              end
          | None =>
              (Raise AttributeError,
               mkController (truss s)
                 (mkView rep (le_LongLinkName v) (le_LongLinkNode1 v)
                    (le_LongLinkNode2 v) (le_LongLinkLength v))
                 (stdout s))
          end
      | Raise ex => (Raise ex, s)
      end
  | Raise ex, _, _, _ => (Raise ex, s)
  | Ok _, Raise ex, _, _ => (Raise ex, s)
  | Ok _, Ok _, Raise ex, _ => (Raise ex, s)
  | Ok _, Ok _, Ok _, Raise ex => (Raise ex, s)
  end.
Proof.
  unfold View_displayReport. run.
  destruct (format_2f (staticFactor (material t))); [| reflexivity].
  destruct (format_2f (uts (material t))); [| reflexivity].
  destruct (format_2f (ys (material t))); [| reflexivity].
  destruct (format_2f (E (material t))); [| reflexivity].
  destruct (report_loop (links t) None []) as [[[lg|] rows]|ex]; try reflexivity.
  simpl. destruct (length lg); reflexivity.
Qed.

(** ** Link names *)

Lemma calcLinkVals_in_names (ns : list (Node S)) (ls : list (Link S)) :
  map (@Link_name S) (fst (calcLinkVals_in L ns ls)) = map (@Link_name S) ls.
Proof.
  induction ls as [|l ls IH]; simpl.
  - reflexivity.
  - destruct (if hasNode_in ns (node1_Name l) then getNode_in ns (node1_Name l) else None) as [a|];
      [destruct (if hasNode_in ns (node2_Name l) then getNode_in ns (node2_Name l) else None) as [b|] |].
    + destruct (mag (Position_sub (Node_position b) (Node_position a))) as [len|e];
        [| reflexivity].
      destruct (getAngleRad L (Position_sub (Node_position b) (Node_position a))) as [ang|e];
        [| reflexivity].
      destruct (calcLinkVals_in L ns ls) as [rest e]. simpl in *. now rewrite IH.
    + destruct (calcLinkVals_in L ns ls) as [rest e]. simpl in *. now rewrite IH.
    + destruct (calcLinkVals_in L ns ls) as [rest e]. simpl in *. now rewrite IH.
Qed.

Lemma names_empty_init : names_empty (TrussController_init S).
Proof. split; [constructor | intros rep H; discriminate]. Qed.

Lemma names_empty_process_line (raw : string) :
  preserves names_empty (process_line float_of_str raw).
Proof.
  intros s [Hl Hr].
  destruct (process_line_effect raw s) as [Hv He].
  split.
  - inversion He as [Ht|ti Ht|u v w Ht|f Ht|n vx vy Hn Ht|n1 n2 Ht]; try exact Hl;
      try (rewrite <- Ht in *; exact Hl).
    apply Forall_app. split; [exact Hl | now repeat constructor].
  - now rewrite Hv.
Qed.

Lemma names_empty_calcLinkVals : preserves names_empty (calcLinkVals L).
Proof.
  intros s [Hl Hr].
  pose proof (calcLinkVals_in_names (nodes (truss s)) (links (truss s))) as Hn.
  unfold calcLinkVals, bind, get_truss, set_truss, raise, lift, ret.
  destruct (calcLinkVals_in L (nodes (truss s)) (links (truss s))) as [ls e].
  simpl in Hn.
  assert (Hls : Forall (fun l : Link S => Link_name l = "") ls).
  { apply Forall_map with (f := @Link_name S) (P := fun n => n = "").
    rewrite Hn. now apply Forall_map. }
  destruct e; split; simpl; assumption.
Qed.

Lemma names_empty_displayReport : preserves names_empty (displayReport (S:=S)).
Proof.
  intros s [Hl Hr].
  unfold displayReport, bind, get_truss. rewrite View_displayReport_run.
  destruct (format_2f (staticFactor (material (truss s)))); [| now split].
  destruct (format_2f (uts (material (truss s)))); [| now split].
  destruct (format_2f (ys (material (truss s)))); [| now split].
  destruct (format_2f (E (material (truss s)))); [| now split].
  destruct (report_loop (links (truss s)) None []) as [[longest rows]|ex] eqn:Hloop;
    [| now split].
  assert (Hrows : Forall (fun r : Row S => row_name r = "") rows).
  { apply Forall_map with (f := @row_name S) (P := fun n => n = "").
    rewrite (report_loop_names _ _ _ Hloop). simpl. now apply Forall_map. }
  destruct longest as [lg|]; [destruct (length lg) |];
    (split; [exact Hl | simpl; intros rep H; injection H as <-; exact Hrows]).
Qed.

Lemma names_empty_ImportFromFile (file : FileAccess) :
  preserves names_empty (ImportFromFile L float_of_str file).
Proof.
  assert (Hp : forall o, preserves names_empty (print (S:=S) o))
    by (intros o s H; exact H).
  destruct file as [| | lines]; simpl; try apply Hp.
  apply pres_bind; [apply pres_for_each, names_empty_process_line | intros _].
  apply pres_bind; [apply names_empty_calcLinkVals | intros _].
  apply pres_bind; [apply names_empty_displayReport | intros _].
  apply Hp.
Qed.

(** C10.  [Link.__init__] stores the two node names and ignores its other
    arguments: the name of the new Link is the empty string, and its length
    and angle are unset.  A [link] line with its three fields appends such a
    link, whatever the name field is.  After any import from the
    controller's initial state every link of the model has the empty name,
    and so has every row of the report when one was written. *)
Theorem Link_name_is_empty :
  (forall (name node1 node2 : string) (len ang : option S),
      Link_init name node1 node2 len ang = mkLink "" node1 node2 None None) /\
  (forall (raw : string) (parts : list string) (p1 p2 p3 : string) (s : TrussController S),
      directive_of raw = Some ("link", parts) ->
      nth_error parts 1 = Some p1 ->
      nth_error parts 2 = Some p2 ->
      nth_error parts 3 = Some p3 ->
      fst (process_line float_of_str raw s) = Ok tt /\
      links (truss (snd (process_line float_of_str raw s))) =
      (links (truss s) ++ [mkLink "" (strip p2) (strip p3) None None])%list) /\
  (forall file : FileAccess,
      let s' := snd (ImportFromFile L float_of_str file (TrussController_init S)) in
      Forall (fun l => Link_name l = "") (links (truss s')) /\
      (forall rep, te_Report (view s') = Some rep ->
                   Forall (fun r => row_name r = "") (rep_rows rep))).
Proof.
  split; [reflexivity |].
  split.
  - intros raw parts p1 p2 p3 s Hd H1 H2 H3.
    rewrite (@process_line_run raw "link" parts s Hd), directive_link, H1, H2, H3.
    split; reflexivity.
  - intros file.
    exact (@names_empty_ImportFromFile file (TrussController_init S) names_empty_init).
Qed.

(** ** The derivation pass *)

Lemma hasNode_getNode (ns : list (Node S)) (n : string) :
  (if hasNode_in ns n then getNode_in ns n else None) = getNode_in ns n.
Proof.
  induction ns as [|a ns IH]; simpl; [reflexivity |].
  destruct (String.eqb (Node_name a) n); [reflexivity | exact IH].
Qed.

Lemma hasNode_in_getNode_in (ns : list (Node S)) (n : string) :
  hasNode_in ns n = match getNode_in ns n with Some _ => true | None => false end.
Proof.
  induction ns as [|a ns IH]; simpl; [reflexivity |].
  destruct (String.eqb (Node_name a) n); [reflexivity | exact IH].
Qed.

Lemma displacement_resolves (ns : list (Node S)) (l : Link S) :
  resolves ns l = match displacement ns l with Some _ => true | None => false end.
Proof.
  unfold resolves, displacement. rewrite !hasNode_in_getNode_in.
  destruct (getNode_in ns (node1_Name l)), (getNode_in ns (node2_Name l)); reflexivity.
Qed.

Lemma calcLinkVals_in_cons (ns : list (Node S)) (l : Link S) (ls : list (Link S)) :
  calcLinkVals_in L ns (l :: ls) =
  match displacement ns l with
  | Some r =>
      match mag r with
      | Raise e => (l :: ls, Some e)
      | Ok len =>
          match getAngleRad L r with
          | Raise e =>
              (mkLink (Link_name l) (node1_Name l) (node2_Name l) (Some len) (angleRad l) :: ls,
               Some e)
          | Ok ang =>
              (mkLink (Link_name l) (node1_Name l) (node2_Name l) (Some len) (Some ang)
                 :: fst (calcLinkVals_in L ns ls),
               snd (calcLinkVals_in L ns ls))
          end
      end
  | None => (l :: fst (calcLinkVals_in L ns ls), snd (calcLinkVals_in L ns ls))
  end.
Proof.
  unfold displacement. simpl. rewrite !hasNode_getNode.
  destruct (getNode_in ns (node1_Name l)) as [a|];
    [destruct (getNode_in ns (node2_Name l)) as [b|] |].
  - destruct (mag (Position_sub (Node_position b) (Node_position a))); [| reflexivity].
    destruct (getAngleRad L (Position_sub (Node_position b) (Node_position a))); [| reflexivity].
    destruct (calcLinkVals_in L ns ls); reflexivity.
  - destruct (calcLinkVals_in L ns ls); reflexivity.
  - destruct (calcLinkVals_in L ns ls); reflexivity.
Qed.

Lemma calcLinkVals_in_completes (ns : list (Node S)) (ls : list (Link S)) :
  snd (calcLinkVals_in L ns ls) = None ->
  Forall2 (derived ns) ls (fst (calcLinkVals_in L ns ls)).
Proof.
  induction ls as [|l ls IH]; [intros _; constructor |].
  rewrite calcLinkVals_in_cons.
  destruct (displacement ns l) as [r|] eqn:Hr.
  - destruct (mag r) as [len|e] eqn:Hm; [| discriminate].
    destruct (getAngleRad L r) as [ang|e] eqn:Ha; [| discriminate].
    simpl. intros H. constructor; [| now apply IH].
    unfold derived. rewrite Hr. simpl.
    repeat split; trivial. exists len, ang. now repeat split.
  - simpl. intros H. constructor; [| now apply IH].
    unfold derived. rewrite Hr. now repeat split.
Qed.

Lemma calcLinkVals_in_raises (ns : list (Node S)) (ls : list (Link S)) (ex : exn) :
  snd (calcLinkVals_in L ns ls) = Some ex ->
  exists l r, In l ls /\ displacement ns l = Some r /\
              (mag r = Raise ex \/ getAngleRad L r = Raise ex).
Proof.
  induction ls as [|l ls IH]; [discriminate |].
  rewrite calcLinkVals_in_cons.
  destruct (displacement ns l) as [r|] eqn:Hr.
  - destruct (mag r) as [len|e] eqn:Hm.
    + destruct (getAngleRad L r) as [ang|e] eqn:Ha; simpl; intros H.
      * destruct (IH H) as (l0 & r0 & Hin & H0). exists l0, r0. split; [now right | exact H0].
      * injection H as <-. exists l, r. split; [now left |]. split; [exact Hr | now right].
    + simpl. intros H. injection H as <-. exists l, r.
      split; [now left |]. split; [exact Hr | now left].
  - simpl. intros H.
    destruct (IH H) as (l0 & r0 & Hin & H0). exists l0, r0. split; [now right | exact H0].
Qed.

(** The method on the controller's state. *)
Lemma calcLinkVals_run (s : TrussController S) :
  calcLinkVals L s =
  (match snd (calcLinkVals_in L (nodes (truss s)) (links (truss s))) with
   | Some ex => Raise ex
   | None => Ok tt
   end,
   mkController
     (mkTrussModel (title (truss s))
        (fst (calcLinkVals_in L (nodes (truss s)) (links (truss s))))
        (nodes (truss s)) (material (truss s)))
     (view s) (stdout s)).
Proof.
  unfold calcLinkVals, bind, get_truss, set_truss, raise, lift, ret.
  destruct (calcLinkVals_in L (nodes (truss s)) (links (truss s))) as [ls [ex|]]; reflexivity.
Qed.

(** C4, as amended.  A [link] line with its three fields appends a link
    whatever the nodes of the model are: no name is looked up.  The
    derivation pass stops only when the magnitude or the angle of a link
    that resolves raises; a link that does not resolve never stops it.
    When the pass runs to its end, every link that resolves has the
    magnitude and the angle of its displacement, and every other link has
    the length and the angle it had before: a link whose length was unset
    has a length after the pass exactly when both its names resolve. *)
Theorem links_appended_then_derived :
  (forall (raw : string) (parts : list string) (p1 p2 p3 : string) (s : TrussController S),
      directive_of raw = Some ("link", parts) ->
      nth_error parts 1 = Some p1 ->
      nth_error parts 2 = Some p2 ->
      nth_error parts 3 = Some p3 ->
      process_line float_of_str raw s =
      (Ok tt,
       mkController
         (mkTrussModel (title (truss s))
            (links (truss s) ++ [Link_init p1 (strip p2) (strip p3) None None])
            (nodes (truss s)) (material (truss s)))
         (view s)
         (((stdout s ++ [ProcessingLine (strip raw)]) ++ [LinkAdded ""]) ++ [AddedLink ""]))) /\
  (forall (ns : list (Node S)) (ls : list (Link S)),
      (forall ex, snd (calcLinkVals_in L ns ls) = Some ex ->
         exists l r, In l ls /\ resolves ns l = true /\ displacement ns l = Some r /\
                     (mag r = Raise ex \/ getAngleRad L r = Raise ex)) /\
      (snd (calcLinkVals_in L ns ls) = None ->
         Forall2 (derived ns) ls (fst (calcLinkVals_in L ns ls)) /\
         Forall2 (fun l l' => length l = None ->
                              (resolves ns l = true <-> length l' <> None))
                 ls (fst (calcLinkVals_in L ns ls)))).
Proof.
  split.
  - intros raw parts p1 p2 p3 s Hd H1 H2 H3.
    rewrite (@process_line_run raw "link" parts s Hd), directive_link, H1, H2, H3.
    reflexivity.
  - intros ns ls. split.
    + intros ex H.
      destruct (calcLinkVals_in_raises ns ls H) as (l & r & Hin & Hr & Hex).
      exists l, r. repeat split; trivial.
      rewrite displacement_resolves. now rewrite Hr.
    + intros H. pose proof (calcLinkVals_in_completes ns ls H) as Hd.
      split; [exact Hd |].
      eapply Forall2_impl; [| exact Hd].
      intros l l' (_ & _ & _ & Hl) Hnone.
      rewrite displacement_resolves.
      destruct (displacement ns l) as [r|].
      * destruct Hl as (len & ang & _ & _ & Hlen & _). rewrite Hlen.
        split; [discriminate | reflexivity].
      * destruct Hl as [Hlen _]. rewrite Hlen, Hnone.
        split; [discriminate | intros Hc; now elim Hc].
Qed.

(** ** The longest link *)

Lemma format_2f_Ok (v : option S) (a : S) : format_2f v = Ok a -> v = Some a.
Proof. destruct v; simpl; intros H; now inversion H. Qed.

Lemma report_loop_cons (l : Link S) (ls : list (Link S)) (longest : option (Link S))
      (rows : list (Row S)) (r : option (Link S) * list (Row S)) :
  report_loop (l :: ls) longest rows = Ok r ->
  exists a ang,
    length l = Some a /\ angleRad l = Some ang /\
    report_loop ls
      (match longest with
       | None => Some l
       | Some lg =>
           match length lg with
           | Some b => if gtb S a b then Some l else Some lg
           | None => None
           end
       end)
      (rows ++ [mkRow (Link_name l) (node1_Name l) (node2_Name l) a ang]) = Ok r /\
    match longest with
    | Some lg => exists b, length lg = Some b
    | None => True
    end.
Proof.
  simpl. unfold py_bind.
  destruct (length l) as [a|] eqn:Hl.
  - destruct longest as [lg|].
    + destruct (length lg) as [b|] eqn:Hb; [| discriminate].
      simpl. destruct (angleRad l) as [ang|]; [| discriminate].
      simpl. intros H. exists a, ang. repeat split; trivial. now exists b.
    + simpl. destruct (angleRad l) as [ang|]; [| discriminate].
      simpl. intros H. exists a, ang. now repeat split.
  - destruct longest as [lg|]; [destruct (length lg) |]; discriminate.
Qed.

Lemma report_loop_longest (laws : OrderLaws) (ls pre : list (Link S))
      (longest longest' : option (Link S)) (rows rows' : list (Row S)) :
  report_loop ls longest rows = Ok (longest', rows') ->
  match longest with
  | None => pre = []
  | Some lg => exists i len, first_longest pre i lg len
  end ->
  match longest' with
  | None => ls = [] /\ pre = []
  | Some lg => exists i len, first_longest (pre ++ ls) i lg len
  end.
Proof.
  revert pre longest rows.
  induction ls as [|l ls IH]; intros pre longest rows Hloop Hpre.
  - simpl in Hloop. injection Hloop as <- _. rewrite app_nil_r.
    destruct longest; [exact Hpre | now split].
  - destruct (report_loop_cons _ _ _ _ Hloop) as (a & ang & Hl & _ & Hrest & Hlg).
    replace (pre ++ l :: ls)%list with ((pre ++ [l]) ++ ls)%list
      by (now rewrite <- app_assoc).
    assert (Hstep : exists lg1,
               match longest with
               | None => Some l
               | Some lg =>
                   match length lg with
                   | Some b => if gtb S a b then Some l else Some lg
                   | None => None
                   end
               end = Some lg1 /\
               exists i len, first_longest (pre ++ [l]) i lg1 len).
    { destruct longest as [lg|].
      - destruct Hlg as [b Hb]. rewrite Hb.
        destruct Hpre as (i & len & Hi & Hlen & Hmax & Hfirst).
        assert (len = b) by congruence. subst len.
        assert (Hil : (i < List.length pre)%nat)
          by (apply nth_error_Some; congruence).
        destruct (gtb S a b) eqn:Hab.
        + exists l. split; [reflexivity |].
          exists (List.length pre), a. repeat split.
          * rewrite nth_error_app2 by lia. now rewrite Nat.sub_diag.
          * exact Hl.
          * intros lj Hin. apply in_app_or in Hin. destruct Hin as [Hin|[<-|[]]].
            -- destruct (Hmax lj Hin) as (aj & Haj & Hle). exists aj. split; [exact Haj |].
               destruct (gtb S aj a) eqn:Hc; [| reflexivity].
               rewrite (gtb_trans laws _ _ _ Hc Hab) in Hle. discriminate.
            -- exists a. split; [exact Hl | apply (gtb_irrefl laws)].
          * intros j lj aj Hj Hnth Haj Hnan.
            rewrite nth_error_app1 in Hnth by exact Hj.
            destruct (Hmax lj (nth_error_In _ _ Hnth)) as (aj' & Haj' & Hle).
            assert (aj' = aj) by congruence. subst aj'.
            exact (gtb_cotrans laws _ _ _ Hnan Hab Hle).
        + exists lg. split; [reflexivity |].
          exists i, b. repeat split.
          * now rewrite nth_error_app1.
          * exact Hlen.
          * intros lj Hin. apply in_app_or in Hin. destruct Hin as [Hin|[<-|[]]].
            -- exact (Hmax lj Hin).
            -- exists a. now split.
          * intros j lj aj Hj Hnth Haj Hnan.
            rewrite nth_error_app1 in Hnth by lia.
            exact (Hfirst j lj aj Hj Hnth Haj Hnan).
      - subst pre. exists l. split; [reflexivity |].
        exists 0%nat, a. repeat split.
        + exact Hl.
        + intros lj [<-|[]]. exists a. split; [exact Hl | apply (gtb_irrefl laws)].
        + intros j lj aj Hj. lia. }
    destruct Hstep as (lg1 & Heq & Hfl). rewrite Heq in Hrest.
    pose proof (IH (pre ++ [l])%list (Some lg1) _ Hrest Hfl) as Hend.
    destruct longest'; [exact Hend |].
    destruct Hend as [_ Hnil]. destruct pre; discriminate.
Qed.

(** With a material whose four numbers are set and no link at all,
    [displayReport] writes the report text and then reads [longest.name]
    with [longest] still [None]: it raises [AttributeError]. *)
Lemma displayReport_no_link
        (ti : option string) (ns : list (Node S)) (u y e sf : S) (v : View S)
        (out : list Output) :
  displayReport
    (mkController (mkTrussModel ti [] ns (mkMaterial (Some u) (Some y) (Some e) (Some sf))) v out) =
  (Raise AttributeError,
   mkController (mkTrussModel ti [] ns (mkMaterial (Some u) (Some y) (Some e) (Some sf)))
     (mkView (Some (mkReport ti sf u y e [])) (le_LongLinkName v) (le_LongLinkNode1 v)
        (le_LongLinkNode2 v) (le_LongLinkLength v))
     out).
Proof. reflexivity. Qed.

End Controller.

Arguments not_a_number [S] float_of_str f.
Arguments numeric_field_fails [S] float_of_str raw.
Arguments node_line [S] float_of_str raw.
Arguments nodes_step [S] float_of_str raw ns.
Arguments node_names [S] float_of_str lines.
Arguments material_line [S] float_of_str raw.
Arguments static_factor_line [S] float_of_str raw.

(** ** Position: addition and subtraction *)

Section PositionFacts.

Variable S : Scalar.

Lemma Position_of_tuple_components (a b c : S) :
  Position_of_tuple S (a, b, c) = mkPosition a b c.
Proof. reflexivity. Qed.

Lemma Position_eq_refl (p : Position S) :
  (forall u : S, eqb S u u = true) -> Position_eq p p = true.
Proof.
  intros Hrefl. unfold Position_eq.
  now rewrite !Hrefl.
Qed.


End PositionFacts.

Lemma Req_bool_refl (u : R) : Req_bool u u = true.
Proof. unfold Req_bool. destruct (Req_dec_T u u); congruence. Qed.

Lemma Rscalar_sub_add (u v : R) : (u + v - v = u)%R.
Proof. ring. Qed.



(** ** Position over the real numbers: magnitude, normalize, angle *)

Section RealPosition.

Local Open Scope R_scope.

Lemma Rle_bool_true (a b : R) : a <= b -> Rle_bool a b = true.
Proof. intros H. unfold Rle_bool. destruct (Rle_dec a b); [reflexivity | contradiction]. Qed.

Lemma Rle_bool_false (a b : R) : b < a -> Rle_bool a b = false.
Proof. intros H. unfold Rle_bool. destruct (Rle_dec a b); [lra | reflexivity]. Qed.

Lemma Req_bool_false (a b : R) : a <> b -> Req_bool a b = false.
Proof. intros H. unfold Req_bool. destruct (Req_dec_T a b); [contradiction | reflexivity]. Qed.

Lemma sumsq_nonneg (v : Position Rscalar) : 0 <= sumsq v.
Proof. unfold sumsq. nra. Qed.

Lemma mag_real (v : Position Rscalar) : mag v = Ok (sqrt (sumsq v)).
Proof. reflexivity. Qed.

Lemma mag_real_square (v : Position Rscalar) :
  sqrt (sumsq v) * sqrt (sumsq v) = sumsq v.
Proof. apply sqrt_sqrt, sumsq_nonneg. Qed.

Lemma mag_real_zero (v : Position Rscalar) :
  sqrt (sumsq v) <= 0 -> v = @mkPosition Rscalar 0 0 0.
Proof.
  intros H.
  assert (H0 : sqrt (sumsq v) = 0) by (pose proof (sqrt_pos (sumsq v)); lra).
  apply sqrt_eq_0 in H0; [| apply sumsq_nonneg].
  unfold sumsq in H0. destruct v as [a b c]. simpl in *.
  assert (a = 0) by nra. assert (b = 0) by nra. assert (c = 0) by nra.
  now subst.
Qed.

Lemma truediv_real (a l : R) : 0 < l -> truediv Rscalar a l = Ok (a / l).
Proof.
  intros H. simpl. unfold R_truediv. rewrite Req_bool_false by lra. reflexivity.
Qed.

Lemma x_over_mag (v : Position Rscalar) :
  0 < sqrt (sumsq v) -> -1 <= x v / sqrt (sumsq v) <= 1.
Proof.
  intros Hl. pose proof (mag_real_square v) as Hsq.
  set (l := sqrt (sumsq v)) in *.
  assert (Hx : - l <= x v <= l) by (unfold sumsq in Hsq; nra).
  split.
  - apply Rmult_le_reg_r with l; [exact Hl |].
    unfold Rdiv. rewrite Rmult_assoc, Rinv_l by lra. lra.
  - apply Rmult_le_reg_r with l; [exact Hl |].
    unfold Rdiv. rewrite Rmult_assoc, Rinv_l by lra. lra.
Qed.

Lemma x_over_mag_lt (v : Position Rscalar) :
  y v < 0 -> 0 < sqrt (sumsq v) /\ x v / sqrt (sumsq v) < 1.
Proof.
  intros Hy. pose proof (mag_real_square v) as Hsq.
  pose proof (sqrt_pos (sumsq v)) as Hpos.
  set (l := sqrt (sumsq v)) in *.
  assert (Hl : 0 < l) by (unfold sumsq in Hsq; nra).
  split; [exact Hl |].
  assert (Hx : x v < l) by (unfold sumsq in Hsq; nra).
  apply Rmult_lt_reg_r with l; [exact Hl |].
  unfold Rdiv. rewrite Rmult_assoc, Rinv_l by lra. lra.
Qed.

Lemma acos_real (t : R) : -1 <= t <= 1 -> acos Rlibm t = Ok (Ratan.acos t).
Proof.
  intros [H1 H2]. simpl. unfold R_acos.
  now rewrite (Rle_bool_true H1), (Rle_bool_true H2).
Qed.

Lemma acos_pos (t : R) : -1 <= t < 1 -> 0 < Ratan.acos t.
Proof.
  intros [H1 H2]. destruct (Req_dec_T t (-1)) as [->|Hne].
  - replace (-1) with (- (1)) by lra.
    rewrite acos_opp, acos_1. pose proof PI_RGT_0. lra.
  - apply acos_bound_lt. lra.
Qed.

Lemma unit_after_division (v : Position Rscalar) (l : R) :
  0 < l -> l * l = sumsq v ->
  sqrt (sumsq (@mkPosition Rscalar (x v / l) (y v / l) (z v / l))) = 1.
Proof.
  intros Hl Hsq. unfold sumsq in *. simpl.
  replace (x v / l * (x v / l) + y v / l * (y v / l) + z v / l * (z v / l))
    with ((x v * x v + y v * y v + z v * z v) / (l * l)) by (field; lra).
  rewrite <- Hsq. unfold Rdiv. rewrite Rinv_r; [apply sqrt_1 | nra].
Qed.

(** [normalize] over the real numbers. *)
Lemma normalize_real_cases (v : Position Rscalar) :
  exists l : R,
    mag v = Ok l /\
    (l <= 0 ->
       v = @mkPosition Rscalar 0 0 0 /\ normalize v = Ok v) /\
    (0 < l ->
       normalize v = Ok (@mkPosition Rscalar (x v / l) (y v / l) (z v / l)) /\
       @mkPosition Rscalar (x v / l) (y v / l) (z v / l) = Position_mul_scalar v (1 / l) /\
       mag (@mkPosition Rscalar (x v / l) (y v / l) (z v / l)) = Ok 1).
Proof.
  exists (sqrt (sumsq v)). split; [apply mag_real |]. split.
  - intros Hl. split; [now apply mag_real_zero |].
    unfold normalize. rewrite mag_real. simpl.
    now rewrite (Rle_bool_true Hl).
  - intros Hl. split; [| split].
    + unfold normalize. rewrite mag_real. simpl py_bind.
      change (leb Rscalar (sqrt (sumsq v)) (of_Z Rscalar 0))
        with (Rle_bool (sqrt (sumsq v)) 0).
      rewrite (Rle_bool_false Hl).
      unfold Position_idiv. rewrite !truediv_real by exact Hl. reflexivity.
    + unfold Position_mul_scalar. rewrite Position_of_tuple_components. simpl.
      f_equal; unfold Rdiv; ring.
    + rewrite mag_real. f_equal.
      apply unit_after_division; [exact Hl | apply mag_real_square].
Qed.

Lemma getAngleRad_real_unfold (v : Position Rscalar) :
  getAngleRad Rlibm v =
  if Rle_bool (sqrt (sumsq v)) 0 then Ok 0
  else if Rle_bool 0 (y v) then
    py_bind (R_truediv (x v) (sqrt (sumsq v))) R_acos
  else
    py_bind (R_truediv (x v) (sqrt (sumsq v)))
      (fun t => py_bind (R_acos t) (fun a => Ok (2 * PI - a))).
Proof. reflexivity. Qed.

(** [getAngleRad] over the real numbers. *)
Lemma getAngleRad_real_cases (v : Position Rscalar) :
  exists l a : R,
    mag v = Ok l /\
    getAngleRad Rlibm v = Ok a /\
    (l <= 0 -> a = 0) /\
    (0 < l -> 0 <= y v -> a = Ratan.acos (x v / l)) /\
    (0 < l -> y v < 0 -> a = 2 * PI - Ratan.acos (x v / l)) /\
    0 <= a < 2 * PI /\
    getAngleRad Rlibm (@mkPosition Rscalar 0 0 0) = Ok 0.
Proof.
  pose proof PI_RGT_0 as Hpi.
  assert (Hzero : getAngleRad Rlibm (@mkPosition Rscalar 0 0 0) = Ok 0).
  { rewrite getAngleRad_real_unfold.
    rewrite Rle_bool_true; [reflexivity |].
    unfold sumsq. simpl. replace (0 * 0 + 0 * 0 + 0 * 0) with 0 by ring.
    rewrite sqrt_0. lra. }
  exists (sqrt (sumsq v)).
  rewrite getAngleRad_real_unfold.
  destruct (Rle_dec (sqrt (sumsq v)) 0) as [Hl|Hl].
  - rewrite (Rle_bool_true Hl). exists 0.
    repeat split; trivial; try lra.
  - apply Rnot_le_lt in Hl. rewrite (Rle_bool_false Hl).
    pose proof (x_over_mag v Hl) as Hdom.
    pose proof (truediv_real (x v) Hl) as Hdiv. simpl in Hdiv. rewrite Hdiv.
    pose proof (acos_real Hdom) as Hacos. simpl in Hacos.
    unfold py_bind. rewrite Hacos.
    pose proof (acos_bound (x v / sqrt (sumsq v))) as Hb.
    destruct (Rle_dec 0 (y v)) as [Hy|Hy].
    + rewrite (Rle_bool_true Hy). exists (Ratan.acos (x v / sqrt (sumsq v))).
      repeat split; trivial; try lra.
    + apply Rnot_le_lt in Hy. rewrite (Rle_bool_false Hy).
      destruct (x_over_mag_lt v Hy) as [_ Hlt].
      assert (Hp : 0 < Ratan.acos (x v / sqrt (sumsq v))) by (apply acos_pos; lra).
      exists (2 * PI - Ratan.acos (x v / sqrt (sumsq v))).
      repeat split; trivial; try lra.
Qed.

(** Over the real numbers the derivation pass never raises. *)
Lemma calcLinkVals_in_real_total (ns : list (Node Rscalar)) (ls : list (Link Rscalar)) :
  snd (calcLinkVals_in Rlibm ns ls) = None.
Proof.
  destruct (snd (calcLinkVals_in Rlibm ns ls)) as [ex|] eqn:He; [| reflexivity].
  destruct (calcLinkVals_in_raises Rlibm ns ls He) as (l & r & _ & _ & [Hm|Ha]).
  - rewrite mag_real in Hm. discriminate.
  - destruct (getAngleRad_real_cases r) as (l0 & a & _ & Hok & _). congruence.
Qed.

End RealPosition.

(** ** The order of binary64 numbers *)

Section Binary64Order.

Local Open Scope Z_scope.

Lemma SFltb_key (u v : spec_float) :
  SFltb u v = true <->
  exists a b, SFkey u = Some a /\ SFkey v = Some b /\ key_lt a b.
Proof.
  unfold SFltb.
  destruct u as [[]|[]| |[] m1 e1], v as [[]|[]| |[] m2 e2]; simpl;
    try (split; [discriminate
                | intros (a & b & Ha & Hb & Hk); try discriminate;
                  injection Ha as <-; injection Hb as <-; simpl in Hk; lia]);
    try (split; [intros _; eexists; eexists;
                 (split; [reflexivity | split; [reflexivity | simpl; lia]])
                | reflexivity]).
  all: change (PosDef.Pos.compare_cont Eq m1 m2) with (Pos.compare m1 m2).
  all: destruct (Z.compare_spec e1 e2), (Pos.compare_spec m1 m2); simpl;
    (split; [ try discriminate; intros _; eexists; eexists;
              (split; [reflexivity | split; [reflexivity | simpl; lia]])
            | intros (a & b & Ha & Hb & Hk); injection Ha as <-; injection Hb as <-;
              simpl in Hk; try reflexivity; lia ]).
Qed.

Lemma SFeqb_refl_key (u : spec_float) :
  SFeqb u u = true <-> SFkey u <> None.
Proof.
  unfold SFeqb.
  destruct u as [[]|[]| |[] m e]; simpl; try (split; [discriminate | reflexivity]);
    try (split; [discriminate | intros H; now elim H]).
  all: rewrite Z.compare_refl;
    change (PosDef.Pos.compare_cont Eq m m) with (Pos.compare m m);
    rewrite Pos.compare_refl; simpl; split; [discriminate | reflexivity].
Qed.

Lemma float_gt_irrefl (a : PrimFloat.float) : PrimFloat.ltb a a = false.
Proof.
  rewrite ltb_spec. apply not_true_is_false. rewrite SFltb_key.
  intros (k1 & k2 & H1 & H2 & H). rewrite H1 in H2. injection H2 as <-.
  destruct k1 as [[? ?] ?]. simpl in H. lia.
Qed.

Lemma float_gt_trans (a b c : PrimFloat.float) :
  PrimFloat.ltb b a = true -> PrimFloat.ltb c b = true -> PrimFloat.ltb c a = true.
Proof.
  rewrite !ltb_spec, !SFltb_key.
  intros (kb & ka & Hb & Ha & H1) (kc & kb' & Hc & Hb' & H2).
  rewrite Hb in Hb'. injection Hb' as <-.
  exists kc, ka. repeat split; trivial.
  destruct ka as [[? ?] ?], kb as [[? ?] ?], kc as [[? ?] ?]. simpl in *. lia.
Qed.

Lemma float_gt_cotrans (a b c : PrimFloat.float) :
  PrimFloat.eqb c c = true ->
  PrimFloat.ltb b a = true -> PrimFloat.ltb b c = false -> PrimFloat.ltb c a = true.
Proof.
  rewrite FloatAxioms.eqb_spec, !ltb_spec, SFeqb_refl_key.
  intros Hc Hba Hbc. apply SFltb_key in Hba. destruct Hba as (kb & ka & Hb & Ha & H1).
  destruct (SFkey (Prim2SF c)) as [kc|] eqn:Hkc; [| now elim Hc].
  apply SFltb_key. exists kc, ka. repeat split; trivial.
  assert (Hn : ~ key_lt kb kc).
  { intros H. assert (SFltb (Prim2SF b) (Prim2SF c) = true).
    { apply SFltb_key. exists kb, kc. now repeat split. }
    congruence. }
  destruct ka as [[? ?] ?], kb as [[? ?] ?], kc as [[? ?] ?]. simpl in *. lia.
Qed.

Lemma binary64_order_laws (pw rt : PrimFloat.float -> py PrimFloat.float) :
  OrderLaws (binary64_with pw rt).
Proof.
  constructor; simpl.
  - exact float_gt_irrefl.
  - intros a b c Hab Hbc. exact (@float_gt_trans a b c Hab Hbc).
  - intros a b c Hc Hab Hcb. exact (@float_gt_cotrans a b c Hc Hab Hcb).
Qed.

End Binary64Order.

Lemma Rscalar_order_laws : OrderLaws Rscalar.
Proof.
  constructor; simpl; unfold Rlt_bool, Req_bool.
  - intros a. destruct (Rlt_dec a a); [lra | reflexivity].
  - intros a b c. destruct (Rlt_dec b a), (Rlt_dec c b), (Rlt_dec c a);
      try reflexivity; try discriminate; lra.
  - intros a b c _. destruct (Rlt_dec b a), (Rlt_dec b c), (Rlt_dec c a);
      try reflexivity; try discriminate; lra.
Qed.

(** ** Position over Python floats: the guards *)

Section Binary64Position.

Lemma float_eqb_leb (a b : PrimFloat.float) :
  PrimFloat.eqb a b = true -> PrimFloat.leb a b = true.
Proof.
  rewrite FloatAxioms.eqb_spec, leb_spec. unfold SFeqb, SFleb.
  destruct (SFcompare (Prim2SF a) (Prim2SF b)) as [[]|]; easy.
Qed.

(** A divisor that is not [<= 0.0] is not [== 0.0]: the division returns. *)
Lemma float_truediv_guarded (a l : PrimFloat.float) :
  PrimFloat.leb l PrimFloat.zero = false ->
  float_truediv a l = Ok (PrimFloat.div a l).
Proof.
  intros H. unfold float_truediv.
  destruct (PrimFloat.eqb l PrimFloat.zero) eqn:He; [| reflexivity].
  apply float_eqb_leb in He. congruence.
Qed.

End Binary64Position.

(** C7, as amended.  On Python floats, [normalize] raises exactly when
    computing the magnitude does; otherwise, with [l] the magnitude, it
    leaves [v] as it is when [l <= 0.0] and divides each component by [l]
    when not, and no division raises.  Over the real numbers [normalize]
    never raises: when [l <= 0], [v] is the zero vector and is left as it
    is; when [0 < l], each component is divided by [l], which is [v] scaled
    by [1 / l], and the magnitude of the result is 1. *)
Theorem normalize_guarded :
  (forall (pw rt : PrimFloat.float -> py PrimFloat.float)
          (v : Position (binary64_with pw rt)),
      match mag v with
      | Raise e => normalize v = Raise e
      | Ok l =>
          normalize v =
          if PrimFloat.leb l PrimFloat.zero then Ok v
          else Ok (@mkPosition (binary64_with pw rt) (PrimFloat.div (x v) l)
                     (PrimFloat.div (y v) l) (PrimFloat.div (z v) l))
      end) /\
  (forall v : Position Rscalar,
      exists l : R,
        mag v = Ok l /\
        ((l <= 0)%R ->
           v = @mkPosition Rscalar 0%R 0%R 0%R /\ normalize v = Ok v) /\
        ((0 < l)%R ->
           normalize v = Ok (@mkPosition Rscalar (x v / l)%R (y v / l)%R (z v / l)%R) /\
           @mkPosition Rscalar (x v / l)%R (y v / l)%R (z v / l)%R
             = Position_mul_scalar v (1 / l)%R /\
           mag (@mkPosition Rscalar (x v / l)%R (y v / l)%R (z v / l)%R) = Ok 1%R)).
Proof.
  split; [| exact normalize_real_cases].
  intros pw rt v. unfold normalize. destruct (mag v) as [l|e]; [| reflexivity].
  simpl py_bind.
  change (leb (binary64_with pw rt) l (of_Z (binary64_with pw rt) 0))
    with (PrimFloat.leb l PrimFloat.zero).
  destruct (PrimFloat.leb l PrimFloat.zero) eqn:Hl; [reflexivity |].
  unfold Position_idiv.
  change (truediv (binary64_with pw rt)) with float_truediv.
  now rewrite !float_truediv_guarded by exact Hl.
Qed.

(** C7 fails for Python floats.  For v = (2.0**600, 0.0, 0.0) the square
    of v.x is out of range: [mag], and so [normalize], raises
    [OverflowError].  For v = (2.0**-600, 0.0, 0.0) the square of v.x
    underflows to 0.0: the magnitude is 0.0 and [normalize] leaves this
    vector, which is not the zero vector, as it is. *)
Lemma normalize_binary64_counterexample :
  normalize (@mkPosition binary64 0x1p+600%float 0%float 0%float) = Raise OverflowError /\
  mag (@mkPosition binary64 0x1p-600%float 0%float 0%float) = Ok 0%float /\
  normalize (@mkPosition binary64 0x1p-600%float 0%float 0%float)
  = Ok (@mkPosition binary64 0x1p-600%float 0%float 0%float).
Proof. repeat split; vm_compute; reflexivity. Qed.

(** C2, as amended.  On Python floats, whatever [math.acos] and [math.pi]
    are, [getAngleRad] raises what computing the magnitude raises;
    otherwise, with [l] the magnitude, it is 0 when [l <= 0.0], the value
    of [acos (x / l)] when [y >= 0.0], and [2.0 * pi] minus that value in
    the remaining case, and no division raises.  Over the real numbers
    [getAngleRad] never raises, these are the cases [l <= 0], [0 <= y] and
    [y < 0], the angle lies in [0, 2 * PI) for every vector, and it is 0
    for the zero vector. *)
Theorem getAngleRad_branches :
  (forall (pw rt : PrimFloat.float -> py PrimFloat.float)
          (L : Libm (binary64_with pw rt)) (v : Position (binary64_with pw rt)),
      match mag v with
      | Raise e => getAngleRad L v = Raise e
      | Ok l =>
          getAngleRad L v =
          if PrimFloat.leb l PrimFloat.zero then Ok PrimFloat.zero
          else if PrimFloat.leb PrimFloat.zero (y v) then acos L (PrimFloat.div (x v) l)
          else py_bind (acos L (PrimFloat.div (x v) l))
                 (fun a => Ok (PrimFloat.sub (PrimFloat.mul (float_of_Z 2) (pi L)) a))
      end) /\
  (forall v : Position Rscalar,
      exists l a : R,
        mag v = Ok l /\
        getAngleRad Rlibm v = Ok a /\
        ((l <= 0)%R -> a = 0%R) /\
        ((0 < l)%R -> (0 <= y v)%R -> a = Ratan.acos (x v / l)%R) /\
        ((0 < l)%R -> (y v < 0)%R -> a = (2 * PI - Ratan.acos (x v / l))%R) /\
        (0 <= a < 2 * PI)%R /\
        getAngleRad Rlibm (@mkPosition Rscalar 0%R 0%R 0%R) = Ok 0%R).
Proof.
  split; [| exact getAngleRad_real_cases].
  intros pw rt L v. unfold getAngleRad. destruct (mag v) as [l|e]; [| reflexivity].
  simpl py_bind.
  change (leb (binary64_with pw rt) l (of_Z (binary64_with pw rt) 0))
    with (PrimFloat.leb l PrimFloat.zero).
  change (geb (binary64_with pw rt) (y v) (of_Z (binary64_with pw rt) 0))
    with (PrimFloat.leb PrimFloat.zero (y v)).
  destruct (PrimFloat.leb l PrimFloat.zero) eqn:Hl; [reflexivity |].
  change (truediv (binary64_with pw rt)) with float_truediv.
  rewrite !float_truediv_guarded by exact Hl.
  reflexivity.
Qed.

(** C2 fails for Python floats.  For v = (2.0**600, 1.0, 0.0), whose
    projection on the plane is not zero, the square of v.x is out of
    range: [mag] raises [OverflowError] and [getAngleRad] has no result,
    whatever [math.acos] and [math.pi] are. *)
Lemma getAngleRad_binary64_counterexample :
  mag (@mkPosition binary64 0x1p+600%float 1%float 0%float) = Raise OverflowError /\
  (forall L : Libm binary64,
      getAngleRad L (@mkPosition binary64 0x1p+600%float 1%float 0%float)
      = Raise OverflowError).
Proof. split; [vm_compute; reflexivity | intros L; reflexivity]. Qed.

(** The bound 2 * pi is reached on Python floats.  For
    v = (1.0, -2.0**-600, 0.0) the square of v.y underflows, the magnitude
    is 1.0 and, [math.acos(1.0)] being 0.0, the angle is
    [2.0 * math.pi - 0.0]. *)
Lemma getAngleRad_binary64_full_turn (L : Libm binary64) :
  acos L 1%float = Ok 0%float ->
  mag (@mkPosition binary64 1%float (-0x1p-600)%float 0%float) = Ok 1%float /\
  getAngleRad L (@mkPosition binary64 1%float (-0x1p-600)%float 0%float)
  = Ok (PrimFloat.sub (PrimFloat.mul 2%float (pi L)) 0%float).
Proof.
  intros H. split; [vm_compute; reflexivity |].
  unfold getAngleRad.
  replace (mag (@mkPosition binary64 1%float (-0x1p-600)%float 0%float))
    with (@Ok PrimFloat.float 1%float) by (vm_compute; reflexivity).
  simpl py_bind.
  replace (leb binary64 1%float (of_Z binary64 0)) with false by (vm_compute; reflexivity).
  replace (geb binary64 (y (@mkPosition binary64 1%float (-0x1p-600)%float 0%float))
             (of_Z binary64 0)) with false by (vm_compute; reflexivity).
  replace (truediv binary64 (x (@mkPosition binary64 1%float (-0x1p-600)%float 0%float))
             1%float) with (@Ok PrimFloat.float 1%float) by (vm_compute; reflexivity).
  simpl py_bind. rewrite H. reflexivity.
Qed.

(** ** The report on Python floats *)



(** ** Worked examples of the import *)



(** C3, on the code.  In the file below the [link] line has two fields
    after the keyword: [parts[3]] raises [IndexError], which the [except]
    clause does not catch.  The import ends there, whatever numbers are:
    the second [node] line is never processed and the model has one node,
    while the well-formed [node] lines of the file have two distinct
    names. *)
Theorem ImportFromFile_truncated_link (S : Scalar) (L : Libm S)
        (float_of_str : string -> option S) (a : S) :
  float_of_str " 0" = Some a ->
  fst (ImportFromFile L float_of_str
         (FileLines ["node, A, 0, 0"; "link, L1, A"; "node, B, 0, 0"])
         (TrussController_init S)) = Raise IndexError /\
  nodes (truss (snd (ImportFromFile L float_of_str
                       (FileLines ["node, A, 0, 0"; "link, L1, A"; "node, B, 0, 0"])
                       (TrussController_init S))))
  = [mkNode "A" (mkPosition a a (of_Z S 0))] /\
  count_distinct (node_names float_of_str ["node, A, 0, 0"; "link, L1, A"; "node, B, 0, 0"])
  = 2%nat.
Proof.
  intros H.
  assert (Hl : process_line float_of_str "node, A, 0, 0" (TrussController_init S) =
               (Ok tt,
                mkController
                  (mkTrussModel None [] [mkNode "A" (mkPosition a a (of_Z S 0))]
                     (Material_init None None None None))
                  (View_init S)
                  [ProcessingLine "node, A, 0, 0"; NodeAdded "A"; AddedNode "A"])).
  { unfold process_line, directive, try_except_ValueError, bind, print, lift, hasNode,
      addNode, get_truss, set_truss, ret, index, unpack2_floats.
    simpl. rewrite H. reflexivity. }
  repeat split.
  - simpl. unfold bind at 1 2. rewrite Hl. reflexivity.
  - simpl. unfold bind at 1 2. rewrite Hl. reflexivity.
  - unfold count_distinct, node_names, node_line, unpack2_floats. simpl.
    rewrite H. reflexivity.
Qed.

Lemma ImportFromFile_truncated_link_witness :
  fst (ImportFromFile Rlibm (float_of_digits Rscalar)
         (FileLines ["node, A, 0, 0"; "link, L1, A"; "node, B, 0, 0"])
         (TrussController_init Rscalar)) = Raise IndexError.
Proof.
  exact (proj1 (@ImportFromFile_truncated_link Rscalar Rlibm (float_of_digits Rscalar)
                  0%R eq_refl)).
Defined.

(** A [material] line after a [static_factor] line: the factor is lost. *)
Lemma material_replaced_static_factor_set_witness :
  staticFactor (material (truss after_static_factor)) = Some 2%R /\
  material_line (float_of_digits Rscalar) "material, 100, 50, 200000"
    = Some (100%R, 50%R, 200000%R) /\
  material
    (truss (snd (process_line (float_of_digits Rscalar) "material, 100, 50, 200000"
                   after_static_factor)))
  = @mkMaterial Rscalar (Some 100%R) (Some 50%R) (Some 200000%R) None.
Proof.
  split; [reflexivity |]. split; [reflexivity |].
  rewrite (proj1 (@material_replaced_static_factor_set Rscalar (float_of_digits Rscalar)
                    "material, 100, 50, 200000" after_static_factor)
             100%R 50%R 200000%R eq_refl).
  reflexivity.
Defined.

(** A [link] line in a model without nodes. *)
Lemma Link_name_is_empty_witness :
  links (truss (snd (process_line (float_of_digits Rscalar) "link, L1, A, B"
                       (TrussController_init Rscalar))))
  = [@mkLink Rscalar "" "A" "B" None None].
Proof.
  exact (proj2 (proj1 (proj2 (@Link_name_is_empty Rscalar Rlibm (float_of_digits Rscalar)))
                  "link, L1, A, B" ["link"; " L1"; " A"; " B"] " L1" " A" " B"
                  (TrussController_init Rscalar) eq_refl eq_refl eq_refl eq_refl)).
Defined.

Lemma links_appended_then_derived_witness :
  resolves nodes_A_B (@mkLink Rscalar "" "A" "B" None None) = true /\
  resolves nodes_A_B (@mkLink Rscalar "" "A" "Z" None None) = false /\
  snd (calcLinkVals_in Rlibm nodes_A_B links_AB_AZ) = None /\
  Forall2 (derived Rlibm nodes_A_B) links_AB_AZ
    (fst (calcLinkVals_in Rlibm nodes_A_B links_AB_AZ)).
Proof.
  split; [reflexivity |]. split; [reflexivity |].
  split; [apply calcLinkVals_in_real_total |].
  exact (proj1 (proj2 (proj2 (@links_appended_then_derived Rscalar Rlibm
                                (float_of_digits Rscalar))
                         nodes_A_B links_AB_AZ)
                  (calcLinkVals_in_real_total nodes_A_B links_AB_AZ))).
Defined.

(** C4 fails for Python floats.  With the nodes A = (0.0, 0.0) and
    B = (2.0**600, 0.0), both names of the link from A to B resolve, but
    the square of the displacement's x is out of range: [mag] raises
    [OverflowError], the pass ends and the link is left without length
    and angle, whatever [math.acos] and [math.pi] are. *)
Lemma calcLinkVals_binary64_counterexample :
  resolves
    [@mkNode binary64 "A" (@mkPosition binary64 0%float 0%float 0%float);
     @mkNode binary64 "B" (@mkPosition binary64 0x1p+600%float 0%float 0%float)]
    (@mkLink binary64 "" "A" "B" None None) = true /\
  (forall L : Libm binary64,
      calcLinkVals_in L
        [@mkNode binary64 "A" (@mkPosition binary64 0%float 0%float 0%float);
         @mkNode binary64 "B" (@mkPosition binary64 0x1p+600%float 0%float 0%float)]
        [@mkLink binary64 "" "A" "B" None None]
      = ([@mkLink binary64 "" "A" "B" None None], Some OverflowError)).
Proof. split; [reflexivity | intros L; vm_compute; reflexivity]. Qed.

(** C9, on the code.  A file with a title, a material, a static factor
    and two nodes, and no link.  The import raises [AttributeError] out of
    [displayReport], after the report text was written: [longest] is
    [None] when [longest.name] is read. *)
Theorem ImportFromFile_no_link_AttributeError :
  fst (ImportFromFile Rlibm (float_of_digits Rscalar)
         (FileLines ["title, 'T'"; "material, 100, 50, 200000"; "static_factor, 2";
                     "node, A, 0, 0"; "node, B, 3, 4"])
         (TrussController_init Rscalar))
  = Raise AttributeError /\
  te_Report
    (view (snd (ImportFromFile Rlibm (float_of_digits Rscalar)
                  (FileLines ["title, 'T'"; "material, 100, 50, 200000"; "static_factor, 2";
                              "node, A, 0, 0"; "node, B, 3, 4"])
                  (TrussController_init Rscalar))))
  = Some (@mkReport Rscalar (Some "T") 2%R 100%R 50%R 200000%R []).
Proof. split; reflexivity. Qed.

(** * Further properties of the operators of Position *)

Section Operators.

Variable S : Scalar.

(** X1.  The operators that update in place.  [+=] and [-=] never add or
    subtract: with a number, [__iadd__] and [__isub__] return None, so
    that [p += 2.0] binds [p] to None; with a Position they raise
    [AttributeError], out of the test [other in (float, int)]; with the
    class [float] or [int] they raise [TypeError] at the first assignment;
    and in every case [self] is unchanged.  [*=] with a number multiplies
    the three components in place and returns [self], which is then the
    Position that [*] returns; with a Position, for which [*] returns the
    product component by component, [*=] returns None and leaves [self] as
    it is. *)
Theorem in_place_operators (self : Position S) (other : operand S) :
  snd (Position__iadd__ self other) = self /\
  snd (Position__isub__ self other) = self /\
  fst (Position__iadd__ self other) = fst (Position__isub__ self other) /\
  fst (Position__iadd__ self other) =
    match other with
    | Number _ => Ok None
    | APosition _ => Raise AttributeError
    | FloatClass _ | IntClass _ => Raise TypeError
    end /\
  Position__imul__ self other =
    match other with
    | Number s => (Ok (Position__mul__ self other), Position_mul_scalar self s)
    | _ => (Ok None, self)
    end /\
  Position__mul__ self other =
    match other with
    | Number s =>
        Some (mkPosition (mul S (x self) s) (mul S (y self) s) (mul S (z self) s))
    | APosition o =>
        Some (mkPosition (mul S (x self) (x o)) (mul S (y self) (y o))
                (mul S (z self) (z o)))
    | FloatClass _ | IntClass _ => None
    end.
Proof. destruct other; repeat split; reflexivity. Qed.

End Operators.

(** X2.  [__idiv__] and [/] by a number, on Python floats and on real
    numbers.  Both raise [ZeroDivisionError] exactly when the number is
    zero (0.0 or -0.0), and then [__idiv__] has changed no component of
    [self]; otherwise [__idiv__] leaves in [self], and returns, the
    Position that [/] returns.  [normalize] divides through this
    method. *)
Theorem idiv_agrees_with_truediv :
  (forall (pw rt : PrimFloat.float -> py PrimFloat.float)
          (self : Position (binary64_with pw rt)) (s : PrimFloat.float),
      if PrimFloat.eqb s PrimFloat.zero then
        Position__truediv__ self (@Number (binary64_with pw rt) s) = Raise ZeroDivisionError /\
        Position__idiv__ self (@Number (binary64_with pw rt) s) = (Raise ZeroDivisionError, self) /\
        Position_idiv self s = Raise ZeroDivisionError
      else
        exists q,
          q = @mkPosition (binary64_with pw rt) (PrimFloat.div (x self) s)
                (PrimFloat.div (y self) s) (PrimFloat.div (z self) s) /\
          Position__truediv__ self (@Number (binary64_with pw rt) s) = Ok (Some q) /\
          Position__idiv__ self (@Number (binary64_with pw rt) s) = (Ok (Some q), q) /\
          Position_idiv self s = Ok q) /\
  (forall (self : Position Rscalar) (s : R),
      if Req_bool s 0 then
        Position__truediv__ self (@Number Rscalar s) = Raise ZeroDivisionError /\
        Position__idiv__ self (@Number Rscalar s) = (Raise ZeroDivisionError, self) /\
        Position_idiv self s = Raise ZeroDivisionError
      else
        exists q,
          q = @mkPosition Rscalar (x self / s)%R (y self / s)%R (z self / s)%R /\
          Position__truediv__ self (@Number Rscalar s) = Ok (Some q) /\
          Position__idiv__ self (@Number Rscalar s) = (Ok (Some q), q) /\
          Position_idiv self s = Ok q).
Proof.
  split.
  - intros pw rt self s.
    unfold Position__truediv__, Position__idiv__, Position_truediv, Position_idiv, in_place.
    simpl. unfold float_truediv.
    destruct (PrimFloat.eqb s PrimFloat.zero).
    + now repeat split.
    + eexists. split; [reflexivity |]. now repeat split.
  - intros self s.
    unfold Position__truediv__, Position__idiv__, Position_truediv, Position_idiv, in_place.
    simpl. unfold R_truediv.
    destruct (Req_bool s 0).
    + now repeat split.
    + eexists. split; [reflexivity |]. now repeat split.
Qed.

(** * Further properties of Position over the real numbers *)

Section RealVectors.

Local Open Scope R_scope.

Lemma getAngleRad_real_pos (v : Position Rscalar) :
  0 < sqrt (sumsq v) ->
  getAngleRad Rlibm v =
  Ok (if Rle_bool 0 (y v) then Ratan.acos (x v / sqrt (sumsq v))
      else 2 * PI - Ratan.acos (x v / sqrt (sumsq v))).
Proof.
  intros Hl. rewrite getAngleRad_real_unfold, (Rle_bool_false Hl).
  pose proof (truediv_real (x v) Hl) as Hdiv. simpl in Hdiv. rewrite Hdiv.
  pose proof (acos_real (x_over_mag v Hl)) as Hacos. simpl in Hacos.
  unfold py_bind. rewrite Hacos.
  now destruct (Rle_bool 0 (y v)).
Qed.

Lemma sumsq_zero (v : Position Rscalar) :
  sumsq v = 0 -> v = @mkPosition Rscalar 0 0 0.
Proof.
  unfold sumsq. destruct v as [a b c]. simpl. intros H.
  assert (a = 0) by nra. assert (b = 0) by nra. assert (c = 0) by nra.
  now subst.
Qed.

Lemma sqrt_sumsq_zero (v : Position Rscalar) :
  sqrt (sumsq v) = 0 <-> v = @mkPosition Rscalar 0 0 0.
Proof.
  split.
  - intros H. apply sumsq_zero. apply sqrt_eq_0; [apply sumsq_nonneg | exact H].
  - intros ->. unfold sumsq. simpl.
    replace (0 * 0 + 0 * 0 + 0 * 0) with 0 by ring. apply sqrt_0.
Qed.

Lemma sumsq_add (a b : Position Rscalar) :
  sumsq (Position_add a b) =
  sumsq a + sumsq b + 2 * (x a * x b + y a * y b + z a * z b).
Proof. unfold sumsq, Position_add. rewrite !Position_of_tuple_components. simpl. ring. Qed.

Lemma sumsq_sub_sym (a b : Position Rscalar) :
  sumsq (Position_sub a b) = sumsq (Position_sub b a).
Proof. unfold sumsq, Position_sub. rewrite !Position_of_tuple_components. simpl. ring. Qed.

Lemma dot_le_mags (a b : Position Rscalar) :
  x a * x b + y a * y b + z a * z b <= sqrt (sumsq a) * sqrt (sumsq b).
Proof.
  pose proof (mag_real_square a) as Ha. pose proof (mag_real_square b) as Hb.
  pose proof (sqrt_pos (sumsq a)) as Pa. pose proof (sqrt_pos (sumsq b)) as Pb.
  set (la := sqrt (sumsq a)) in *. set (lb := sqrt (sumsq b)) in *.
  set (d := x a * x b + y a * y b + z a * z b).
  destruct (Rle_dec d 0) as [Hd|Hd]; [nra |].
  apply Rnot_le_lt in Hd.
  assert (Hsq : d * d <= (la * lb) * (la * lb)).
  { replace (la * lb * (la * lb)) with ((la * la) * (lb * lb)) by ring.
    rewrite Ha, Hb. unfold sumsq, d.
    assert (Hlag : (x a * x a + y a * y a + z a * z a) * (x b * x b + y b * y b + z b * z b)
                   - (x a * x b + y a * y b + z a * z b) * (x a * x b + y a * y b + z a * z b)
                   = (x a * y b - y a * x b) * (x a * y b - y a * x b)
                     + (x a * z b - z a * x b) * (x a * z b - z a * x b)
                     + (y a * z b - z a * y b) * (y a * z b - z a * y b)) by ring.
    pose proof (Rle_0_sqr (x a * y b - y a * x b)) as H1.
    pose proof (Rle_0_sqr (x a * z b - z a * x b)) as H2.
    pose proof (Rle_0_sqr (y a * z b - z a * y b)) as H3.
    unfold Rsqr in H1, H2, H3. lra. }
  assert (Hp : 0 <= la * lb) by (apply Rmult_le_pos; assumption).
  destruct (Rle_dec d (la * lb)) as [Hle|Hgt]; [exact Hle |].
  apply Rnot_le_lt in Hgt. nra.
Qed.

(** X3.  Over the real numbers [mag] is the Euclidean norm: it never raises,
    it is not negative, it is zero for the zero vector only, the
    magnitude of a sum is at most the sum of the magnitudes, and
    [(a - b).mag()] is a distance: the same in both directions and zero
    exactly when [a] and [b] are the same point. *)
Theorem mag_is_norm (a b : Position Rscalar) :
  exists la lb ls ld : R,
    mag a = Ok la /\ mag b = Ok lb /\
    mag (Position_add a b) = Ok ls /\
    mag (Position_sub a b) = Ok ld /\ mag (Position_sub b a) = Ok ld /\
    0 <= la /\
    (la = 0 <-> a = @mkPosition Rscalar 0 0 0) /\
    ls <= la + lb /\
    (ld = 0 <-> a = b).
Proof.
  exists (sqrt (sumsq a)), (sqrt (sumsq b)), (sqrt (sumsq (Position_add a b))),
         (sqrt (sumsq (Position_sub a b))).
  repeat split; try apply mag_real.
  - rewrite mag_real. now rewrite sumsq_sub_sym.
  - apply sqrt_pos.
  - apply sqrt_sumsq_zero.
  - apply sqrt_sumsq_zero.
  - pose proof (mag_real_square a) as Ha. pose proof (mag_real_square b) as Hb.
    pose proof (sqrt_pos (sumsq a)) as Pa. pose proof (sqrt_pos (sumsq b)) as Pb.
    pose proof (dot_le_mags a b) as Hdot.
    rewrite <- (sqrt_square (sqrt (sumsq a) + sqrt (sumsq b))) by lra.
    apply sqrt_le_1_alt. rewrite sumsq_add. nra.
  - intros H. apply sqrt_sumsq_zero in H.
    destruct a as [ax ay az], b as [bx by_ bz].
    unfold Position_sub in H. rewrite !Position_of_tuple_components in H. simpl in H.
    injection H as Hx Hy Hz. f_equal; lra.
  - intros ->. apply sqrt_sumsq_zero.
    destruct b as [bx by_ bz].
    unfold Position_sub. rewrite !Position_of_tuple_components. simpl.
    f_equal; ring.
Qed.

Lemma sumsq_scaled (p : Position Rscalar) (s : R) :
  sumsq (Position_mul_scalar p s) = (s * s) * sumsq p.
Proof. unfold sumsq, Position_mul_scalar. rewrite !Position_of_tuple_components. simpl. ring. Qed.

Lemma sqrt_sumsq_scaled (p : Position Rscalar) (s : R) :
  sqrt (sumsq (Position_mul_scalar p s)) = Rabs s * sqrt (sumsq p).
Proof.
  rewrite sumsq_scaled, sqrt_mult_alt by nra.
  f_equal. rewrite <- sqrt_Rsqr_abs. reflexivity.
Qed.

Lemma getAngleRad_scaled (p : Position Rscalar) (s : R) :
  0 < s -> getAngleRad Rlibm (Position_mul_scalar p s) = getAngleRad Rlibm p.
Proof.
  intros Hs.
  pose proof (sqrt_sumsq_scaled p s) as Hl. rewrite (Rabs_pos_eq s) in Hl by lra.
  pose proof (sqrt_pos (sumsq p)) as Hpos.
  destruct (Rle_dec (sqrt (sumsq p)) 0) as [H0|H0].
  - rewrite !getAngleRad_real_unfold, Hl.
    rewrite (Rle_bool_true H0). rewrite Rle_bool_true by nra. reflexivity.
  - apply Rnot_le_lt in H0.
    rewrite (getAngleRad_real_pos p H0).
    rewrite getAngleRad_real_pos by (rewrite Hl; nra).
    rewrite Hl.
    assert (Hx : x (Position_mul_scalar p s) = x p * s)
      by (unfold Position_mul_scalar; now rewrite Position_of_tuple_components).
    assert (Hy : y (Position_mul_scalar p s) = y p * s)
      by (unfold Position_mul_scalar; now rewrite Position_of_tuple_components).
    rewrite Hx, Hy.
    replace (x p * s / (s * sqrt (sumsq p))) with (x p / sqrt (sumsq p)) by (field; lra).
    destruct (Rle_dec 0 (y p)) as [Hyp|Hyp].
    + rewrite (Rle_bool_true Hyp). rewrite Rle_bool_true by nra. reflexivity.
    + apply Rnot_le_lt in Hyp.
      rewrite (Rle_bool_false Hyp). rewrite Rle_bool_false by nra. reflexivity.
Qed.

(** X4.  [p * s] and [s * p] for a number [s] are the same Position, the
    components of [p] times [s].  Over the real numbers its magnitude is
    the magnitude of [p] times the absolute value of [s], and for a
    positive [s] its angle is the angle of [p]. *)
Theorem mul_scales (p : Position Rscalar) (s : R) :
  exists (q : Position Rscalar) (l : R),
    Position__mul__ p (@Number Rscalar s) = Some q /\
    Position__rmul__ p (@Number Rscalar s) = Some q /\
    q = @mkPosition Rscalar (x p * s) (y p * s) (z p * s) /\
    mag p = Ok l /\
    mag q = Ok (Rabs s * l) /\
    (0 < s -> getAngleRad Rlibm q = getAngleRad Rlibm p).
Proof.
  exists (Position_mul_scalar p s), (sqrt (sumsq p)).
  split; [reflexivity |]. split; [reflexivity |].
  split; [unfold Position_mul_scalar; apply Position_of_tuple_components |].
  split; [apply mag_real |].
  split; [rewrite mag_real; now rewrite sqrt_sumsq_scaled |].
  apply getAngleRad_scaled.
Qed.

(** X5.  [p / s] for a number [s] raises [ZeroDivisionError] when [s] is zero
    and is otherwise the Position of the three quotients; over the real
    numbers [*] and [/] by the same number that is not zero undo each
    other.  With any other operand [/] returns None. *)
Theorem truediv_inverts_mul (p : Position Rscalar) :
  (forall s : R, s <> 0 ->
     exists q,
       Position__truediv__ p (@Number Rscalar s) = Ok (Some q) /\
       q = @mkPosition Rscalar (x p / s) (y p / s) (z p / s) /\
       Position__mul__ q (@Number Rscalar s) = Some p /\
       Position__truediv__ (Position_mul_scalar p s) (@Number Rscalar s) = Ok (Some p)) /\
  Position__truediv__ p (@Number Rscalar 0) = Raise ZeroDivisionError /\
  (forall o, Position__truediv__ p (@APosition Rscalar o) = Ok None) /\
  Position__truediv__ p (FloatClass Rscalar) = Ok None /\
  Position__truediv__ p (IntClass Rscalar) = Ok None.
Proof.
  split; [| split; [| now repeat split]].
  - intros s Hs.
    assert (Hdiv : forall a, R_truediv a s = Ok (a / s))
      by (intros a; unfold R_truediv; now rewrite (Req_bool_false Hs)).
    exists (@mkPosition Rscalar (x p / s) (y p / s) (z p / s)).
    split.
    { unfold Position__truediv__, Position_truediv. simpl.
      rewrite !Hdiv. simpl. now rewrite Position_of_tuple_components. }
    split; [reflexivity |]. split.
    { unfold Position__mul__, Position_mul_scalar. simpl.
      rewrite Position_of_tuple_components. simpl.
      destruct p as [a b c]. simpl. f_equal. f_equal; field; exact Hs. }
    unfold Position__truediv__, Position_truediv, Position_mul_scalar. simpl.
    rewrite !Hdiv. simpl.
    destruct p as [a b c]. unfold Position_of_tuple, Position_init. simpl.
    f_equal. f_equal. f_equal; field; exact Hs.
  - unfold Position__truediv__, Position_truediv. simpl.
    unfold R_truediv, Req_bool. destruct (Req_dec_T 0 0); [reflexivity | congruence].
Qed.

(** X6.  Over the real numbers [normalize] is idempotent and keeps the
    direction: normalizing a normalized vector changes nothing, and the
    angle of the normalized vector is the angle of the vector. *)
Theorem normalize_idempotent (v : Position Rscalar) :
  exists u,
    normalize v = Ok u /\
    normalize u = Ok u /\
    getAngleRad Rlibm u = getAngleRad Rlibm v.
Proof.
  destruct (normalize_real_cases v) as (l & Hm & Hzero & Hpos).
  destruct (Rle_dec l 0) as [Hl|Hl].
  - destruct (Hzero Hl) as [_ Hn]. exists v. now repeat split.
  - apply Rnot_le_lt in Hl. destruct (Hpos Hl) as (Hn & Hscale & Hone).
    exists (@mkPosition Rscalar (x v / l) (y v / l) (z v / l)).
    split; [exact Hn |]. split.
    + destruct (normalize_real_cases
                  (@mkPosition Rscalar (x v / l) (y v / l) (z v / l)))
        as (l1 & Hm1 & _ & Hpos1).
      rewrite Hone in Hm1. injection Hm1 as <-.
      destruct (Hpos1 Rlt_0_1) as (Hn1 & _). rewrite Hn1. simpl.
      f_equal. f_equal; field; lra.
    + rewrite Hscale. apply getAngleRad_scaled.
      apply Rdiv_lt_0_compat; lra.
Qed.

Lemma sumsq_polar (r theta : R) : sumsq (polar r theta) = r * r.
Proof.
  unfold sumsq, polar. simpl.
  pose proof (sin2_cos2 theta) as H. unfold Rsqr in H. nra.
Qed.

Lemma acos_cos_upper (theta : R) :
  PI < theta < 2 * PI -> Ratan.acos (cos theta) = 2 * PI - theta.
Proof.
  intros [H1 H2].
  replace theta with ((theta - PI) + PI) at 1 by ring.
  rewrite neg_cos, acos_opp, acos_cos by lra. ring.
Qed.

(** X7.  [getAngleRad] recovers the direction of a point of the plane z = 0:
    over the real numbers, for the point at distance [r > 0] from the
    origin in the direction [theta], with [0 <= theta < 2 * PI], the
    magnitude is [r], the angle in radians is [theta] and the angle in
    degrees is [180 / PI * theta]. *)
Theorem getAngleRad_polar (r theta : R) :
  0 < r -> 0 <= theta < 2 * PI ->
  mag (polar r theta) = Ok r /\
  getAngleRad Rlibm (polar r theta) = Ok theta /\
  getAngleDeg Rlibm (polar r theta) = Ok (180 / PI * theta).
Proof.
  intros Hr [H0 H2].
  assert (Hl : sqrt (sumsq (polar r theta)) = r)
    by (rewrite sumsq_polar; apply sqrt_square; lra).
  assert (Hrad : getAngleRad Rlibm (polar r theta) = Ok theta).
  { rewrite getAngleRad_real_pos by (rewrite Hl; exact Hr).
    rewrite Hl. unfold polar at 1 2. simpl x. simpl y.
    replace (r * cos theta / r) with (cos theta) by (field; lra).
    destruct (Rle_dec theta PI) as [Hle|Hgt].
    - pose proof (sin_ge_0 theta H0 Hle) as Hs.
      rewrite Rle_bool_true by nra. f_equal. apply acos_cos. lra.
    - apply Rnot_le_lt in Hgt.
      pose proof (sin_lt_0 theta Hgt H2) as Hs.
      rewrite Rle_bool_false by nra. f_equal.
      rewrite acos_cos_upper by lra. ring. }
  split; [rewrite mag_real; now rewrite Hl |].
  split; [exact Hrad |].
  unfold getAngleDeg. rewrite Hrad.
  pose proof PI_RGT_0 as Hpi.
  pose proof (truediv_real 180 Hpi) as Hdiv. simpl in Hdiv. simpl. now rewrite Hdiv.
Qed.

(** X8.  Over the real numbers [getAngleDeg] never raises: it is the angle in
    radians times [180 / PI], and lies in [0, 360). *)
Theorem getAngleDeg_range (v : Position Rscalar) :
  exists a d : R,
    getAngleRad Rlibm v = Ok a /\
    getAngleDeg Rlibm v = Ok d /\
    d = 180 / PI * a /\
    0 <= d < 360.
Proof.
  destruct (getAngleRad_real_cases v) as (l & a & _ & Ha & _ & _ & _ & [Ha0 Ha2] & _).
  pose proof PI_RGT_0 as Hpi.
  exists a, (180 / PI * a).
  split; [exact Ha |]. split.
  - unfold getAngleDeg. rewrite Ha.
    pose proof (truediv_real 180 Hpi) as Hdiv. simpl in Hdiv. simpl. now rewrite Hdiv.
  - split; [reflexivity |].
    assert (Hk : 0 < 180 / PI) by (apply Rdiv_lt_0_compat; lra).
    split; [nra |].
    replace 360 with (180 / PI * (2 * PI)) by (field; lra).
    apply Rmult_lt_compat_l; lra.
Qed.

(** X9.  The angle is taken with the magnitude of the whole vector, z
    included, so it is the direction of the projection on the plane only
    for a vector of the plane.  Over the real numbers, for [x > 0] and
    [z <> 0] the angle of (x, 0, z) lies strictly between 0 and [PI / 2]
    and has the cosine [x / sqrt (x * x + z * z)], while the angle of its
    projection (x, 0, 0) is 0; and the angle of (0, 0, z), whose projection
    is the zero vector, is [PI / 2]. *)
Theorem getAngleRad_off_plane (vx vz : R) :
  0 < vx -> vz <> 0 ->
  exists a : R,
    getAngleRad Rlibm (@mkPosition Rscalar vx 0 vz) = Ok a /\
    0 < a < PI / 2 /\
    cos a = vx / sqrt (vx * vx + vz * vz) /\
    getAngleRad Rlibm (@mkPosition Rscalar vx 0 0) = Ok 0 /\
    getAngleRad Rlibm (@mkPosition Rscalar 0 0 vz) = Ok (PI / 2).
Proof.
  intros Hx Hz.
  pose proof PI_RGT_0 as Hpi.
  assert (Hs : sumsq (@mkPosition Rscalar vx 0 vz) = vx * vx + vz * vz)
    by (unfold sumsq; simpl; ring).
  assert (Hzz : 0 < vz * vz) by nra.
  assert (Hl : 0 < sqrt (vx * vx + vz * vz)) by (apply sqrt_lt_R0; nra).
  assert (Hsq : sqrt (vx * vx + vz * vz) * sqrt (vx * vx + vz * vz) = vx * vx + vz * vz)
    by (apply sqrt_sqrt; nra).
  set (l := sqrt (vx * vx + vz * vz)) in *.
  assert (Hxl : vx < l) by nra.
  assert (Ht : 0 < vx / l < 1).
  { split; [apply Rdiv_lt_0_compat; lra |].
    apply Rmult_lt_reg_r with l; [exact Hl |].
    unfold Rdiv. rewrite Rmult_assoc, Rinv_l by lra. lra. }
  exists (Ratan.acos (vx / l)).
  split.
  { rewrite getAngleRad_real_pos by (rewrite Hs; exact Hl).
    rewrite Hs. simpl x. simpl y. fold l.
    rewrite Rle_bool_true by lra. reflexivity. }
  split.
  { destruct (acos_bound_lt (vx / l)) as [Hlo Hhi]; [lra |].
    split; [exact Hlo |].
    destruct (Rlt_dec (Ratan.acos (vx / l)) (PI / 2)) as [Hlt|Hge]; [exact Hlt |].
    apply Rnot_lt_le in Hge.
    assert (Hc : cos (Ratan.acos (vx / l)) <= 0).
    { apply cos_le_0; lra. }
    rewrite cos_acos in Hc by lra. lra. }
  split; [apply cos_acos; lra |].
  split.
  - assert (Hs0 : sumsq (@mkPosition Rscalar vx 0 0) = vx * vx)
      by (unfold sumsq; simpl; ring).
    assert (Hl0 : sqrt (sumsq (@mkPosition Rscalar vx 0 0)) = vx)
      by (rewrite Hs0; apply sqrt_square; lra).
    rewrite getAngleRad_real_pos by (rewrite Hl0; exact Hx).
    rewrite Hl0. simpl x. simpl y. rewrite Rle_bool_true by lra.
    replace (vx / vx) with 1 by (field; lra). now rewrite acos_1.
  - assert (Hs0 : sumsq (@mkPosition Rscalar 0 0 vz) = vz * vz)
      by (unfold sumsq; simpl; ring).
    assert (Hl0 : 0 < sqrt (sumsq (@mkPosition Rscalar 0 0 vz)))
      by (rewrite Hs0; apply sqrt_lt_R0; exact Hzz).
    rewrite getAngleRad_real_pos by exact Hl0.
    simpl x. simpl y. rewrite Rle_bool_true by lra.
    replace (0 / sqrt (sumsq (@mkPosition Rscalar 0 0 vz))) with 0 by (field; lra).
    now rewrite acos_0.
Qed.

(** X10.  A link and the link between the same nodes taken the other way
    round.  Over the real numbers, for two points with the same z that
    differ in x or in y, the displacements [b - a] and [a - b] have the
    same positive magnitude, and their angles differ by [PI]. *)
Theorem reversed_displacement (a b : Position Rscalar) :
  z a = z b -> (x a <> x b \/ y a <> y b) ->
  exists l alpha beta : R,
    mag (Position_sub b a) = Ok l /\ mag (Position_sub a b) = Ok l /\ 0 < l /\
    getAngleRad Rlibm (Position_sub b a) = Ok alpha /\
    getAngleRad Rlibm (Position_sub a b) = Ok beta /\
    (beta = alpha + PI \/ beta = alpha - PI).
Proof.
  intros Hz Hxy.
  pose proof PI_RGT_0 as Hpi.
  set (v := Position_sub b a). set (w := Position_sub a b).
  assert (Hvx : x v = x b - x a)
    by (unfold v, Position_sub; now rewrite Position_of_tuple_components).
  assert (Hvy : y v = y b - y a)
    by (unfold v, Position_sub; now rewrite Position_of_tuple_components).
  assert (Hvz : z v = 0)
    by (unfold v, Position_sub; rewrite Position_of_tuple_components; simpl; lra).
  assert (Hwx : x w = - x v)
    by (rewrite Hvx; unfold w, Position_sub; rewrite Position_of_tuple_components; simpl; ring).
  assert (Hwy : y w = - y v)
    by (rewrite Hvy; unfold w, Position_sub; rewrite Position_of_tuple_components; simpl; ring).
  assert (Hsw : sumsq w = sumsq v) by (unfold w, v; apply sumsq_sub_sym).
  assert (Hsv : sumsq v = x v * x v + y v * y v) by (unfold sumsq; rewrite Hvz; ring).
  assert (Hpos : 0 < sumsq v).
  { rewrite Hsv.
    pose proof (Rle_0_sqr (x v)) as Hx2. pose proof (Rle_0_sqr (y v)) as Hy2.
    unfold Rsqr in Hx2, Hy2.
    destruct Hxy as [H|H].
    - assert (Hne : x v <> 0) by (rewrite Hvx; lra).
      pose proof (Rsqr_pos_lt (x v) Hne) as Hp. unfold Rsqr in Hp. lra.
    - assert (Hne : y v <> 0) by (rewrite Hvy; lra).
      pose proof (Rsqr_pos_lt (y v) Hne) as Hp. unfold Rsqr in Hp. lra. }
  assert (Hl : 0 < sqrt (sumsq v)) by (apply sqrt_lt_R0; exact Hpos).
  pose proof (mag_real_square v) as Hsq.
  exists (sqrt (sumsq v)).
  rewrite !mag_real, Hsw.
  rewrite (getAngleRad_real_pos v Hl).
  rewrite (getAngleRad_real_pos w) by (rewrite Hsw; exact Hl).
  rewrite Hsw, Hwx, Hwy.
  set (l := sqrt (sumsq v)) in *.
  replace (- x v / l) with (- (x v / l)) by (field; lra).
  rewrite acos_opp.
  destruct (Rtotal_order (y v) 0) as [Hy|[Hy|Hy]].
  - rewrite (Rle_bool_false Hy). rewrite Rle_bool_true by lra.
    eexists; eexists. repeat split; try reflexivity; try assumption.
    right. ring.
  - rewrite Hy. rewrite Ropp_0. rewrite !Rle_bool_true by lra.
    assert (Hxl : x v * x v = l * l) by (rewrite Hsq, Hsv, Hy; ring).
    destruct (Rtotal_order (x v) 0) as [Hx|[Hx|Hx]].
    + assert (Hxe : x v = - l) by nra.
      eexists; eexists. repeat split; try reflexivity; try assumption.
      right. rewrite Hxe.
      replace (- l / l) with (- (1)) by (field; lra).
      rewrite acos_opp, acos_1. ring.
    + rewrite Hx in Hxl. nra.
    + assert (Hxe : x v = l) by nra.
      eexists; eexists. repeat split; try reflexivity; try assumption.
      left. rewrite Hxe.
      replace (l / l) with 1 by (field; lra).
      rewrite acos_1. ring.
  - rewrite Rle_bool_true by lra. rewrite Rle_bool_false by lra.
    eexists; eexists. repeat split; try reflexivity; try assumption.
    left. ring.
Qed.

End RealVectors.

Lemma truediv_inverts_mul_witness :
  Position__truediv__ (Position_mul_scalar (@mkPosition Rscalar 1%R 2%R 3%R) 2%R)
    (@Number Rscalar 2%R)
  = Ok (Some (@mkPosition Rscalar 1%R 2%R 3%R)).
Proof.
  destruct (proj1 (truediv_inverts_mul (@mkPosition Rscalar 1%R 2%R 3%R)) 2%R
              ltac:(lra)) as (q & _ & _ & _ & H).
  exact H.
Defined.

Lemma getAngleRad_polar_witness :
  getAngleRad Rlibm (polar 2 0) = Ok 0%R.
Proof.
  refine (proj1 (proj2 (@getAngleRad_polar 2%R 0%R _ _))).
  - lra.
  - pose proof PI_RGT_0. lra.
Defined.

Lemma getAngleRad_off_plane_witness :
  exists a : R,
    getAngleRad Rlibm (@mkPosition Rscalar 1%R 0%R 1%R) = Ok a /\ (0 < a < PI / 2)%R.
Proof.
  destruct (@getAngleRad_off_plane 1%R 1%R ltac:(lra) ltac:(lra)) as (a & H1 & H2 & _).
  exists a. split; assumption.
Defined.

Lemma reversed_displacement_witness :
  exists l alpha beta : R,
    mag (Position_sub (@mkPosition Rscalar 3%R 4%R 0%R) (@mkPosition Rscalar 0%R 0%R 0%R))
    = Ok l /\
    mag (Position_sub (@mkPosition Rscalar 0%R 0%R 0%R) (@mkPosition Rscalar 3%R 4%R 0%R))
    = Ok l /\
    getAngleRad Rlibm
      (Position_sub (@mkPosition Rscalar 3%R 4%R 0%R) (@mkPosition Rscalar 0%R 0%R 0%R))
    = Ok alpha /\
    getAngleRad Rlibm
      (Position_sub (@mkPosition Rscalar 0%R 0%R 0%R) (@mkPosition Rscalar 3%R 4%R 0%R))
    = Ok beta /\
    (beta = alpha + PI \/ beta = alpha - PI)%R.
Proof.
  destruct (@reversed_displacement (@mkPosition Rscalar 0%R 0%R 0%R)
              (@mkPosition Rscalar 3%R 4%R 0%R) eq_refl)
    as (l & alpha & beta & H1 & H2 & _ & H3 & H4 & H5).
  - left. simpl. lra.
  - exists l, alpha, beta. repeat split; assumption.
Defined.

(** * Further properties of the equalities *)

Section Equalities.

Lemma Req_bool_true_iff (a b : R) : Req_bool a b = true <-> a = b.
Proof.
  unfold Req_bool. destruct (Req_dec_T a b); split; congruence.
Qed.

Lemma Position_eq_real (a b : Position Rscalar) : Position_eq a b = true <-> a = b.
Proof.
  unfold Position_eq. simpl. destruct a as [ax ay az], b as [bx by_ bz]. simpl.
  split.
  - destruct (Req_bool ax bx) eqn:Hx; [| discriminate].
    destruct (Req_bool ay by_) eqn:Hy; [| discriminate].
    destruct (Req_bool az bz) eqn:Hz; [| discriminate].
    apply Req_bool_true_iff in Hx, Hy, Hz. now subst.
  - intros H. injection H as -> -> ->.
    now rewrite !(proj2 (Req_bool_true_iff _ _) eq_refl).
Qed.

Lemma opt_ne_real (a b : option R) : @opt_ne Rscalar a b = false <-> a = b.
Proof.
  destruct a as [u|], b as [v|]; simpl; split; try congruence.
  - intros H. apply negb_false_iff, Req_bool_true_iff in H. now subst.
  - intros H. injection H as ->. apply negb_false_iff, Req_bool_true_iff. reflexivity.
Qed.

(** X11.  Over the real numbers [==] on Positions and on Nodes is equality:
    two Positions are equal exactly when their three coordinates are, two
    Nodes exactly when their names and their positions are.  On Python
    floats [==] is not reflexive: a Position, and a Node at a Position, is
    equal to itself exactly when none of its coordinates is a NaN. *)
Theorem Position_Node_eq_decide :
  (forall a b : Position Rscalar, Position_eq a b = true <-> a = b) /\
  (forall n m : Node Rscalar, Node_eq n m = true <-> n = m) /\
  (forall (pw rt : PrimFloat.float -> py PrimFloat.float)
          (p : Position (binary64_with pw rt)) (name : string),
      Position_eq p p =
        negb (PrimFloat.is_nan (x p) || PrimFloat.is_nan (y p) || PrimFloat.is_nan (z p)) /\
      Node_eq (mkNode name p) (mkNode name p) = Position_eq p p).
Proof.
  split; [exact Position_eq_real |]. split.
  - intros n m. unfold Node_eq. destruct n as [nn np], m as [mn mp]. simpl.
    split.
    + destruct (String.eqb_spec nn mn) as [->|]; [| discriminate].
      destruct (Position_eq np mp) eqn:Hp; [| discriminate].
      apply Position_eq_real in Hp. now subst.
    + intros H. injection H as -> ->. rewrite String.eqb_refl.
      now rewrite (proj2 (Position_eq_real mp mp) eq_refl).
  - intros pw rt p name. split.
    + unfold Position_eq, PrimFloat.is_nan. simpl.
      destruct (PrimFloat.eqb (x p) (x p)), (PrimFloat.eqb (y p) (y p)),
        (PrimFloat.eqb (z p) (z p)); reflexivity.
    + unfold Node_eq. simpl. rewrite String.eqb_refl.
      now destruct (Position_eq p p).
Qed.

(** X12.  [Link.__eq__] does not look at the name.  Two Links as the
    constructor builds them are equal exactly when their node names are,
    in the same order, whatever their names are; over the real numbers two
    Links are equal exactly when their node names, lengths and angles
    are. *)
Theorem Link_eq_ignores_name :
  (forall (S : Scalar) (name name' n1 n2 n1' n2' : string) (len ang len' ang' : option S),
      Link_eq (Link_init name n1 n2 len ang) (Link_init name' n1' n2' len' ang') =
      String.eqb n1 n1' && String.eqb n2 n2') /\
  (forall l k : Link Rscalar,
      Link_eq l k = true <->
      node1_Name l = node1_Name k /\ node2_Name l = node2_Name k /\
      length l = length k /\ angleRad l = angleRad k).
Proof.
  split.
  - intros S name name' n1 n2 n1' n2' len ang len' ang'.
    unfold Link_eq, Link_init. simpl.
    destruct (String.eqb n1 n1'), (String.eqb n2 n2'); reflexivity.
  - intros l k. unfold Link_eq.
    destruct (String.eqb_spec (node1_Name l) (node1_Name k)) as [H1|H1]; simpl.
    2:{ split; [discriminate | intros (H & _); contradiction]. }
    destruct (String.eqb_spec (node2_Name l) (node2_Name k)) as [H2|H2]; simpl.
    2:{ split; [discriminate | intros (_ & H & _); contradiction]. }
    destruct (@opt_ne Rscalar (length l) (length k)) eqn:H3.
    { split; [discriminate |]. intros (_ & _ & H & _).
      apply opt_ne_real in H. congruence. }
    destruct (@opt_ne Rscalar (angleRad l) (angleRad k)) eqn:H4.
    { split; [discriminate |]. intros (_ & _ & _ & H).
      apply opt_ne_real in H. congruence. }
    apply opt_ne_real in H3, H4. now repeat split.
Qed.

End Equalities.

(** * Further properties of the import *)

Section ImportedFile.

Variable S : Scalar.
Variable L : Libm S.
Variable float_of_str : string -> option S.

Ltac by_directive raw s Hd :=
  let kw := fresh "kw" in
  let parts := fresh "parts" in
  destruct (directive_of raw) as [[kw parts]|] eqn:Hd;
  [ rewrite (@process_line_run S float_of_str raw kw parts s Hd);
    destruct (keyword_cases kw) as [?|[?|[?|[?|[?|(?&?&?&?&?)]]]]]; try subst kw;
    [ rewrite directive_title | rewrite directive_material
    | rewrite directive_static_factor | rewrite directive_node
    | rewrite directive_link | rewrite directive_unknown by assumption ]
  | rewrite (@process_line_skipped S float_of_str raw Hd) ].

Lemma ImportFromFile_cons (raw : string) (post : list string) (s : TrussController S) :
  ImportFromFile L float_of_str (FileLines (raw :: post)) s =
  match process_line float_of_str raw s with
  | (Ok _, s1) => ImportFromFile L float_of_str (FileLines post) s1
  | (Raise e, s1) => (Raise e, s1)
  end.
Proof.
  simpl. unfold bind at 1 2.
  destruct (process_line float_of_str raw s) as [[[]|e] s1]; reflexivity.
Qed.

(** ** Lines that are not directives *)

(** X14.  A blank line and a comment do nothing, not even print: processing
    one returns the state it was given, and the import of a file is the
    import of the file without the line, output included. *)
Theorem ImportFromFile_skips_blank_and_comment (raw : string) :
  blank_or_comment raw = true ->
  forall (pre post : list string) (s : TrussController S),
    process_line float_of_str raw s = (Ok tt, s) /\
    ImportFromFile L float_of_str (FileLines (pre ++ raw :: post)) s =
    ImportFromFile L float_of_str (FileLines (pre ++ post)) s.
Proof.
  intros H pre post s.
  assert (Hd : directive_of raw = None).
  { unfold directive_of. unfold blank_or_comment in H. now rewrite H. }
  split.
  - now rewrite (@process_line_skipped S float_of_str raw Hd).
  - rewrite !ImportFromFile_app.
    destruct (for_each (process_line float_of_str) pre s) as [[[]|e] s1]; [| reflexivity].
    now rewrite ImportFromFile_cons, (@process_line_skipped S float_of_str raw Hd).
Qed.

Lemma process_line_unrecognized (raw : string) (s : TrussController S) :
  unrecognized raw = true ->
  process_line float_of_str raw s = (Ok tt, echoed (strip raw) s).
Proof.
  unfold unrecognized. intros H.
  destruct (directive_of raw) as [[kw parts]|] eqn:Hd; [| discriminate].
  apply negb_true_iff in H. unfold recognized in H.
  repeat (apply orb_false_iff in H; destruct H as [H ?]).
  rewrite (@process_line_run S float_of_str raw kw parts s Hd).
  rewrite directive_unknown; [reflexivity | | | | |]; now apply String.eqb_neq.
Qed.


(** ** Looking nodes up *)

Lemma getNode_in_app (ns ms : list (Node S)) (name : string) :
  getNode_in (ns ++ ms) name =
  match getNode_in ns name with
  | Some n => Some n
  | None => getNode_in ms name
  end.
Proof.
  induction ns as [|a ns IH]; simpl; [reflexivity |].
  destruct (String.eqb (Node_name a) name); [reflexivity | exact IH].
Qed.

(** X16.  [getNode] returns the first node of the list that has the name, and
    None exactly when [hasNode] is False, that is when no node has the
    name.  [TrussModel.getNode] and the controller's [getNode] and
    [hasNode] read the same list and change nothing. *)
Theorem getNode_first_match (ns : list (Node S)) (name : string) :
  match getNode_in ns name with
  | Some n =>
      hasNode_in ns name = true /\ Node_name n = name /\
      exists pre post,
        ns = (pre ++ n :: post)%list /\ Forall (fun m => Node_name m <> name) pre
  | None =>
      hasNode_in ns name = false /\ Forall (fun m => Node_name m <> name) ns
  end /\
  (forall s : TrussController S,
      getNode name s = (Ok (TrussModel_getNode (truss s) name), s) /\
      hasNode name s =
        (Ok (match TrussModel_getNode (truss s) name with Some _ => true | None => false end),
         s)).
Proof.
  split.
  - induction ns as [|a ns IH]; simpl.
    + split; [reflexivity | constructor].
    + destruct (String.eqb_spec (Node_name a) name) as [He|Hne].
      * split; [reflexivity |]. split; [exact He |].
        exists [], ns. split; [reflexivity | constructor].
      * destruct (getNode_in ns name) as [n|].
        -- destruct IH as (Hh & Hn & pre & post & -> & Hpre).
           split; [exact Hh |]. split; [exact Hn |].
           exists (a :: pre), post. split; [reflexivity | now constructor].
        -- destruct IH as [Hh Hall]. split; [exact Hh | now constructor].
  - intros s. unfold getNode, hasNode, TrussModel_getNode, bind, get_truss, ret.
    split; [reflexivity |]. now rewrite hasNode_in_getNode_in.
Qed.

(** ** What the import does to the nodes *)

(** A property of the node list that every line keeps is kept by the
    import, whether it raises or not. *)
Lemma ImportFromFile_nodes_invariant (P : list (Node S) -> Prop) (file : FileAccess) :
  (forall raw ns, P ns -> P (nodes_step float_of_str raw ns)) ->
  preserves (fun s => P (nodes (truss s))) (ImportFromFile L float_of_str file).
Proof.
  intros Hstep.
  assert (Hp : forall o, preserves (fun s => P (nodes (truss s))) (print (S:=S) o))
    by (intros o s H; exact H).
  destruct file as [| | lines]; simpl; try apply Hp.
  apply pres_bind; [apply pres_for_each | intros _].
  { intros raw s H. rewrite process_line_nodes. now apply Hstep. }
  apply pres_bind; [| intros _].
  { intros s H. now rewrite calcLinkVals_nodes. }
  apply pres_bind; [| intros _; apply Hp].
  intros s H. now rewrite displayReport_truss.
Qed.

Lemma nodes_step_cases (raw : string) (ns : list (Node S)) :
  nodes_step float_of_str raw ns = ns \/
  exists name vx vy,
    node_line float_of_str raw = Some (name, vx, vy) /\
    hasNode_in ns name = false /\
    nodes_step float_of_str raw ns = (ns ++ [mkNode name (mkPosition vx vy (of_Z S 0))])%list.
Proof.
  unfold nodes_step.
  destruct (node_line float_of_str raw) as [[[name vx] vy]|]; [| now left].
  destruct (hasNode_in ns name) eqn:Hn; [now left |].
  right. exists name, vx, vy. now repeat split.
Qed.

(** X17.  The nodes that the import creates lie in the plane z = 0: an import
    into a model whose nodes all have z = 0 gives such a model, whatever
    the file is and however the import ends. *)
Theorem ImportFromFile_nodes_planar (file : FileAccess) (s : TrussController S) :
  planar s -> planar (snd (ImportFromFile L float_of_str file s)).
Proof.
  unfold planar.
  apply (@ImportFromFile_nodes_invariant
           (Forall (fun n => z (Node_position n) = of_Z S 0)) file).
  intros raw ns H.
  destruct (nodes_step_cases raw ns) as [->|(name & vx & vy & _ & _ & ->)]; [exact H |].
  apply Forall_app. split; [exact H |]. now repeat constructor.
Qed.

Lemma fold_names_unknown (lines : list string) (name : string) :
  ~ In name (node_names float_of_str lines) ->
  hasNode_in (fold_left (fun ns raw => nodes_step float_of_str raw ns) lines []) name = false.
Proof.
  intros Hnot. rewrite hasNode_in_names, fold_nodes_step_names. simpl.
  destruct (name_known (fold_left insert_new (node_names float_of_str lines) []) name) eqn:Hk;
    [| reflexivity].
  apply name_known_In in Hk.
  apply (@fold_insert_new S float_of_str (node_names float_of_str lines) [] (NoDup_nil _)) in Hk.
  destruct Hk as [[]|Hk]. contradiction.
Qed.


(** ** Importing into a model that is not empty *)

Lemma process_line_links (raw : string) (s : TrussController S) :
  links (truss (snd (process_line float_of_str raw s))) =
  (links (truss s) ++
   match link_line raw with
   | Some (n1, n2) => [mkLink "" n1 n2 None None]
   | None => []
   end)%list.
Proof.
  unfold link_line.
  by_directive raw s Hd.
  - destruct (nth_error parts 1); simpl; now rewrite app_nil_r.
  - destruct (unpack3_floats float_of_str (skipn 1 parts)) as [[[u v] w]|[]];
      simpl; now rewrite app_nil_r.
  - destruct (nth_error parts 1) as [p|]; [destruct (float_of_str p) |];
      simpl; now rewrite app_nil_r.
  - destruct (nth_error parts 1) as [p1|]; [| simpl; now rewrite app_nil_r].
    destruct (unpack2_floats float_of_str (skipn 2 parts)) as [[vx vy]|[]];
      try (simpl; now rewrite app_nil_r).
    simpl (truss _).
    destruct (hasNode_in (nodes (truss s)) (strip p1)); simpl; now rewrite app_nil_r.
  - simpl (String.eqb _ _). cbv iota.
    destruct (nth_error parts 1), (nth_error parts 2), (nth_error parts 3);
      simpl; try reflexivity; now rewrite app_nil_r.
  - apply String.eqb_neq in H3. rewrite H3. simpl. now rewrite app_nil_r.
  - simpl. now rewrite app_nil_r.
Qed.

Lemma for_each_links (lines : list string) (s : TrussController S) :
  fst (for_each (process_line float_of_str) lines s) = Ok tt ->
  links (truss (snd (for_each (process_line float_of_str) lines s))) =
  (links (truss s) ++ link_lines S lines)%list.
Proof.
  revert s. induction lines as [|raw lines IH]; intros s H; simpl in *.
  - now rewrite app_nil_r.
  - unfold bind in *.
    pose proof (process_line_links raw s) as Hl.
    destruct (process_line float_of_str raw s) as [[[]|e] s1]; simpl in *; [| discriminate].
    rewrite (IH s1 H), Hl, <- app_assoc.
    now destruct (link_line raw) as [[n1 n2]|].
Qed.

Lemma calcLinkVals_in_length (ns : list (Node S)) (ls : list (Link S)) :
  List.length (fst (calcLinkVals_in L ns ls)) = List.length ls.
Proof.
  rewrite <- (length_map (@Link_name S)), calcLinkVals_in_names. apply length_map.
Qed.

(** After the line loop the number of links does not change. *)
Lemma ImportFromFile_links_length (lines : list string) (s : TrussController S) :
  List.length (links (truss (snd (ImportFromFile L float_of_str (FileLines lines) s)))) =
  List.length (links (truss (snd (for_each (process_line float_of_str) lines s)))).
Proof.
  simpl. unfold bind at 1.
  destruct (for_each (process_line float_of_str) lines s) as [[[]|e] s1]; [| reflexivity].
  simpl. unfold bind at 1. rewrite calcLinkVals_run.
  destruct (snd (calcLinkVals_in L (nodes (truss s1)) (links (truss s1)))) as [ex|];
    simpl; [apply calcLinkVals_in_length |].
  unfold bind at 1.
  match goal with |- context [displayReport ?s2] =>
    pose proof (displayReport_truss s2) as Hd; destruct (displayReport s2) as [[[]|e] s3]
  end; simpl in *; rewrite Hd; simpl; apply calcLinkVals_in_length.
Qed.

Lemma fold_nodes_step_known (lines : list string) (ns : list (Node S)) :
  (forall n, In n (node_names float_of_str lines) -> hasNode_in ns n = true) ->
  fold_left (fun ns raw => nodes_step float_of_str raw ns) lines ns = ns.
Proof.
  induction lines as [|raw lines IH]; intros H; simpl in *; [reflexivity |].
  assert (Hstep : nodes_step float_of_str raw ns = ns).
  { unfold nodes_step.
    destruct (node_line float_of_str raw) as [[[n vx] vy]|]; [| reflexivity].
    rewrite (H n); [reflexivity | now left]. }
  rewrite Hstep. apply IH. intros n Hn. apply H.
  destruct (node_line float_of_str raw) as [[[m vx] vy]|]; [now right | exact Hn].
Qed.

Lemma fold_nodes_step_knows (lines : list string) (ns : list (Node S)) (n : string) :
  In n (node_names float_of_str lines) ->
  hasNode_in (fold_left (fun ns raw => nodes_step float_of_str raw ns) lines ns) n = true.
Proof.
  revert ns. induction lines as [|raw lines IH]; intros ns H; simpl in *; [contradiction |].
  destruct (node_line float_of_str raw) as [[[m vx] vy]|] eqn:Hl.
  - destruct H as [->|H]; [| now apply IH].
    assert (Hk : hasNode_in (nodes_step float_of_str raw ns) n = true).
    { unfold nodes_step. rewrite Hl. destruct (hasNode_in ns n) eqn:Hn; [exact Hn |].
      rewrite hasNode_in_getNode_in, getNode_in_app.
      destruct (getNode_in ns n); [reflexivity |]. simpl. now rewrite String.eqb_refl. }
    clear IH. revert Hk. generalize (nodes_step float_of_str raw ns).
    induction lines as [|r lines IH']; intros ms Hk; simpl; [exact Hk |].
    apply IH'. destruct (nodes_step_cases r ms) as [->|(a & ax & ay & _ & _ & ->)]; [exact Hk |].
    rewrite hasNode_in_getNode_in, getNode_in_app.
    rewrite hasNode_in_getNode_in in Hk. now destruct (getNode_in ms n).
  - now apply IH.
Qed.


End ImportedFile.

Lemma ImportFromFile_skips_blank_and_comment_witness :
  blank_or_comment "  # nodes" = true /\
  ImportFromFile Rlibm (float_of_digits Rscalar)
    (FileLines (["node, A, 0, 0"] ++ "  # nodes" :: ["node, B, 3, 4"]))
    (TrussController_init Rscalar) =
  ImportFromFile Rlibm (float_of_digits Rscalar)
    (FileLines (["node, A, 0, 0"] ++ ["node, B, 3, 4"]))
    (TrussController_init Rscalar).
Proof.
  split; [reflexivity |].
  exact (proj2 (@ImportFromFile_skips_blank_and_comment Rscalar Rlibm (float_of_digits Rscalar)
                  "  # nodes" eq_refl
                  ["node, A, 0, 0"] ["node, B, 3, 4"] (TrussController_init Rscalar))).
Defined.


Lemma ImportFromFile_nodes_planar_witness :
  planar (TrussController_init Rscalar) /\
  planar (snd (ImportFromFile Rlibm (float_of_digits Rscalar)
                 (FileLines ["node, A, 0, 0"; "node, B, 3, 4"])
                 (TrussController_init Rscalar))).
Proof.
  assert (H : planar (TrussController_init Rscalar)) by constructor.
  split; [exact H |].
  exact (@ImportFromFile_nodes_planar Rscalar Rlibm (float_of_digits Rscalar)
           (FileLines ["node, A, 0, 0"; "node, B, 3, 4"]) (TrussController_init Rscalar) H).
Defined.



(** * Further properties of the lines of a file *)

Section Lines.

Variable S : Scalar.
Variable L : Libm S.
Variable float_of_str : string -> option S.

(** ** A directive cut short *)

Lemma nth_error_short (A : Type) (l : list A) (n : nat) :
  (List.length l <? Datatypes.S n)%nat = true -> nth_error l n = None.
Proof. intros H. apply Nat.ltb_lt in H. apply nth_error_None. lia. Qed.

Lemma process_line_truncated (raw : string) (s : TrussController S) :
  truncated raw = true ->
  process_line float_of_str raw s = (Raise IndexError, echoed (strip raw) s).
Proof.
  unfold truncated. intros H.
  destruct (directive_of raw) as [[kw parts]|] eqn:Hd; [| discriminate].
  rewrite (@process_line_run S float_of_str raw kw parts s Hd).
  destruct (String.eqb_spec kw "title") as [->|Ht].
  { simpl in H. rewrite directive_title, (nth_error_short parts 1 H). reflexivity. }
  destruct (String.eqb_spec kw "static_factor") as [->|Hs].
  { simpl in H. rewrite directive_static_factor, (nth_error_short parts 1 H). reflexivity. }
  destruct (String.eqb_spec kw "node") as [->|Hn].
  { simpl in H. rewrite directive_node, (nth_error_short parts 1 H). reflexivity. }
  simpl in H.
  destruct (String.eqb_spec kw "link") as [->|Hl]; [| discriminate].
  rewrite directive_link.
  apply Nat.ltb_lt in H.
  destruct parts as [|p0 [|p1 [|p2 [|p3 parts]]]]; simpl in H; try lia; reflexivity.
Qed.

(** X20.  A directive cut short of a field it indexes ends the import.  A
    [title], [static_factor] or [node] line without a field after the
    keyword, and a [link] line with fewer than three, raises [IndexError]
    after it has printed itself and changes nothing else; the [except]
    clause does not catch it.  So when such a line follows lines that are
    processed to the end, [ImportFromFile] raises [IndexError] there: the
    lines after it are not read, and the derivation pass, the report and
    the drawing do not run. *)
Theorem truncated_line_aborts_import (raw : string) :
  truncated raw = true ->
  forall (pre post : list string) (s : TrussController S),
    forallb (fun r => negb (truncated r)) pre = true ->
    process_line float_of_str raw s = (Raise IndexError, echoed (strip raw) s) /\
    ImportFromFile L float_of_str (FileLines (pre ++ raw :: post)) s =
    (Raise IndexError,
     echoed (strip raw) (snd (for_each (process_line float_of_str) pre s))).
Proof.
  intros H pre post s Hpre.
  split; [now apply process_line_truncated |].
  rewrite ImportFromFile_app.
  pose proof (for_each_returns float_of_str pre s Hpre) as Hok.
  destruct (for_each (process_line float_of_str) pre s) as [[[]|e] s1]; [| discriminate].
  simpl. unfold bind at 1 2. now rewrite (process_line_truncated raw s1 H).
Qed.

(** ** The keyword *)

(** The keyword of a line is read without its case and without the
    blanks around it, and the directive reads the fields after it only:
    two lines whose fields after the first are the same and whose first
    fields are the same word up to case and blanks give the same result,
    the same model and the same view. *)
Lemma keyword_case_insensitive (raw raw' p0 p0' : string) (rest : list string)
        (s : TrussController S) :
  blank_or_comment raw = false -> blank_or_comment raw' = false ->
  split_comma (strip raw) = p0 :: rest ->
  split_comma (strip raw') = p0' :: rest ->
  lower (strip p0) = lower (strip p0') ->
  fst (process_line float_of_str raw s) = fst (process_line float_of_str raw' s) /\
  same_model (snd (process_line float_of_str raw s)) (snd (process_line float_of_str raw' s)).
Proof.
  intros Hb Hb' Hp Hp' Hkw.
  assert (Hd : directive_of raw = Some (lower (strip p0), p0 :: rest)).
  { unfold directive_of. unfold blank_or_comment in Hb. now rewrite Hb, Hp. }
  assert (Hd' : directive_of raw' = Some (lower (strip p0), p0' :: rest)).
  { unfold directive_of. unfold blank_or_comment in Hb'. now rewrite Hb', Hp', Hkw. }
  rewrite (@process_line_run S float_of_str raw _ _ s Hd).
  rewrite (@process_line_run S float_of_str raw' _ _ s Hd').
  assert (Hsame : directive float_of_str (lower (strip p0)) (p0' :: rest) =
                  directive float_of_str (lower (strip p0)) (p0 :: rest)) by reflexivity.
  rewrite Hsame.
  destruct (@blind_directive S float_of_str (lower (strip p0)) (p0 :: rest)
              (mkController (truss s) (view s) (stdout s ++ [ProcessingLine (strip raw)]))
              (mkController (truss s) (view s) (stdout s ++ [ProcessingLine (strip raw')])))
    as [Hr Hs]; [split; reflexivity |].
  destruct (directive float_of_str (lower (strip p0)) (p0 :: rest)
              (mkController (truss s) (view s) (stdout s ++ [ProcessingLine (strip raw)])))
    as [r1 s1].
  destruct (directive float_of_str (lower (strip p0)) (p0 :: rest)
              (mkController (truss s) (view s) (stdout s ++ [ProcessingLine (strip raw')])))
    as [r2 s2].
  simpl in Hr, Hs. subst r2.
  destruct r1 as [[]|[]]; simpl; split; trivial.
Qed.

(** ** The title *)

Lemma has_char_lstrip (c : ascii) (p : ascii -> bool) (s : string) :
  has_char c s = false -> has_char c (lstrip_by p s) = false.
Proof.
  induction s as [|d s IH]; simpl; [trivial |].
  intros H. apply orb_false_iff in H. destruct H as [Hd Hs].
  destruct (p d); [now apply IH |]. simpl. now rewrite Hd, Hs.
Qed.

Lemma has_char_rstrip (c : ascii) (p : ascii -> bool) (s : string) :
  has_char c s = false -> has_char c (rstrip_by p s) = false.
Proof.
  induction s as [|d s IH]; simpl; [trivial |].
  intros H. apply orb_false_iff in H. destruct H as [Hd Hs].
  specialize (IH Hs).
  destruct (rstrip_by p s) as [|e r].
  - destruct (p d); simpl; [reflexivity | now rewrite Hd].
  - simpl in *. now rewrite Hd, IH.
Qed.

Lemma has_char_split_comma (s p : string) :
  In p (split_comma s) -> has_char "," p = false.
Proof.
  revert p. induction s as [|c s IH]; simpl.
  - intros p [<-|[]]. reflexivity.
  - destruct (Ascii.eqb c ",") eqn:Hc.
    + intros p [<-|H]; [reflexivity | now apply IH].
    + destruct (split_comma s) as [|h t] eqn:Hs.
      * intros p [<-|[]]. simpl. now rewrite Hc.
      * intros p [<-|H].
        -- simpl. rewrite Hc. apply IH. now left.
        -- apply IH. now right.
Qed.

Lemma first_char_lstrip (p : ascii -> bool) (s : string) (c : ascii) :
  first_char (lstrip_by p s) = Some c -> p c = false.
Proof.
  induction s as [|d s IH]; simpl; [discriminate |].
  destruct (p d) eqn:Hd; [exact IH |].
  simpl. intros H. injection H as <-. exact Hd.
Qed.

Lemma first_char_rstrip (p : ascii -> bool) (s : string) (c : ascii) :
  first_char (rstrip_by p s) = Some c -> first_char s = Some c.
Proof.
  destruct s as [|d s]; simpl; [discriminate |].
  destruct (rstrip_by p s); [destruct (p d) |]; simpl; congruence.
Qed.

Lemma last_char_rstrip (p : ascii -> bool) (s : string) (c : ascii) :
  last_char (rstrip_by p s) = Some c -> p c = false.
Proof.
  induction s as [|d s IH]; simpl; [discriminate |].
  destruct (rstrip_by p s) as [|e r] eqn:Hr.
  - destruct (p d) eqn:Hd; simpl; [discriminate |].
    intros H. injection H as <-. exact Hd.
  - intros H. apply IH. exact H.
Qed.


(** ** Position.set *)

Lemma has_char_remove_char (c d : ascii) (s : string) :
  has_char c s = false \/ c = d -> has_char c (remove_char d s) = false.
Proof.
  induction s as [|e s IH]; simpl; [trivial |].
  intros H. destruct (Ascii.eqb_spec e d) as [->|Hne].
  - apply IH. destruct H as [H|H]; [| now right].
    apply orb_false_iff in H. now left.
  - simpl. destruct H as [H| ->].
    + apply orb_false_iff in H. destruct H as [He Hs]. rewrite He. apply IH. now left.
    + rewrite (proj2 (Ascii.eqb_neq e d) Hne). apply IH. now right.
Qed.

Lemma has_char_cells (c : ascii) (s p : string) :
  has_char c s = false -> In p (split_comma s) -> has_char c p = false.
Proof.
  revert p. induction s as [|d s IH]; simpl.
  - intros p _ [<-|[]]. reflexivity.
  - intros p H Hp. apply orb_false_iff in H. destruct H as [Hd Hs].
    destruct (Ascii.eqb d ",").
    + destruct Hp as [<-|Hp]; [reflexivity | now apply IH].
    + destruct (split_comma s) as [|h r] eqn:Hc.
      * destruct Hp as [<-|[]]. simpl. now rewrite Hd.
      * destruct Hp as [<-|Hp].
        -- simpl. rewrite Hd. apply IH; [exact Hs | now left].
        -- apply IH; [exact Hs | now right].
Qed.

(** X22.  [set] from a string.  The parentheses of the string are dropped,
    wherever they are, and the rest is cut at its commas, so that no cell
    holds a parenthesis.  The call succeeds exactly when there are at
    least three cells and [float] accepts the first three, which become
    x, y and z; further cells are not read.  Otherwise it raises
    [ValueError] at the first of the three cells that [float] rejects,
    or [IndexError] at the first that is missing.  Neither the outcome nor
    the new coordinates depend on the tuple argument or on the coordinates
    before the call. *)
Theorem Position_set_from_string (self : Position S) (str : string)
        (tup : option (S * S * S)) :
  let cells := split_comma (strip (remove_char ")" (remove_char "(" str))) in
  Forall (fun c => has_char "(" c = false /\ has_char ")" c = false) cells /\
  match cells with
  | c0 :: c1 :: c2 :: _ =>
      match float_of_str c0, float_of_str c1, float_of_str c2 with
      | Some vx, Some vy, Some vz =>
          Position_set float_of_str self (Some str) tup = Ok (mkPosition vx vy vz)
      | _, _, _ => Position_set float_of_str self (Some str) tup = Raise ValueError
      end
  | c0 :: c1 :: [] =>
      Position_set float_of_str self (Some str) tup =
      match float_of_str c0, float_of_str c1 with
      | Some _, Some _ => Raise IndexError
      | _, _ => Raise ValueError
      end
  | c0 :: [] =>
      Position_set float_of_str self (Some str) tup =
      match float_of_str c0 with
      | Some _ => Raise IndexError
      | None => Raise ValueError
      end
  | [] => False
  end.
Proof.
  intros cells. split.
  - apply Forall_forall. intros c Hc. subst cells. unfold strip in Hc. split.
    + apply has_char_cells with (2 := Hc).
      apply has_char_rstrip, has_char_lstrip, has_char_remove_char. left.
      apply has_char_remove_char. now right.
    + apply has_char_cells with (2 := Hc).
      apply has_char_rstrip, has_char_lstrip, has_char_remove_char. now right.
  - unfold Position_set. fold cells.
    destruct cells as [|c0 [|c1 [|c2 rest]]] eqn:Hc.
    + subst cells. destruct (strip (remove_char ")" (remove_char "(" str))) as [|d t];
        simpl in Hc; [discriminate |].
      destruct (Ascii.eqb d ","); [discriminate |].
      destruct (split_comma t); discriminate.
    + unfold index, float. simpl. destruct (float_of_str c0); reflexivity.
    + unfold index, float. simpl.
      destruct (float_of_str c0); [| reflexivity].
      destruct (float_of_str c1); reflexivity.
    + unfold index, float. simpl.
      destruct (float_of_str c0); [| reflexivity].
      destruct (float_of_str c1); [| reflexivity].
      destruct (float_of_str c2); reflexivity.
Qed.

End Lines.

Lemma truncated_line_aborts_import_witness :
  truncated "title" = true /\
  fst (ImportFromFile Rlibm (float_of_digits Rscalar)
         (FileLines (["node, A, 0, 0"] ++ "title" :: ["node, B, 3, 4"]))
         (TrussController_init Rscalar)) = Raise IndexError.
Proof.
  split; [reflexivity |].
  rewrite (proj2 (@truncated_line_aborts_import Rscalar Rlibm (float_of_digits Rscalar)
                    "title" eq_refl ["node, A, 0, 0"] ["node, B, 3, 4"]
                    (TrussController_init Rscalar) eq_refl)).
  reflexivity.
Defined.

Lemma keyword_case_insensitive_witness :
  same_model
    (snd (process_line (float_of_digits Rscalar) " NODE , A, 1, 2"
            (TrussController_init Rscalar)))
    (snd (process_line (float_of_digits Rscalar) "node, A, 1, 2"
            (TrussController_init Rscalar))).
Proof.
  exact (proj2 (@keyword_case_insensitive Rscalar (float_of_digits Rscalar)
                  " NODE , A, 1, 2" "node, A, 1, 2" "NODE " "node" [" A"; " 1"; " 2"]
                  (TrussController_init Rscalar) eq_refl eq_refl eq_refl eq_refl eq_refl)).
Defined.


(** * Further properties of the derivation pass, the report and the drawing *)

Section Report.

Variable S : Scalar.
Variable L : Libm S.

(** ** The derivation pass *)

Lemma displacement_ends (ns : list (Node S)) (l : Link S) (len ang : option S) :
  displacement ns (mkLink (Link_name l) (node1_Name l) (node2_Name l) len ang) =
  displacement ns l.
Proof. reflexivity. Qed.

Lemma calcLinkVals_in_frame (ns : list (Node S)) (ls : list (Link S)) :
  Forall2 (fun l l' => link_ends l' = link_ends l /\ (resolves ns l = false -> l' = l))
          ls (fst (calcLinkVals_in L ns ls)).
Proof.
  induction ls as [|l ls IH]; [constructor |].
  rewrite calcLinkVals_in_cons.
  pose proof (displacement_resolves ns l) as Hres.
  assert (Hsame : Forall2 (fun l l' : Link S =>
                             link_ends l' = link_ends l /\ (resolves ns l = false -> l' = l))
                          ls ls).
  { clear. induction ls; constructor; [split; reflexivity | assumption]. }
  destruct (displacement ns l) as [r|].
  - destruct (mag r) as [len|e]; simpl.
    + destruct (getAngleRad L r) as [ang|e]; simpl;
        (constructor; [split; [reflexivity | congruence] |]); assumption.
    + constructor; [split; reflexivity | exact Hsame].
  - simpl. constructor; [split; reflexivity | exact IH].
Qed.

(** X23.  The derivation pass writes lengths and angles and nothing else,
    however it ends: it keeps the number and the order of the links, the
    name and the two node names of each, and the whole of a link one of
    whose names does not resolve; it keeps the title, the nodes, the
    material, the view and what was printed. *)
Theorem calcLinkVals_frame (s : TrussController S) :
  Forall2 (fun l l' => link_ends l' = link_ends l /\
                       (resolves (nodes (truss s)) l = false -> l' = l))
          (links (truss s)) (links (truss (snd (calcLinkVals L s)))) /\
  title (truss (snd (calcLinkVals L s))) = title (truss s) /\
  nodes (truss (snd (calcLinkVals L s))) = nodes (truss s) /\
  material (truss (snd (calcLinkVals L s))) = material (truss s) /\
  view (snd (calcLinkVals L s)) = view s /\
  stdout (snd (calcLinkVals L s)) = stdout s.
Proof.
  rewrite calcLinkVals_run. simpl.
  split; [apply calcLinkVals_in_frame | now repeat split].
Qed.

(** X24.  A pass that ran to its end has nothing left to do: a second pass
    over its result runs to its end too and changes no link. *)
Theorem calcLinkVals_idempotent (ns : list (Node S)) (ls : list (Link S)) :
  snd (calcLinkVals_in L ns ls) = None ->
  calcLinkVals_in L ns (fst (calcLinkVals_in L ns ls)) =
  (fst (calcLinkVals_in L ns ls), None).
Proof.
  induction ls as [|l ls IH]; [reflexivity |].
  rewrite calcLinkVals_in_cons.
  destruct (displacement ns l) as [r|] eqn:Hd.
  - destruct (mag r) as [len|e] eqn:Hm; [| discriminate].
    destruct (getAngleRad L r) as [ang|e] eqn:Ha; [| discriminate].
    cbn [fst snd]. intros H.
    rewrite calcLinkVals_in_cons, displacement_ends, Hd, Hm, Ha.
    cbn [Link_name node1_Name node2_Name]. now rewrite (IH H).
  - cbn [fst snd]. intros H. rewrite calcLinkVals_in_cons, Hd. now rewrite (IH H).
Qed.

(** ** The report *)

Lemma report_loop_outcome (ls : list (Link S)) (longest : option (Link S))
      (rows : list (Row S)) :
  (forall lg, longest = Some lg -> length lg <> None) ->
  if forallb (@link_derived S) ls then
    exists longest' rows',
      report_loop ls longest rows = Ok (longest', rows') /\
      (forall lg, longest' = Some lg -> length lg <> None) /\
      (longest' = None -> longest = None /\ ls = []) /\
      map (@row_fields S) rows' = (map (@row_fields S) rows ++ map (@link_fields S) ls)%list
  else report_loop ls longest rows = Raise TypeError.
Proof.
  revert longest rows. induction ls as [|l ls IH]; intros longest rows Hlg.
  - simpl. exists longest, rows. repeat split; trivial. now rewrite app_nil_r.
  - simpl forallb. unfold link_derived at 1.
    destruct (length l) as [a|] eqn:Hlen.
    + destruct (angleRad l) as [ang|] eqn:Hang.
      * simpl andb.
        set (longest1 := match longest with
                         | None => Some l
                         | Some lg =>
                             match length lg with
                             | Some b => if gtb S a b then Some l else Some lg
                             | None => None
                             end
                         end).
        assert (Hstep : report_loop (l :: ls) longest rows =
                        report_loop ls longest1
                          (rows ++ [mkRow (Link_name l) (node1_Name l) (node2_Name l) a ang])).
        { simpl. rewrite Hlen, Hang. subst longest1.
          destruct longest as [lg|]; [| reflexivity].
          destruct (length lg) as [b|] eqn:Hb; [reflexivity |].
          now elim (Hlg lg eq_refl). }
        assert (H1 : forall lg, longest1 = Some lg -> length lg <> None).
        { subst longest1. intros lg H.
          destruct longest as [lg0|].
          - pose proof (Hlg lg0 eq_refl) as H0.
            destruct (length lg0) as [b|] eqn:Hb; [| now elim H0].
            destruct (gtb S a b); injection H as <-; congruence.
          - injection H as <-. congruence. }
        assert (Hsome : longest1 <> None).
        { subst longest1. destruct longest as [lg0|]; [| discriminate].
          pose proof (Hlg lg0 eq_refl) as H0.
          destruct (length lg0) as [b|]; [| now elim H0].
          destruct (gtb S a b); discriminate. }
        specialize (IH longest1
                       (rows ++ [mkRow (Link_name l) (node1_Name l) (node2_Name l) a ang])%list
                       H1).
        rewrite Hstep.
        destruct (forallb (@link_derived S) ls).
        -- destruct IH as (longest' & rows' & Hr & Hl' & Hnone & Hrows).
           exists longest', rows'. split; [exact Hr |]. split; [exact Hl' |].
           split.
           ++ intros Hn. destruct (Hnone Hn) as [Hc _]. now elim Hsome.
           ++ rewrite Hrows, map_app, <- app_assoc. simpl.
              unfold row_fields at 2, link_fields at 2. simpl. now rewrite Hlen, Hang.
        -- exact IH.
      * simpl andb. simpl. rewrite Hlen, Hang.
        destruct longest as [lg|]; [| reflexivity].
        destruct (length lg); reflexivity.
    + simpl andb. simpl. rewrite Hlen.
      destruct longest as [lg|]; [| reflexivity].
      destruct (length lg); reflexivity.
Qed.

Lemma displayReport_result (s : TrussController S) :
  fst (displayReport s) =
  if negb (material_complete (material (truss s))) then Raise TypeError
  else if negb (forallb (@link_derived S) (links (truss s))) then Raise TypeError
  else match links (truss s) with
       | [] => Raise AttributeError
       | _ :: _ => Ok tt
       end.
Proof.
  unfold displayReport, bind, get_truss. rewrite View_displayReport_run.
  unfold material_complete.
  destruct (staticFactor (material (truss s))); [| reflexivity].
  destruct (uts (material (truss s))); [| reflexivity].
  destruct (ys (material (truss s))); [| reflexivity].
  destruct (E (material (truss s))); [| reflexivity].
  simpl format_2f. cbv iota. simpl negb. cbv iota.
  pose proof (@report_loop_outcome (links (truss s)) None []
                (fun lg H => False_ind _ (eq_ind None (fun o => match o with
                                                                | None => True
                                                                | Some _ => False
                                                                end) I _ H))) as H.
  destruct (forallb (@link_derived S) (links (truss s))); simpl negb; cbv iota.
  - destruct H as (longest' & rows' & Hr & Hl' & Hnone & _). rewrite Hr.
    destruct longest' as [lg|].
    + pose proof (Hl' lg eq_refl) as Hlen.
      destruct (length lg); [| now elim Hlen].
      destruct (links (truss s)); [| reflexivity].
      simpl in Hr. discriminate.
    + destruct (Hnone eq_refl) as [_ ->]. reflexivity.
  - now rewrite H.
Qed.

(** X25.  How [displayReport] ends, for every model.  It raises [TypeError]
    when one of the four numbers of the material is unset or a link has
    no length or no angle; otherwise it raises [AttributeError] when the
    model has no link; otherwise it returns.  However it ends, it leaves
    the model and what was printed as they were. *)
Theorem displayReport_outcome (s : TrussController S) :
  fst (displayReport s) =
    (if negb (material_complete (material (truss s))) then Raise TypeError
     else if negb (forallb (@link_derived S) (links (truss s))) then Raise TypeError
     else match links (truss s) with
          | [] => Raise AttributeError
          | _ :: _ => Ok tt
          end) /\
  truss (snd (displayReport s)) = truss s /\
  stdout (snd (displayReport s)) = stdout s.
Proof.
  split; [apply displayReport_result |].
  split; [apply displayReport_truss |].
  unfold displayReport, bind, get_truss. rewrite View_displayReport_run.
  destruct (format_2f (staticFactor (material (truss s)))); [| reflexivity].
  destruct (format_2f (uts (material (truss s)))); [| reflexivity].
  destruct (format_2f (ys (material (truss s)))); [| reflexivity].
  destruct (format_2f (E (material (truss s)))); [| reflexivity].
  destruct (report_loop (links (truss s)) None []) as [[[lg|] rows]|e]; try reflexivity.
  destruct (length lg); reflexivity.
Qed.

(** X26.  What a report that was produced holds.  When [displayReport]
    returns, the report text has the title and the four numbers of the
    material, and one row for each link of the model, in the order of the
    links, with the link's name, node names, length and angle; the model
    and what was printed are as before. *)
Theorem displayReport_rows (s s' : TrussController S) :
  displayReport s = (Ok tt, s') ->
  exists rep,
    te_Report (view s') = Some rep /\
    rep_title rep = title (truss s) /\
    Some (rep_staticFactor rep) = staticFactor (material (truss s)) /\
    Some (rep_uts rep) = uts (material (truss s)) /\
    Some (rep_ys rep) = ys (material (truss s)) /\
    Some (rep_E rep) = E (material (truss s)) /\
    map (@row_fields S) (rep_rows rep) = map (@link_fields S) (links (truss s)) /\
    truss s' = truss s /\ stdout s' = stdout s.
Proof.
  unfold displayReport, bind, get_truss. rewrite View_displayReport_run.
  destruct (staticFactor (material (truss s))) as [sf|]; [| discriminate].
  destruct (uts (material (truss s))) as [u|]; [| discriminate].
  destruct (ys (material (truss s))) as [y|]; [| discriminate].
  destruct (E (material (truss s))) as [e|]; [| discriminate].
  simpl format_2f. cbv iota.
  pose proof (@report_loop_outcome (links (truss s)) None []
                (fun lg H => False_ind _ (eq_ind None (fun o => match o with
                                                                | None => True
                                                                | Some _ => False
                                                                end) I _ H))) as H.
  destruct (forallb (@link_derived S) (links (truss s))).
  - destruct H as (longest' & rows' & Hr & _ & _ & Hrows). rewrite Hr.
    destruct longest' as [lg|]; [| discriminate].
    destruct (length lg) as [len|]; [| discriminate].
    intros Heq. injection Heq as <-. simpl.
    exists (mkReport (title (truss s)) sf u y e rows'). now repeat split.
  - rewrite H. discriminate.
Qed.

(** ** Drawing the links *)

Lemma drawLinks_in_filter (t : TrussModel S) (ls : list (Link S)) :
  Forall2 (fun l seg =>
             exists n1 n2,
               TrussModel_getNode t (node1_Name l) = Some n1 /\
               TrussModel_getNode t (node2_Name l) = Some n2 /\
               seg = segment_between n1 n2)
          (filter (resolves (nodes t)) ls) (drawLinks_in t ls).
Proof.
  induction ls as [|l ls IH]; simpl; [constructor |].
  unfold TrussModel_getNode in *.
  unfold resolves at 1. rewrite !hasNode_in_getNode_in.
  destruct (getNode_in (nodes t) (node1_Name l)) as [n1|] eqn:H1; [| simpl; exact IH].
  destruct (getNode_in (nodes t) (node2_Name l)) as [n2|] eqn:H2; [| simpl; exact IH].
  simpl. constructor; [| exact IH].
  exists n1, n2. now repeat split.
Qed.

(** X27.  [drawLinks] draws the links that the derivation pass derives: one
    segment for each link both of whose names resolve, in the order of the
    links, between the x and y of the two nodes that [getNode] finds; a
    link with a name that does not resolve is left out without a message.
    Without a model it draws nothing. *)
Theorem drawLinks_resolving (t : TrussModel S) :
  Forall2 (fun l seg =>
             exists n1 n2,
               TrussModel_getNode t (node1_Name l) = Some n1 /\
               TrussModel_getNode t (node2_Name l) = Some n2 /\
               seg = segment_between n1 n2)
          (filter (resolves (nodes t)) (links t)) (drawLinks (Some t)) /\
  List.length (drawLinks (Some t)) = List.length (filter (resolves (nodes t)) (links t)) /\
  drawLinks (S:=S) None = [].
Proof.
  pose proof (drawLinks_in_filter t (links t)) as H.
  split; [exact H |]. split; [| reflexivity].
  symmetry. exact (Forall2_length H).
Qed.

End Report.

(** ** The derivation pass and the import over the real numbers *)

Section RealTruss.

Local Open Scope R_scope.

Variable float_of_str : string -> option Rscalar.

Lemma sumsq_sub (a b : Position Rscalar) :
  sumsq (Position_sub b a) =
  (x b - x a) * (x b - x a) + (y b - y a) * (y b - y a) + (z b - z a) * (z b - z a).
Proof. unfold sumsq, Position_sub. rewrite !Position_of_tuple_components. reflexivity. Qed.

(** X28.  What the derivation pass computes.  Over the real numbers the
    pass never raises.  A link whose two names resolve gets as length the
    Euclidean distance between the two nodes that [getNode] finds, and as
    angle a number in [0, 2 * PI); any other link is left as it was. *)
Theorem calcLinkVals_real_distance (ns : list (Node Rscalar)) (ls : list (Link Rscalar)) :
  snd (calcLinkVals_in Rlibm ns ls) = None /\
  Forall2
    (fun l l' : Link Rscalar =>
       match getNode_in ns (node1_Name l), getNode_in ns (node2_Name l) with
       | Some a, Some b =>
           link_ends l' = link_ends l /\
           length l' =
             Some (sqrt ((x (Node_position b) - x (Node_position a)) *
                         (x (Node_position b) - x (Node_position a)) +
                         (y (Node_position b) - y (Node_position a)) *
                         (y (Node_position b) - y (Node_position a)) +
                         (z (Node_position b) - z (Node_position a)) *
                         (z (Node_position b) - z (Node_position a)))) /\
           exists ang, angleRad l' = Some ang /\ 0 <= ang < 2 * PI
       | _, _ => l' = l
       end)
    ls (fst (calcLinkVals_in Rlibm ns ls)).
Proof.
  split; [apply calcLinkVals_in_real_total |].
  induction ls as [|l ls IH]; [constructor |].
  rewrite calcLinkVals_in_cons. unfold displacement at 1.
  destruct (getNode_in ns (node1_Name l)) as [a|] eqn:Ha.
  - destruct (getNode_in ns (node2_Name l)) as [b|] eqn:Hb.
    + rewrite mag_real.
      destruct (getAngleRad_real_cases (Position_sub (Node_position b) (Node_position a)))
        as (l0 & ang & _ & Hang & _ & _ & _ & Hrange & _).
      rewrite Hang. simpl. constructor; [| exact IH].
      rewrite Ha, Hb. split; [reflexivity |]. split.
      * simpl. now rewrite sumsq_sub.
      * exists ang. split; [reflexivity | exact Hrange].
    + simpl. constructor; [| exact IH]. now rewrite Ha, Hb.
  - simpl. constructor; [| exact IH]. now rewrite Ha.
Qed.

Lemma link_lines_underived (lines : list string) :
  Forall (fun l : Link Rscalar => length l = None) (link_lines Rscalar lines).
Proof.
  induction lines as [|raw lines IH]; simpl; [constructor |].
  destruct (link_line raw) as [[n1 n2]|]; [constructor; [reflexivity | exact IH] | exact IH].
Qed.

Lemma derived_iff_resolves (ns : list (Node Rscalar)) (ls : list (Link Rscalar)) :
  Forall (fun l : Link Rscalar => length l = None) ls ->
  forallb (@link_derived Rscalar) (fst (calcLinkVals_in Rlibm ns ls)) =
  forallb (resolves ns) ls.
Proof.
  induction ls as [|l ls IH]; intros H; [reflexivity |].
  inversion H as [|? ? Hl Hls]; subst.
  rewrite calcLinkVals_in_cons.
  pose proof (displacement_resolves ns l) as Hres.
  destruct (displacement ns l) as [r|].
  - rewrite mag_real.
    destruct (getAngleRad_real_cases r) as (l0 & ang & _ & Hang & _).
    rewrite Hang. simpl. rewrite Hres. simpl. now apply IH.
  - simpl. rewrite Hres. unfold link_derived at 1. now rewrite Hl.
Qed.


End RealTruss.

Lemma calcLinkVals_idempotent_witness :
  calcLinkVals_in Rlibm nodes_A_B (fst (calcLinkVals_in Rlibm nodes_A_B links_AB_AZ)) =
  (fst (calcLinkVals_in Rlibm nodes_A_B links_AB_AZ), None).
Proof.
  exact (@calcLinkVals_idempotent Rscalar Rlibm nodes_A_B links_AB_AZ
           (calcLinkVals_in_real_total nodes_A_B links_AB_AZ)).
Defined.

Lemma displayReport_rows_witness :
  exists rep,
    te_Report (view (snd (displayReport controller_5_5_3))) = Some rep /\
    rep_title rep = title (truss controller_5_5_3) /\
    Some (rep_staticFactor rep) = staticFactor (material (truss controller_5_5_3)) /\
    Some (rep_uts rep) = uts (material (truss controller_5_5_3)) /\
    Some (rep_ys rep) = ys (material (truss controller_5_5_3)) /\
    Some (rep_E rep) = E (material (truss controller_5_5_3)) /\
    map (@row_fields binary64) (rep_rows rep)
    = map (@link_fields binary64) (links (truss controller_5_5_3)) /\
    truss (snd (displayReport controller_5_5_3)) = truss controller_5_5_3 /\
    stdout (snd (displayReport controller_5_5_3)) = stdout controller_5_5_3.
Proof.
  exact (@displayReport_rows binary64 controller_5_5_3 (snd (displayReport controller_5_5_3))
           eq_refl).
Defined.


(** * Further properties of the grid *)

Section Grid.

Local Open Scope Z_scope.

Lemma py_range_count (d step : Z) (k : nat) :
  0 < step ->
  (k < Z.to_nat ((d + step - 1) / step))%nat <-> Z.of_nat k * step < d.
Proof.
  intros Hs.
  pose proof (Z.mul_div_le (d + step - 1) step Hs) as Hq.
  split.
  - intros H. set (q := (d + step - 1) / step) in *.
    assert (Hk : Z.of_nat k + 1 <= q) by lia.
    assert (step * (Z.of_nat k + 1) <= step * q)
      by (apply Z.mul_le_mono_nonneg_l; lia).
    lia.
  - intros H.
    assert (Hk : Z.of_nat k + 1 <= (d + step - 1) / step).
    { apply Z.div_le_lower_bound; [exact Hs |]. lia. }
    set (q := (d + step - 1) / step) in *. lia.
Qed.

Lemma py_range_positive (start stop step : Z) :
  0 < step ->
  exists l,
    py_range start stop step = Ok l /\
    List.length l = Z.to_nat ((stop - start + step - 1) / step) /\
    (forall v, In v l <-> exists k, 0 <= k /\ v = start + k * step /\ v < stop).
Proof.
  intros Hs. unfold py_range.
  assert (H0 : (step =? 0) = false) by (apply Z.eqb_neq; lia).
  assert (H1 : (0 <? step) = true) by (apply Z.ltb_lt; exact Hs).
  rewrite H0, H1. eexists. split; [reflexivity |]. split.
  - now rewrite length_map, length_seq.
  - intros v. rewrite in_map_iff. split.
    + intros (k & <- & Hk). apply in_seq in Hk.
      exists (Z.of_nat k). split; [lia |]. split; [reflexivity |].
      assert (Z.of_nat k * step < stop - start)
        by (apply py_range_count; [exact Hs | lia]).
      lia.
    + intros (k & Hk & -> & Hlt). exists (Z.to_nat k).
      rewrite Z2Nat.id by exact Hk. split; [reflexivity |].
      apply in_seq. split; [lia |]. simpl.
      apply py_range_count; [exact Hs |]. rewrite Z2Nat.id by exact Hk. lia.
Qed.

Lemma range_length (lo hi step : Z) :
  0 < step ->
  (hi + 1 - lo + step - 1) / step = (hi - lo) / step + 1.
Proof.
  intros Hs. replace (hi + 1 - lo + step - 1) with ((hi - lo) + 1 * step) by ring.
  apply Z.div_add. lia.
Qed.

(** X30.  [drawAGrid] with positive spacings, on integers.  It raises nothing
    and draws, first, the vertical lines at the abscissas
    [startX + k * DeltaX] up to [endX], each from [startY] to [endY], and
    then the horizontal lines at the ordinates [startY + k * DeltaY] up to
    [endY], each from [startX] to [endX], where
    [startX = CenterX - Width // 2], [endX = CenterX + Width // 2] and
    likewise in y; their number is
    [(endX - startX) // DeltaX + 1 + (endY - startY) // DeltaY + 1] for a
    width and a height that are not negative.  The left edge is always
    drawn; the right edge is drawn exactly when [DeltaX] divides
    [endX - startX]. *)
Theorem drawAGrid_lines (DeltaX DeltaY Height Width CenterX CenterY : Z) :
  0 < DeltaX -> 0 < DeltaY -> 0 <= Width -> 0 <= Height ->
  let startX := CenterX - Width / 2 in
  let endX := CenterX + Width / 2 in
  let startY := CenterY - Height / 2 in
  let endY := CenterY + Height / 2 in
  let drawn := fst (drawAGrid DeltaX DeltaY Height Width CenterX CenterY) in
  snd (drawAGrid DeltaX DeltaY Height Width CenterX CenterY) = None /\
  (forall g, In g drawn <->
     (exists k, 0 <= k /\ startX + k * DeltaX <= endX /\
                g = mkGridLine (startX + k * DeltaX) startY (startX + k * DeltaX) endY) \/
     (exists k, 0 <= k /\ startY + k * DeltaY <= endY /\
                g = mkGridLine startX (startY + k * DeltaY) endX (startY + k * DeltaY))) /\
  Z.of_nat (List.length drawn) =
    (endX - startX) / DeltaX + 1 + ((endY - startY) / DeltaY + 1) /\
  In (mkGridLine startX startY startX endY) drawn /\
  (In (mkGridLine endX startY endX endY) drawn <-> (DeltaX | endX - startX)).
Proof.
  intros Hdx Hdy Hw Hh startX endX startY endY drawn.
  assert (Hwx : startX <= endX).
  { subst startX endX. pose proof (Z.div_pos Width 2 Hw ltac:(lia)). lia. }
  assert (Hhy : startY <= endY).
  { subst startY endY. pose proof (Z.div_pos Height 2 Hh ltac:(lia)). lia. }
  destruct (py_range_positive startX (endX + 1) Hdx) as (xs & Hxs & Hxl & Hxin).
  destruct (py_range_positive startY (endY + 1) Hdy) as (ys & Hys & Hyl & Hyin).
  assert (Hrun : drawAGrid DeltaX DeltaY Height Width CenterX CenterY =
                 ((map (fun gx => mkGridLine gx startY gx endY) xs ++
                   map (fun gy => mkGridLine startX gy endX gy) ys)%list, None)).
  { unfold drawAGrid. fold startX endX startY endY. now rewrite Hxs, Hys. }
  assert (Hin : forall g, In g drawn <->
     (exists k, 0 <= k /\ startX + k * DeltaX <= endX /\
                g = mkGridLine (startX + k * DeltaX) startY (startX + k * DeltaX) endY) \/
     (exists k, 0 <= k /\ startY + k * DeltaY <= endY /\
                g = mkGridLine startX (startY + k * DeltaY) endX (startY + k * DeltaY))).
  { intros g. subst drawn. rewrite Hrun. simpl fst.
    rewrite in_app_iff, !in_map_iff. split.
    - intros [(gx & <- & Hg)|(gy & <- & Hg)].
      + apply Hxin in Hg. destruct Hg as (k & Hk & -> & Hlt).
        left. exists k. split; [exact Hk |]. split; [lia | reflexivity].
      + apply Hyin in Hg. destruct Hg as (k & Hk & -> & Hlt).
        right. exists k. split; [exact Hk |]. split; [lia | reflexivity].
    - intros [(k & Hk & Hle & ->)|(k & Hk & Hle & ->)].
      + left. exists (startX + k * DeltaX). split; [reflexivity |].
        apply Hxin. exists k. split; [exact Hk |]. split; [reflexivity | lia].
      + right. exists (startY + k * DeltaY). split; [reflexivity |].
        apply Hyin. exists k. split; [exact Hk |]. split; [reflexivity | lia]. }
  split; [now rewrite Hrun |].
  split; [exact Hin |].
  split.
  { subst drawn. rewrite Hrun. simpl fst.
    rewrite length_app, !length_map, Hxl, Hyl, !range_length by assumption.
    pose proof (Z.div_pos (endX - startX) DeltaX ltac:(lia) Hdx).
    pose proof (Z.div_pos (endY - startY) DeltaY ltac:(lia) Hdy).
    lia. }
  split.
  { apply Hin. left. exists 0. split; [lia |]. split; [lia |].
    now replace (startX + 0 * DeltaX) with startX by ring. }
  rewrite Hin. split.
  - intros [(k & Hk & Hle & Hg)|(k & Hk & Hle & Hg)].
    + injection Hg as Hg _. exists k. lia.
    + injection Hg as Hg _ _. exists 0. lia.
  - intros (k & Hk). left. exists k.
    assert (0 <= k) by nia.
    split; [assumption |]. split; [lia |].
    now replace (startX + k * DeltaX) with endX by lia.
Qed.

(** A zero spacing.  [range] raises [ValueError]: for [DeltaX = 0]
    before any line is drawn, and for [DeltaY = 0], [DeltaX] being
    positive, after the vertical lines and before any horizontal one. *)
Lemma drawAGrid_zero_spacing (DeltaX DeltaY Height Width CenterX CenterY : Z) :
  drawAGrid 0 DeltaY Height Width CenterX CenterY = ([], Some ValueError) /\
  (0 < DeltaX ->
   snd (drawAGrid DeltaX 0 Height Width CenterX CenterY) = Some ValueError /\
   Forall (fun g => gx1 g = gx2 g)
          (fst (drawAGrid DeltaX 0 Height Width CenterX CenterY))).
Proof.
  split; [reflexivity |].
  intros Hdx. unfold drawAGrid.
  destruct (py_range_positive (CenterX - Width / 2) (CenterX + Width / 2 + 1) Hdx)
    as (xs & -> & _ & _).
  simpl. split; [reflexivity |].
  apply Forall_forall. intros g Hg. apply in_map_iff in Hg.
  now destruct Hg as (gx & <- & _).
Qed.

End Grid.

(** A spacing of 10 and a width of 25: the lines are at 12 on either
    side of the center, 24 apart, and the right edge is not drawn. *)
Lemma drawAGrid_lines_witness :
  snd (drawAGrid 10 10 20 25 0 0) = None /\
  Z.of_nat (List.length (fst (drawAGrid 10 10 20 25 0 0))) = 6%Z /\
  ~ In (mkGridLine 12 (-10) 12 10) (fst (drawAGrid 10 10 20 25 0 0)).
Proof.
  destruct (@drawAGrid_lines 10 10 20 25 0 0 eq_refl eq_refl
              ltac:(discriminate) ltac:(discriminate)) as (H1 & _ & H3 & _ & H5).
  split; [exact H1 |]. split; [exact H3 |].
  intros Hin. apply H5 in Hin. destruct Hin as (k & Hk).
  change (0 + 25 / 2 - (0 - 25 / 2))%Z with 24%Z in Hk. lia.
Defined.

Lemma drawAGrid_zero_spacing_witness :
  snd (drawAGrid 10 0 20 30 0 0) = Some ValueError.
Proof.
  exact (proj1 (proj2 (drawAGrid_zero_spacing 10 0 20 30 0 0) eq_refl)).
Defined.
